(** * Knowledge-graph memory server: persistence and index consistency

    A shallow embedding of the storage manager (storage-manager.ts), the
    knowledge-graph manager (knowledge-graph-manager.ts), the migration
    script (migrate.ts) and the data types they share (graph-types.ts,
    index-structures.ts), together with the part of the JavaScript runtime
    they rely on: string search and slicing, [JSON.stringify], [JSON.parse],
    the file system and the clock.

    Conventions of the model.
    - A JavaScript string is the list of its code units; the character model
      is eight bits wide (code units 0 to 255, read as Latin-1).
    - Asynchronous methods run to completion one after the other, so a method
      is a function from the world (manager fields, disk, clock) to an
      outcome and a new world.
    - [console.log], [console.warn] and [console.error] have no effect on
      the world and are left out. *)

From Stdlib Require Import List Ascii Bool Arith ZArith Lia.
From Stdlib Require String Decimal DecimalNat DecimalFacts.
Import ListNotations.
Import String.StringSyntax.
Delimit Scope string_scope with string.

Local Open Scope list_scope.
Local Open Scope bool_scope.

(** ** Strings *)

Module Str.

Abbreviation jstring := (list ascii).

(** A literal. *)
Definition js (s : String.string) : jstring := String.list_ascii_of_string s.
Arguments js s%_string.

Definition dquote : ascii := "034"%char.
Definition backslash : ascii := "092"%char.
Definition newline : ascii := "010"%char.
Definition comma : ascii := ","%char.
Definition space : ascii := " "%char.

Definition code (c : ascii) : nat := nat_of_ascii c.

Definition in_range (lo hi : nat) (c : ascii) : bool :=
  (lo <=? code c) && (code c <=? hi).

Definition eqb (a b : jstring) : bool :=
  if list_eq_dec ascii_dec a b then true else false.

(** [s.startsWith(m)] *)
Fixpoint startsWith (s m : jstring) {struct m} : bool :=
  match m, s with
  | [], _ => true
  | _ :: _, [] => false
  | a :: m', b :: s' => Ascii.eqb a b && startsWith s' m'
  end.

(** Position of the first occurrence of [m] in [s]. *)
Fixpoint find (m s : jstring) : option nat :=
  if startsWith s m then Some 0
  else match s with
       | [] => None
       | _ :: s' => option_map S (find m s')
       end.

(** [s.indexOf(m)] *)
Definition indexOf (s m : jstring) : Z :=
  match find m s with
  | Some i => Z.of_nat i
  | None => (-1)%Z
  end.

(** [s.includes(m)] *)
Definition includes (s m : jstring) : bool :=
  match find m s with Some _ => true | None => false end.

(** [s.substring(a, b)]: negative bounds count as 0, bounds beyond the end
    as the length, and the two are swapped when [a > b]. *)
Definition slice (a b : nat) (s : jstring) : jstring :=
  firstn (b - a) (skipn a s).

Definition substring (s : jstring) (a b : Z) : jstring :=
  let a' := Z.to_nat (Z.max 0 a) in
  let b' := Z.to_nat (Z.max 0 b) in
  slice (Nat.min a' b') (Nat.max a' b') s.

(** [s.substring(a)] *)
Definition substringFrom (s : jstring) (a : Z) : jstring :=
  skipn (Z.to_nat (Z.max 0 a)) s.

(** White space of [String.prototype.trim] and of the regular-expression
    class [\s], within the character model: TAB, LF, VT, FF, CR, SP, NBSP. *)
Definition is_space (c : ascii) : bool :=
  in_range 9 13 c || (code c =? 32) || (code c =? 160).

Fixpoint trimStart (s : jstring) : jstring :=
  match s with
  | c :: s' => if is_space c then trimStart s' else s
  | [] => []
  end.

Definition trimEnd (s : jstring) : jstring := rev (trimStart (rev s)).

(** [s.trim()] *)
Definition trim (s : jstring) : jstring := trimEnd (trimStart s).

(** [s.split("\n")] *)
Fixpoint split_lines (s : jstring) : list jstring :=
  match s with
  | [] => [[]]
  | c :: s' =>
      if Ascii.eqb c newline then [] :: split_lines s'
      else match split_lines s' with
           | l :: ls => (c :: l) :: ls
           | [] => [[c]]
           end
  end.

(** [parts.join(sep)] *)
Fixpoint join (sep : jstring) (parts : list jstring) : jstring :=
  match parts with
  | [] => []
  | [p] => p
  | p :: ps => p ++ sep ++ join sep ps
  end.

(** [c.toLowerCase()] on one code unit: the ASCII capitals and the Latin-1
    capitals (all of 0xC0-0xDE but the multiplication sign). *)
Definition lower_char (c : ascii) : ascii :=
  if in_range 65 90 c || (in_range 192 222 c && negb (code c =? 215))
  then ascii_of_nat (code c + 32) else c.

(** [s.toLowerCase()] *)
Definition toLowerCase (s : jstring) : jstring := map lower_char s.

(** The class [\w]. *)
Definition is_word (c : ascii) : bool :=
  in_range 48 57 c || in_range 65 90 c || in_range 97 122 c || (code c =? 95).

Fixpoint span (p : ascii -> bool) (s : jstring) : jstring * jstring :=
  match s with
  | c :: s' => if p c then let (a, b) := span p s' in (c :: a, b) else ([], s)
  | [] => ([], [])
  end.

(** Case-insensitive match of an ASCII keyword at the head of [s], as the
    [i] flag compares: a code unit outside ASCII matches no ASCII letter. *)
Fixpoint startsWith_ci (s kw : jstring) {struct kw} : option jstring :=
  match kw, s with
  | [], _ => Some s
  | _ :: _, [] => None
  | k :: kw', c :: s' =>
      if (code c <? 128) && Ascii.eqb (lower_char c) (lower_char k)
      then startsWith_ci s' kw' else None
  end.

(** One attempt of the pattern [kw\s+(\w+)] at the head of [s]. The white
    space and the word are runs of disjoint classes, so the greedy match is
    the only one: the whole run of spaces, then the whole run of word
    characters. The result is capture group 1. *)
Definition match_kw_here (kw s : jstring) : option jstring :=
  match startsWith_ci s kw with
  | None => None
  | Some r =>
      match span is_space r with
      | ([], _) => None
      | (_, r') =>
          match span is_word r' with
          | ([], _) => None
          | (w, _) => Some w
          end
      end
  end.

(** [s.match(/kw\s+(\w+)/i)]: the leftmost match, [None] for [null]. *)
Fixpoint match_kw (kw s : jstring) : option jstring :=
  match match_kw_here kw s with
  | Some w => Some w
  | None => match s with
            | [] => None
            | _ :: s' => match_kw kw s'
            end
  end.

(** [s.split(/\s+/)]: a run of white space separates two parts; [in_sep]
    says that the scan is inside such a run. *)
Fixpoint split_spaces_from (in_sep : bool) (cur : jstring) (s : jstring)
  : list jstring :=
  match s with
  | [] => [rev cur]
  | c :: s' =>
      if is_space c
      then if in_sep then split_spaces_from true [] s'
           else rev cur :: split_spaces_from true [] s'
      else split_spaces_from false (c :: cur) s'
  end.

Definition split_spaces (s : jstring) : list jstring :=
  split_spaces_from false [] s.

End Str.

(** ** JSON *)

Module Json.
Import Str.

(** A JSON value. A number is kept as its literal; an object as the list of
    its members in source order (a later member of the same key wins, see
    [get]). *)
#[warnings="-register-all"]
Inductive json : Type :=
| JNull
| JBool (b : bool)
| JNum (lit : jstring)
| JStr (s : jstring)
| JArr (items : list json)
| JObj (members : list (jstring * json)).

(** *** Numbers

    An optional minus sign; then a single 0, or a digit from 1 to 9 and any
    digits; then, optionally, a point and one digit or more; then,
    optionally, e or E, an optional sign and one digit or more. *)

Definition is_digit (c : ascii) : bool := in_range 48 57 c.

Definition is_numchar (c : ascii) : bool :=
  is_digit c || Ascii.eqb c "-" || Ascii.eqb c "+" || Ascii.eqb c "."
  || Ascii.eqb c "e" || Ascii.eqb c "E".

Definition all_digits1 (s : jstring) : bool :=
  match s with
  | [] => false
  | _ => forallb is_digit s
  end.

Definition exp_ok (s : jstring) : bool :=
  match s with
  | [] => true
  | c :: r =>
      (Ascii.eqb c "e" || Ascii.eqb c "E")
      && match r with
         | d :: r' =>
             if Ascii.eqb d "+" || Ascii.eqb d "-" then all_digits1 r'
             else all_digits1 r
         | [] => false
         end
  end.

Definition frac_ok (s : jstring) : bool :=
  match s with
  | c :: r =>
      if Ascii.eqb c "."
      then match span is_digit r with
           | ([], _) => false
           | (_, r') => exp_ok r'
           end
      else exp_ok s
  | [] => true
  end.

Definition int_ok (s : jstring) : bool :=
  match s with
  | c :: r =>
      if Ascii.eqb c "0" then frac_ok r
      else if in_range 49 57 c then frac_ok (snd (span is_digit r))
      else false
  | [] => false
  end.

Definition number_ok (s : jstring) : bool :=
  match s with
  | c :: r => if Ascii.eqb c "-" then int_ok r else int_ok s
  | [] => false
  end.

(** *** Strings *)

Definition hex_digit (n : nat) : ascii :=
  nth n (js "0123456789abcdef") "0"%char.

(** QuoteJSONString, one code unit. *)
Definition quote_char (c : ascii) : jstring :=
  if Ascii.eqb c dquote then [backslash; dquote]
  else if Ascii.eqb c backslash then [backslash; backslash]
  else if code c =? 8 then [backslash; "b"%char]
  else if code c =? 12 then [backslash; "f"%char]
  else if code c =? 10 then [backslash; "n"%char]
  else if code c =? 13 then [backslash; "r"%char]
  else if code c =? 9 then [backslash; "t"%char]
  else if code c <? 32
       then [backslash; "u"%char; "0"%char; "0"%char;
             hex_digit (code c / 16); hex_digit (code c mod 16)]
  else [c].

Definition quote (s : jstring) : jstring :=
  dquote :: flat_map quote_char s ++ [dquote].

Definition hex_val (c : ascii) : option nat :=
  if in_range 48 57 c then Some (code c - 48)
  else if in_range 97 102 c then Some (code c - 87)
  else if in_range 65 70 c then Some (code c - 55)
  else None.

(** The code unit of [\uXXXX]; one above 0xFF lies outside the character
    model and the literal is then rejected. *)
Definition hex4 (a b c d : ascii) : option ascii :=
  match hex_val a, hex_val b, hex_val c, hex_val d with
  | Some x, Some y, Some z, Some t =>
      if (x =? 0) && (y =? 0) then Some (ascii_of_nat (z * 16 + t)) else None
  | _, _, _, _ => None
  end.

Definition unescape (e : ascii) : option ascii :=
  if Ascii.eqb e dquote then Some dquote
  else if Ascii.eqb e backslash then Some backslash
  else if Ascii.eqb e "/" then Some "/"%char
  else if Ascii.eqb e "b" then Some "008"%char
  else if Ascii.eqb e "f" then Some "012"%char
  else if Ascii.eqb e "n" then Some "010"%char
  else if Ascii.eqb e "r" then Some "013"%char
  else if Ascii.eqb e "t" then Some "009"%char
  else None.

Definition consr (c : ascii) (r : option (jstring * jstring))
  : option (jstring * jstring) :=
  match r with
  | Some (s, rest) => Some (c :: s, rest)
  | None => None
  end.

(** The characters of a string literal after its opening quote, up to and
    including the closing quote. *)
Fixpoint parse_chars (s : jstring) : option (jstring * jstring) :=
  match s with
  | [] => None
  | c :: r =>
      if Ascii.eqb c dquote then Some ([], r)
      else if Ascii.eqb c backslash then
        match r with
        | [] => None
        | e :: r1 =>
            if Ascii.eqb e "u" then
              match r1 with
              | h1 :: h2 :: h3 :: h4 :: r2 =>
                  match hex4 h1 h2 h3 h4 with
                  | Some ch => consr ch (parse_chars r2)
                  | None => None
                  end
              | _ => None
              end
            else match unescape e with
                 | Some ch => consr ch (parse_chars r1)
                 | None => None
                 end
        end
      else if code c <? 32 then None
      else consr c (parse_chars r)
  end.

(** *** The parser *)

(** JSON white space: SP, TAB, LF, CR. *)
Definition is_ws (c : ascii) : bool :=
  (code c =? 32) || (code c =? 9) || (code c =? 10) || (code c =? 13).

Fixpoint skip_ws (s : jstring) : jstring :=
  match s with
  | c :: s' => if is_ws c then skip_ws s' else s
  | [] => []
  end.

Definition expect (kw : jstring) (v : json) (s : jstring)
  : option (json * jstring) :=
  if startsWith s kw then Some (v, skipn (length kw) s) else None.

(** One value at the head of [s], after white space; [elements] and
    [members] read what follows an opening bracket or brace. *)
Definition value_at
  (elements : jstring -> option (list json * jstring))
  (members : jstring -> option (list (jstring * json) * jstring))
  (s : jstring) : option (json * jstring) :=
  match skip_ws s with
  | [] => None
  | c :: r =>
      if Ascii.eqb c "{" then
        match skip_ws r with
        | c' :: r' =>
            if Ascii.eqb c' "}" then Some (JObj [], r')
            else match members r with
                 | Some (ms, r'') => Some (JObj ms, r'')
                 | None => None
                 end
        | [] => None
        end
      else if Ascii.eqb c "[" then
        match skip_ws r with
        | c' :: r' =>
            if Ascii.eqb c' "]" then Some (JArr [], r')
            else match elements r with
                 | Some (vs, r'') => Some (JArr vs, r'')
                 | None => None
                 end
        | [] => None
        end
      else if Ascii.eqb c dquote then
        match parse_chars r with
        | Some (str, r') => Some (JStr str, r')
        | None => None
        end
      else if Ascii.eqb c "t" then expect (js "true") (JBool true) (c :: r)
      else if Ascii.eqb c "f" then expect (js "false") (JBool false) (c :: r)
      else if Ascii.eqb c "n" then expect (js "null") JNull (c :: r)
      else
        let (lit, r') := span is_numchar (c :: r) in
        if number_ok lit then Some (JNum lit, r') else None
  end.

(** The elements of an array after its opening bracket (or after a comma),
    up to and including the closing bracket. *)
Definition elements_at
  (value : jstring -> option (json * jstring))
  (elements : jstring -> option (list json * jstring))
  (s : jstring) : option (list json * jstring) :=
  match value s with
  | None => None
  | Some (v, r) =>
      match skip_ws r with
      | c :: r' =>
          if Ascii.eqb c "," then
            match elements r' with
            | Some (vs, r'') => Some (v :: vs, r'')
            | None => None
            end
          else if Ascii.eqb c "]" then Some ([v], r')
          else None
      | [] => None
      end
  end.

(** The members of an object after its opening brace (or after a comma),
    up to and including the closing brace. *)
Definition members_at
  (value : jstring -> option (json * jstring))
  (members : jstring -> option (list (jstring * json) * jstring))
  (s : jstring) : option (list (jstring * json) * jstring) :=
  match skip_ws s with
  | q :: r0 =>
      if Ascii.eqb q dquote then
        match parse_chars r0 with
        | None => None
        | Some (k, r1) =>
            match skip_ws r1 with
            | c1 :: r2 =>
                if Ascii.eqb c1 ":" then
                  match value r2 with
                  | None => None
                  | Some (v, r3) =>
                      match skip_ws r3 with
                      | c :: r4 =>
                          if Ascii.eqb c "," then
                            match members r4 with
                            | Some (ms, r5) => Some ((k, v) :: ms, r5)
                            | None => None
                            end
                          else if Ascii.eqb c "}" then Some ([(k, v)], r4)
                          else None
                      | [] => None
                      end
                  end
                else None
            | [] => None
            end
        end
      else None
  | [] => None
  end.

(** The recursive-descent parser. [n] bounds the depth of the calls, and
    [S (length s)] is enough for any [s]. *)
Fixpoint parse_value (n : nat) (s : jstring) : option (json * jstring) :=
  match n with
  | 0 => None
  | S n' => value_at (parse_elements n') (parse_members n') s
  end

with parse_elements (n : nat) (s : jstring)
  : option (list json * jstring) :=
  match n with
  | 0 => None
  | S n' => elements_at (parse_value n') (parse_elements n') s
  end

with parse_members (n : nat) (s : jstring)
  : option (list (jstring * json) * jstring) :=
  match n with
  | 0 => None
  | S n' => members_at (parse_value n') (parse_members n') s
  end.

(** [JSON.parse(s)]; [None] stands for the SyntaxError. *)
Definition parse (s : jstring) : option json :=
  match parse_value (S (length s)) s with
  | Some (v, r) => match skip_ws r with [] => Some v | _ :: _ => None end
  | None => None
  end.

(** *** The printer *)

(** SerializeJSONProperty, for values that hold no [undefined], function or
    symbol. [gap l] is the line break and indentation at nesting depth [l]
    and [sp] the space after a colon; both are empty without the [space]
    argument. *)
Fixpoint stringify_gen (gap : nat -> jstring) (sp : jstring) (l : nat)
  (v : json) : jstring :=
  match v with
  | JNull => js "null"
  | JBool true => js "true"
  | JBool false => js "false"
  | JNum lit => lit
  | JStr s => quote s
  | JArr [] => js "[]"
  | JArr vs =>
      "["%char :: gap (S l)
        ++ join (comma :: gap (S l)) (map (stringify_gen gap sp (S l)) vs)
        ++ gap l ++ ["]"%char]
  | JObj [] => js "{}"
  | JObj ms =>
      "{"%char :: gap (S l)
        ++ join (comma :: gap (S l))
             (map (fun kv => quote (fst kv) ++ ":"%char :: sp
                             ++ stringify_gen gap sp (S l) (snd kv)) ms)
        ++ gap l ++ ["}"%char]
  end.

(** [JSON.stringify(v)] *)
Definition stringify (v : json) : jstring :=
  stringify_gen (fun _ => []) [] 0 v.

Definition gap2 (l : nat) : jstring := newline :: repeat space (2 * l).

(** [JSON.stringify(v, null, 2)] *)
Definition stringify_indent2 (v : json) : jstring :=
  stringify_gen gap2 [space] 0 v.

(** [o[k]] on a parsed object: the last member of that key. *)
Fixpoint get (k : jstring) (ms : list (jstring * json)) : option json :=
  match ms with
  | [] => None
  | (k', v) :: ms' =>
      match get k ms' with
      | Some v' => Some v'
      | None => if Str.eqb k k' then Some v else None
      end
  end.

(** A counter as JSON.stringify prints it, and back. *)
Fixpoint uint_chars (d : Decimal.uint) : jstring :=
  match d with
  | Decimal.Nil => []
  | Decimal.D0 d => "0"%char :: uint_chars d
  | Decimal.D1 d => "1"%char :: uint_chars d
  | Decimal.D2 d => "2"%char :: uint_chars d
  | Decimal.D3 d => "3"%char :: uint_chars d
  | Decimal.D4 d => "4"%char :: uint_chars d
  | Decimal.D5 d => "5"%char :: uint_chars d
  | Decimal.D6 d => "6"%char :: uint_chars d
  | Decimal.D7 d => "7"%char :: uint_chars d
  | Decimal.D8 d => "8"%char :: uint_chars d
  | Decimal.D9 d => "9"%char :: uint_chars d
  end.

Definition digit_uint (c : ascii) (d : Decimal.uint) : option Decimal.uint :=
  match code c - 48 with
  | 0 => Some (Decimal.D0 d) | 1 => Some (Decimal.D1 d)
  | 2 => Some (Decimal.D2 d) | 3 => Some (Decimal.D3 d)
  | 4 => Some (Decimal.D4 d) | 5 => Some (Decimal.D5 d)
  | 6 => Some (Decimal.D6 d) | 7 => Some (Decimal.D7 d)
  | 8 => Some (Decimal.D8 d) | 9 => Some (Decimal.D9 d)
  | _ => None
  end.

Fixpoint chars_uint (s : jstring) : option Decimal.uint :=
  match s with
  | [] => Some Decimal.Nil
  | c :: s' =>
      if is_digit c then
        match chars_uint s' with
        | Some d => digit_uint c d
        | None => None
        end
      else None
  end.

Definition of_nat (n : nat) : json := JNum (uint_chars (Nat.to_uint n)).

(** A number read back as a counter: only the plain decimal literals. *)
Definition to_nat (v : json) : option nat :=
  match v with
  | JNum lit =>
      if number_ok lit then option_map Nat.of_uint (chars_uint lit) else None
  | _ => None
  end.

End Json.

(** ** graph-types.ts *)

Module GraphTypes.
Import Str.

Record Entity : Type := {
  name : jstring;
  entityType : jstring;
  observations : list jstring
}.

Record Relation : Type := {
  from : jstring;
  to : jstring;
  relationType : jstring
}.

Record KnowledgeGraph : Type := {
  entities : list Entity;
  relations : list Relation
}.

Definition emptyGraph : KnowledgeGraph :=
  {| entities := []; relations := [] |}.

(** The test [r.from === x.from && r.to === x.to &&
    r.relationType === x.relationType]. *)
Definition same_relation (x r : Relation) : bool :=
  Str.eqb (from r) (from x) && Str.eqb (to r) (to x)
  && Str.eqb (relationType r) (relationType x).

End GraphTypes.

(** ** index-structures.ts *)

Module IndexStructures.
Import Str.

(** A [Map] with string keys: the entries in insertion order, one per key. *)
Definition Map (V : Type) : Type := list (jstring * V).

Fixpoint map_get {V} (k : jstring) (m : Map V) : option V :=
  match m with
  | [] => None
  | (k', v) :: m' => if Str.eqb k k' then Some v else map_get k m'
  end.

Definition map_has {V} (k : jstring) (m : Map V) : bool :=
  match map_get k m with Some _ => true | None => false end.

(** [m.set(k, v)]: the value of an existing key is replaced where the key
    stands, a new key goes last. *)
Fixpoint map_set {V} (k : jstring) (v : V) (m : Map V) : Map V :=
  match m with
  | [] => [(k, v)]
  | (k', v') :: m' =>
      if Str.eqb k k' then (k', v) :: m' else (k', v') :: map_set k v m'
  end.

Definition map_keys {V} (m : Map V) : list jstring := List.map fst m.

(** A [Set] of strings: the members in insertion order, each once. *)
Definition StrSet : Type := list jstring.

Definition set_has (x : jstring) (s : StrSet) : bool :=
  existsb (Str.eqb x) s.

Definition set_add (x : jstring) (s : StrSet) : StrSet :=
  if set_has x s then s else s ++ [x].

(** [new Set(xs)] *)
Definition set_of_list (xs : list jstring) : StrSet :=
  fold_left (fun s x => set_add x s) xs [].

Record IndexMetadata : Type := {
  version : jstring;
  entityCount : nat;
  relationCount : nat;
  lastUpdated : jstring;
  compressionEnabled : bool
}.

(** [relationsFrom] holds pairs (relationType, toEntity) and [relationsTo]
    pairs (relationType, fromEntity). *)
Record EntityIndex : Type := {
  name : jstring;
  entityType : jstring;
  observationCount : nat;
  relationsFrom : list (jstring * jstring);
  relationsTo : list (jstring * jstring);
  filePosition : nat
}.

(** The members of a set in [relationIndices] are objects (from, to). A
    [Set] compares objects by identity and every member is a fresh object,
    so such a set never merges two of them: it is the list of the pairs
    added. *)
Record IndexStructure : Type := {
  metadata : IndexMetadata;
  entityIndices : Map EntityIndex;
  typeIndices : Map StrSet;
  relationIndices : Map (list (jstring * jstring))
}.

Definition INDEX_MARKER_START : jstring := js "===INDEX_START===".
Definition INDEX_MARKER_END : jstring := js "===INDEX_END===".
Definition DATA_MARKER_START : jstring := js "===DATA_START===".

End IndexStructures.

(** ** The runtime: outcomes, the file system, the clock *)

Module Runtime.
Import Str.

Inductive error : Type :=
| IOError                      (* a rejected fs call *)
| NotFound (what : jstring).   (* [new Error] of addObservations *)

(** What a call comes to. [Untyped] marks a run in which a value read from
    the file does not have the shape its TypeScript type promises (an
    unchecked cast of parsed JSON); the typed model says nothing about such
    a run, and [Untyped] is not an exception: no [catch] sees it. *)
Inductive outcome (A : Type) : Type :=
| Ok (a : A)
| Throw (e : error)
| Untyped.
Arguments Ok {A} a.
Arguments Throw {A} e.
Arguments Untyped {A}.

(** The disk: the files by path, and whether writes go through (a full or
    read-only disk rejects them). *)
Record FileSystem : Type := {
  files : list (jstring * jstring);
  writable : bool
}.

Fixpoint lookup (p : jstring) (fs : list (jstring * jstring))
  : option jstring :=
  match fs with
  | [] => None
  | (p', c) :: fs' => if Str.eqb p p' then Some c else lookup p fs'
  end.

Fixpoint store (p c : jstring) (fs : list (jstring * jstring))
  : list (jstring * jstring) :=
  match fs with
  | [] => [(p, c)]
  | (p', c') :: fs' =>
      if Str.eqb p p' then (p', c) :: fs' else (p', c') :: store p c fs'
  end.

Section Monad.
Context {W : Type}.

Definition M (A : Type) : Type := W -> outcome A * W.

Definition ret {A} (a : A) : M A := fun w => (Ok a, w).

Definition bind {A B} (m : M A) (k : A -> M B) : M B :=
  fun w =>
    match m w with
    | (Ok a, w') => k a w'
    | (Throw e, w') => (Throw e, w')
    | (Untyped, w') => (Untyped, w')
    end.

Definition throw {A} (e : error) : M A := fun w => (Throw e, w).

Definition untyped {A} : M A := fun w => (Untyped, w).

(** [try { m } catch (e) { h e }] *)
Definition try_catch {A} (m : M A) (h : error -> M A) : M A :=
  fun w =>
    match m w with
    | (Throw e, w') => h e w'
    | r => r
    end.

Definition gets {A} (f : W -> A) : M A := fun w => (Ok (f w), w).

Definition modify (f : W -> W) : M unit := fun w => (Ok tt, f w).

(** [for (const x of xs) { await f(x) }] *)
Fixpoint forEach {A} (xs : list A) (f : A -> M unit) : M unit :=
  match xs with
  | [] => ret tt
  | x :: xs' => bind (f x) (fun _ => forEach xs' f)
  end.

End Monad.

Arguments M W A : clear implicits.

Declare Scope monad_scope.
Delimit Scope monad_scope with monad.
Notation "x <- m ;; k" := (bind m (fun x => k))
  (at level 61, m at next level, right associativity) : monad_scope.
Notation "m ;; k" := (bind m (fun _ => k))
  (at level 61, right associativity) : monad_scope.

End Runtime.

(** ** storage-manager.ts *)

Module StorageManager.
Import Str Json GraphTypes IndexStructures Runtime.
Local Open Scope monad_scope.

(** The fields of the class. *)
Record Manager : Type := {
  indexStructure : IndexStructure;
  memoryFilePath : jstring;
  isIndexLoaded : bool
}.

(** The world a method runs in: the manager, the disk, and what
    [new Date().toISOString()] answers. *)
Record World : Type := {
  this : Manager;
  disk : FileSystem;
  now : jstring
}.

Definition set_indexStructure (i : IndexStructure) (w : World) : World :=
  {| this := {| indexStructure := i;
                memoryFilePath := memoryFilePath (this w);
                isIndexLoaded := isIndexLoaded (this w) |};
     disk := disk w; now := now w |}.

Definition set_isIndexLoaded (b : bool) (w : World) : World :=
  {| this := {| indexStructure := indexStructure (this w);
                memoryFilePath := memoryFilePath (this w);
                isIndexLoaded := b |};
     disk := disk w; now := now w |}.

Definition set_files (fs : list (jstring * jstring)) (w : World) : World :=
  {| this := this w;
     disk := {| files := fs; writable := writable (disk w) |};
     now := now w |}.

(** [fs.access], [fs.readFile(path, "utf-8")], [fs.writeFile]. *)
Definition fs_access (p : jstring) : M World unit :=
  fun w => match lookup p (files (disk w)) with
           | Some _ => (Ok tt, w)
           | None => (Throw IOError, w)
           end.

Definition fs_readFile (p : jstring) : M World jstring :=
  fun w => match lookup p (files (disk w)) with
           | Some c => (Ok c, w)
           | None => (Throw IOError, w)
           end.

Definition fs_writeFile (p c : jstring) : M World unit :=
  fun w => if writable (disk w)
           then (Ok tt, set_files (store p c (files (disk w))) w)
           else (Throw IOError, w).

Definition createEmptyIndex (t : jstring) : IndexStructure :=
  {| metadata := {| version := js "1.0.0";
                    entityCount := 0;
                    relationCount := 0;
                    lastUpdated := t;
                    compressionEnabled := false |};
     entityIndices := [];
     typeIndices := [];
     relationIndices := [] |}.

(** [new StorageManager(memoryFilePath)] at time [t]. *)
Definition constructor (path t : jstring) : Manager :=
  {| indexStructure := createEmptyIndex t;
     memoryFilePath := path;
     isIndexLoaded := false |}.

Definition setMemoryFilePath (newPath : jstring) : M World unit :=
  modify (fun w =>
    {| this := {| indexStructure := indexStructure (this w);
                  memoryFilePath := newPath;
                  isIndexLoaded := false |};
       disk := disk w; now := now w |}).

Definition getMemoryFilePath : M World jstring :=
  gets (fun w => memoryFilePath (this w)).

(** *** The records of the data section *)

Definition entity_json (e : Entity) : json :=
  JObj [(js "type", JStr (js "entity"));
        (js "name", JStr (GraphTypes.name e));
        (js "entityType", JStr (GraphTypes.entityType e));
        (js "observations", JArr (map JStr (observations e)))].

Definition relation_json (r : Relation) : json :=
  JObj [(js "type", JStr (js "relation"));
        (js "from", JStr (from r));
        (js "to", JStr (to r));
        (js "relationType", JStr (relationType r))].

Definition as_string (v : option json) : option jstring :=
  match v with Some (JStr s) => Some s | _ => None end.

Fixpoint as_strings (vs : list json) : option (list jstring) :=
  match vs with
  | [] => Some []
  | JStr s :: vs' => option_map (cons s) (as_strings vs')
  | _ :: _ => None
  end.

Definition as_string_array (v : option json) : option (list jstring) :=
  match v with Some (JArr vs) => as_strings vs | _ => None end.

(** The cast [entity as Entity] of a parsed record without its [type]: the
    three fields of the interface, of the promised types. Further members
    of the record are not kept. *)
Definition as_Entity (ms : list (jstring * json)) : option Entity :=
  match as_string (get (js "name") ms),
        as_string (get (js "entityType") ms),
        as_string_array (get (js "observations") ms) with
  | Some n, Some t, Some os =>
      Some {| GraphTypes.name := n; GraphTypes.entityType := t;
              observations := os |}
  | _, _, _ => None
  end.

Definition as_Relation (ms : list (jstring * json)) : option Relation :=
  match as_string (get (js "from") ms),
        as_string (get (js "to") ms),
        as_string (get (js "relationType") ms) with
  | Some f, Some t, Some rt =>
      Some {| from := f; to := t; relationType := rt |}
  | _, _, _ => None
  end.

Inductive record : Type :=
| Skipped                      (* nothing is pushed *)
| IsEntity (e : Entity)
| IsRelation (r : Relation)
| Miscast.                     (* pushed, but not of the interface *)

(** One round of the [forEach] of parseLegacyFormat. A line that is not
    JSON raises a SyntaxError and [null] a TypeError at [item.type]; the
    [catch] swallows both. A number, string, boolean or array has no
    [type], and neither test holds. *)
Definition parse_line (line : jstring) : record :=
  match Json.parse line with
  | Some (JObj ms) =>
      match get (js "type") ms with
      | Some (JStr t) =>
          if Str.eqb t (js "entity") then
            match as_Entity ms with
            | Some e => IsEntity e
            | None => Miscast
            end
          else if Str.eqb t (js "relation") then
            match as_Relation ms with
            | Some r => IsRelation r
            | None => Miscast
            end
          else Skipped
      | _ => Skipped
      end
  | _ => Skipped
  end.

Definition push_record (g : option KnowledgeGraph) (line : jstring)
  : option KnowledgeGraph :=
  match g with
  | None => None
  | Some g =>
      match parse_line line with
      | Skipped => Some g
      | IsEntity e =>
          Some {| entities := entities g ++ [e]; relations := relations g |}
      | IsRelation r =>
          Some {| entities := entities g; relations := relations g ++ [r] |}
      | Miscast => None
      end
  end.

Definition nonblank (line : jstring) : bool :=
  match trim line with [] => false | _ :: _ => true end.

(** parseLegacyFormat; [None] when a record is miscast. *)
Definition parseLegacyFormat (data : jstring) : option KnowledgeGraph :=
  let lines := filter nonblank (split_lines data) in
  fold_left push_record lines (Some emptyGraph).

Definition typed {A} (o : option A) : M World A :=
  match o with
  | Some a => ret a
  | None => untyped
  end.

(** *** buildIndexFromGraph *)

Definition set_entityIndices (m : Map EntityIndex) (i : IndexStructure) :=
  {| metadata := metadata i; entityIndices := m;
     typeIndices := typeIndices i; relationIndices := relationIndices i |}.

Definition set_typeIndices (m : Map StrSet) (i : IndexStructure) :=
  {| metadata := metadata i; entityIndices := entityIndices i;
     typeIndices := m; relationIndices := relationIndices i |}.

Definition set_relationIndices (m : Map (list (jstring * jstring)))
  (i : IndexStructure) :=
  {| metadata := metadata i; entityIndices := entityIndices i;
     typeIndices := typeIndices i; relationIndices := m |}.

(** [m.get(k)!.add(x)] and the pushes on an object held by a map: the
    value at [k] is updated where it stands. *)
Definition map_update {V} (k : jstring) (f : V -> V) (m : Map V) : Map V :=
  match map_get k m with
  | Some v => map_set k (f v) m
  | None => m
  end.

(** The loop over [graph.entities]. *)
Fixpoint index_entities (es : list Entity) (filePosition : nat)
  (i : IndexStructure) : IndexStructure :=
  match es with
  | [] => i
  | entity :: es' =>
      let entityIndex :=
        {| name := GraphTypes.name entity;
           entityType := GraphTypes.entityType entity;
           observationCount := length (observations entity);
           relationsFrom := [];
           relationsTo := [];
           filePosition := filePosition |} in
      let i1 := set_entityIndices
                  (map_set (GraphTypes.name entity) entityIndex
                     (entityIndices i)) i in
      let i2 := if negb (map_has (GraphTypes.entityType entity)
                           (typeIndices i1))
                then set_typeIndices
                       (map_set (GraphTypes.entityType entity) []
                          (typeIndices i1)) i1
                else i1 in
      let i3 := set_typeIndices
                  (map_update (GraphTypes.entityType entity)
                     (set_add (GraphTypes.name entity)) (typeIndices i2))
                  i2 in
      index_entities es' (filePosition + 1) i3
  end.

Definition push_relationsFrom (x : jstring * jstring) (e : EntityIndex) :=
  {| name := name e; entityType := entityType e;
     observationCount := observationCount e;
     relationsFrom := relationsFrom e ++ [x];
     relationsTo := relationsTo e;
     filePosition := filePosition e |}.

Definition push_relationsTo (x : jstring * jstring) (e : EntityIndex) :=
  {| name := name e; entityType := entityType e;
     observationCount := observationCount e;
     relationsFrom := relationsFrom e;
     relationsTo := relationsTo e ++ [x];
     filePosition := filePosition e |}.

(** One round of the loop over [graph.relations]. *)
Definition index_relation (i : IndexStructure) (relation : Relation)
  : IndexStructure :=
  let i1 := set_entityIndices
              (map_update (from relation)
                 (push_relationsFrom (relationType relation, to relation))
                 (entityIndices i)) i in
  let i2 := set_entityIndices
              (map_update (to relation)
                 (push_relationsTo (relationType relation, from relation))
                 (entityIndices i1)) i1 in
  let i3 := if negb (map_has (relationType relation) (relationIndices i2))
            then set_relationIndices
                   (map_set (relationType relation) []
                      (relationIndices i2)) i2
            else i2 in
  set_relationIndices
    (map_update (relationType relation)
       (fun s => s ++ [(from relation, to relation)])
       (relationIndices i3)) i3.

(** The index of [graph], stamped [t]. *)
Definition index_of_graph (graph : KnowledgeGraph) (t : jstring)
  : IndexStructure :=
  let i0 := createEmptyIndex t in
  let i1 :=
    {| metadata := {| version := version (metadata i0);
                      entityCount := length (entities graph);
                      relationCount := length (relations graph);
                      lastUpdated := t;
                      compressionEnabled :=
                        compressionEnabled (metadata i0) |};
       entityIndices := entityIndices i0;
       typeIndices := typeIndices i0;
       relationIndices := relationIndices i0 |} in
  fold_left index_relation (relations graph)
    (index_entities (entities graph) 0 i1).

Definition buildIndexFromGraph (graph : KnowledgeGraph) : M World unit :=
  modify (fun w => set_indexStructure (index_of_graph graph (now w)) w).

(** *** saveIndexAndData *)

Definition edge_json (k1 k2 : String.string) (x : jstring * jstring) : json :=
  JObj [(js k1, JStr (fst x)); (js k2, JStr (snd x))].
Arguments edge_json (k1 k2)%_string x.

Definition metadata_json (m : IndexMetadata) : json :=
  JObj [(js "version", JStr (version m));
        (js "entityCount", Json.of_nat (entityCount m));
        (js "relationCount", Json.of_nat (relationCount m));
        (js "lastUpdated", JStr (lastUpdated m));
        (js "compressionEnabled", JBool (compressionEnabled m))].

Definition entityIndex_json (e : EntityIndex) : json :=
  JObj [(js "name", JStr (name e));
        (js "entityType", JStr (entityType e));
        (js "observationCount", Json.of_nat (observationCount e));
        (js "relationsFrom",
          JArr (map (edge_json "relationType" "toEntity") (relationsFrom e)));
        (js "relationsTo",
          JArr (map (edge_json "relationType" "fromEntity") (relationsTo e)));
        (js "filePosition", Json.of_nat (filePosition e))].

(** [serializableIndex]: the maps as arrays of (key, value) pairs, the sets
    as arrays. *)
Definition serializableIndex (i : IndexStructure) : json :=
  JObj [(js "metadata", metadata_json (metadata i));
        (js "entityIndices",
          JArr (map (fun kv => JArr [JStr (fst kv); entityIndex_json (snd kv)])
                  (entityIndices i)));
        (js "typeIndices",
          JArr (map (fun kv => JArr [JStr (fst kv); JArr (map JStr (snd kv))])
                  (typeIndices i)));
        (js "relationIndices",
          JArr (map (fun kv =>
                       JArr [JStr (fst kv);
                             JArr (map (edge_json "from" "to") (snd kv))])
                  (relationIndices i)))].

Definition dataLines (graph : KnowledgeGraph) : list jstring :=
  map (fun e => Json.stringify (entity_json e)) (entities graph)
  ++ map (fun r => Json.stringify (relation_json r)) (relations graph).

Definition fileContent (i : IndexStructure) (graph : KnowledgeGraph)
  : jstring :=
  join [newline]
    ([INDEX_MARKER_START;
      Json.stringify_indent2 (serializableIndex i);
      INDEX_MARKER_END;
      DATA_MARKER_START]
     ++ dataLines graph).

Definition saveIndexAndData (graph : KnowledgeGraph) : M World unit :=
  i <- gets (fun w => indexStructure (this w)) ;;
  p <- gets (fun w => memoryFilePath (this w)) ;;
  fs_writeFile p (fileContent i graph).

Definition saveIndexAndEmptyData : M World unit :=
  saveIndexAndData emptyGraph.

(** *** migrateFromLegacyFormat, rebuildIndex *)

Definition migrateFromLegacyFormat (data : jstring) : M World IndexStructure :=
  graph <- typed (parseLegacyFormat data) ;;
  buildIndexFromGraph graph ;;
  saveIndexAndData graph ;;
  gets (fun w => indexStructure (this w)).

Definition rebuildIndex : M World IndexStructure :=
  try_catch
    (p <- gets (fun w => memoryFilePath (this w)) ;;
     data <- fs_readFile p ;;
     let dataStartPos := indexOf data DATA_MARKER_START in
     if (dataStartPos =? -1)%Z then migrateFromLegacyFormat data
     else
       let dataContent :=
         trim (substringFrom data
                 (dataStartPos + Z.of_nat (length DATA_MARKER_START))) in
       graph <- typed (parseLegacyFormat dataContent) ;;
       buildIndexFromGraph graph ;;
       saveIndexAndData graph ;;
       modify (set_isIndexLoaded true) ;;
       gets (fun w => indexStructure (this w)))
    (fun _ =>
       t <- gets now ;;
       modify (set_indexStructure (createEmptyIndex t)) ;;
       saveIndexAndEmptyData ;;
       gets (fun w => indexStructure (this w))).

(** *** The index read back from its payload *)

(** [v[k]] on a parsed value that is not [null]: a member of an object,
    [undefined] on anything else. *)
Definition field (k : String.string) (v : json) : option json :=
  match v with
  | JObj ms => get (js k) ms
  | _ => None
  end.
Arguments field k%_string v.

(** What [for (const x of v)] runs over; [None] when [v] is not iterable
    (a TypeError). A string is iterated code unit by code unit. *)
Definition iterate (v : option json) : option (list json) :=
  match v with
  | Some (JArr vs) => Some vs
  | Some (JStr s) => Some (map (fun c => JStr [c]) s)
  | _ => None
  end.

(** The argument of [new Set(v)]: [undefined] and [null] give the empty
    set. *)
Definition iterate_or_empty (v : option json) : option (list json) :=
  match v with
  | None | Some JNull => Some []
  | _ => iterate v
  end.

Definition second (vs : list json) : option json := nth_error vs 1.

(** One loop [for (const [k, v] of parsedIndex[name])]: whether it raises
    a TypeError, by iterating a value that is not iterable, by destructuring
    one, or in its body ([inner], given the elements of the pair). *)
Definition loop_throws (parsedIndex : json) (name : String.string)
  (inner : list json -> bool) : bool :=
  match iterate (field name parsedIndex) with
  | None => true
  | Some elems =>
      existsb (fun el => match iterate (Some el) with
                         | None => true
                         | Some kv => inner kv
                         end) elems
  end.
Arguments loop_throws parsedIndex name%_string inner.

(** Whether the reconstruction of the maps raises a TypeError; the read of
    a property of [null] does. *)
Definition reconstruct_throws (parsedIndex : json) : bool :=
  match parsedIndex with
  | JNull => true
  | _ =>
      loop_throws parsedIndex "entityIndices" (fun _ => false)
      || loop_throws parsedIndex "typeIndices"
           (fun kv => match iterate_or_empty (second kv) with
                      | None => true
                      | Some _ => false
                      end)
      || loop_throws parsedIndex "relationIndices"
           (fun kv => match iterate (second kv) with
                      | None => true
                      | Some rels =>
                          existsb (fun rel => match rel with
                                              | JNull => true
                                              | _ => false
                                              end) rels
                      end)
  end.

Definition as_bool (v : option json) : option bool :=
  match v with Some (JBool b) => Some b | _ => None end.

Definition as_nat (v : option json) : option nat :=
  match v with Some n => Json.to_nat n | None => None end.

Definition as_edge (k1 k2 : String.string) (v : json)
  : option (jstring * jstring) :=
  match as_string (field k1 v), as_string (field k2 v) with
  | Some a, Some b => Some (a, b)
  | _, _ => None
  end.
Arguments as_edge (k1 k2)%_string v.

Fixpoint traverse {A B} (f : A -> option B) (xs : list A) : option (list B) :=
  match xs with
  | [] => Some []
  | x :: xs' =>
      match f x, traverse f xs' with
      | Some y, Some ys => Some (y :: ys)
      | _, _ => None
      end
  end.

Definition as_edges (k1 k2 : String.string) (v : option json)
  : option (list (jstring * jstring)) :=
  match v with
  | Some (JArr vs) => traverse (as_edge k1 k2) vs
  | _ => None
  end.
Arguments as_edges (k1 k2)%_string v.

Definition as_IndexMetadata (v : option json) : option IndexMetadata :=
  match v with
  | Some m =>
      match as_string (field "version" m), as_nat (field "entityCount" m),
            as_nat (field "relationCount" m),
            as_string (field "lastUpdated" m),
            as_bool (field "compressionEnabled" m) with
      | Some v, Some ec, Some rc, Some lu, Some ce =>
          Some {| version := v; entityCount := ec; relationCount := rc;
                  lastUpdated := lu; compressionEnabled := ce |}
      | _, _, _, _, _ => None
      end
  | None => None
  end.

Definition as_EntityIndex (v : option json) : option EntityIndex :=
  match v with
  | Some e =>
      match as_string (field "name" e), as_string (field "entityType" e),
            as_nat (field "observationCount" e),
            as_edges "relationType" "toEntity" (field "relationsFrom" e),
            as_edges "relationType" "fromEntity" (field "relationsTo" e),
            as_nat (field "filePosition" e) with
      | Some n, Some t, Some oc, Some rf, Some rt, Some fp =>
          Some {| name := n; entityType := t; observationCount := oc;
                  relationsFrom := rf; relationsTo := rt;
                  filePosition := fp |}
      | _, _, _, _, _, _ => None
      end
  | None => None
  end.

(** One (key, value) pair of a serialised map, the value read by [rd]. *)
Definition as_pair {V} (rd : option json -> option V) (el : json)
  : option (jstring * V) :=
  match el with
  | JArr (JStr k :: rest) =>
      match rd (nth_error rest 0) with
      | Some v => Some (k, v)
      | None => None
      end
  | _ => None
  end.

(** The loops [for (const [k, v] of pairs) map.set(k, v)]. *)
Definition as_Map {V} (rd : option json -> option V) (v : option json)
  : option (Map V) :=
  match v with
  | Some (JArr els) =>
      option_map
        (fun kvs => fold_left (fun m kv => map_set (fst kv) (snd kv) m) kvs [])
        (traverse (as_pair rd) els)
  | _ => None
  end.

Definition as_StrSet (v : option json) : option StrSet :=
  match v with
  | None | Some JNull => Some []
  | _ => option_map set_of_list (as_string_array v)
  end.

(** The index that the reconstruction installs, when every value has the
    type its interface promises. *)
Definition as_IndexStructure (parsedIndex : json) : option IndexStructure :=
  match as_IndexMetadata (field "metadata" parsedIndex),
        as_Map as_EntityIndex (field "entityIndices" parsedIndex),
        as_Map as_StrSet (field "typeIndices" parsedIndex),
        as_Map (as_edges "from" "to") (field "relationIndices" parsedIndex)
  with
  | Some m, Some ei, Some ti, Some ri =>
      Some {| metadata := m; entityIndices := ei; typeIndices := ti;
              relationIndices := ri |}
  | _, _, _, _ => None
  end.

(** *** loadIndex *)

Definition loadIndex : M World IndexStructure :=
  loaded <- gets (fun w => isIndexLoaded (this w)) ;;
  if loaded then gets (fun w => indexStructure (this w))
  else
    try_catch
      (p <- gets (fun w => memoryFilePath (this w)) ;;
       (* the inner try around fs.access; its catch block returns *)
       missing <-
         try_catch (fs_access p ;; ret None)
           (fun _ =>
              saveIndexAndEmptyData ;;
              modify (set_isIndexLoaded true) ;;
              i <- gets (fun w => indexStructure (this w)) ;;
              ret (Some i)) ;;
       match missing with
       | Some i => ret i
       | None =>
           data <- fs_readFile p ;;
           if negb (includes data INDEX_MARKER_START) then
             migrateFromLegacyFormat data ;;
             modify (set_isIndexLoaded true) ;;
             gets (fun w => indexStructure (this w))
           else
             let indexStartPos :=
               (indexOf data INDEX_MARKER_START
                + Z.of_nat (length INDEX_MARKER_START))%Z in
             let indexEndPos := indexOf data INDEX_MARKER_END in
             if (indexEndPos =? -1)%Z || (indexEndPos <=? indexStartPos)%Z
             then rebuildIndex
             else
               let indexJson :=
                 trim (substring data indexStartPos indexEndPos) in
               match Json.parse indexJson with
               | None => rebuildIndex              (* SyntaxError *)
               | Some parsedIndex =>
                   if reconstruct_throws parsedIndex then rebuildIndex
                   else
                     i <- typed (as_IndexStructure parsedIndex) ;;
                     modify (set_indexStructure i) ;;
                     modify (set_isIndexLoaded true) ;;
                     ret i
               end
       end)
      (fun _ =>
         t <- gets now ;;
         modify (set_indexStructure (createEmptyIndex t)) ;;
         gets (fun w => indexStructure (this w))).

(** *** loadFullGraph *)

Definition loadFullGraph : M World KnowledgeGraph :=
  try_catch
    (loadIndex ;;
     p <- gets (fun w => memoryFilePath (this w)) ;;
     data <- fs_readFile p ;;
     if negb (includes data DATA_MARKER_START) then
       typed (parseLegacyFormat data)
     else
       let dataStartPos :=
         (indexOf data DATA_MARKER_START
          + Z.of_nat (length DATA_MARKER_START))%Z in
       let dataContent := trim (substringFrom data dataStartPos) in
       typed (parseLegacyFormat dataContent))
    (fun _ => ret emptyGraph).

(** *** Point lookups *)

Definition ensureIndexLoaded : M World unit :=
  loaded <- gets (fun w => isIndexLoaded (this w)) ;;
  if negb loaded then loadIndex ;; ret tt else ret tt.

Definition getEntityByName (entityName : jstring) : M World (option Entity) :=
  ensureIndexLoaded ;;
  i <- gets (fun w => indexStructure (this w)) ;;
  match map_get entityName (entityIndices i) with
  | None => ret None
  | Some _ =>
      fullGraph <- loadFullGraph ;;
      ret (List.find (fun e => Str.eqb (GraphTypes.name e) entityName)
             (entities fullGraph))
  end.

Definition getEntitiesByType (entityType : jstring) : M World (list Entity) :=
  ensureIndexLoaded ;;
  i <- gets (fun w => indexStructure (this w)) ;;
  match map_get entityType (typeIndices i) with
  | None => ret []
  | Some entityNames =>
      if length entityNames =? 0 then ret []
      else
        fullGraph <- loadFullGraph ;;
        ret (filter (fun e => set_has (GraphTypes.name e) entityNames)
               (entities fullGraph))
  end.

Definition getRelationsByType (relationType : jstring)
  : M World (list Relation) :=
  ensureIndexLoaded ;;
  i <- gets (fun w => indexStructure (this w)) ;;
  match map_get relationType (relationIndices i) with
  | None => ret []
  | Some relationPairs =>
      if length relationPairs =? 0 then ret []
      else
        fullGraph <- loadFullGraph ;;
        ret (filter
               (fun r =>
                  Str.eqb (GraphTypes.relationType r) relationType
                  && existsb (fun pair => Str.eqb (fst pair) (from r)
                                          && Str.eqb (snd pair) (to r))
                       relationPairs)
               (relations fullGraph))
  end.

Definition searchEntitiesByName (query : jstring) : M World (list Entity) :=
  ensureIndexLoaded ;;
  i <- gets (fun w => indexStructure (this w)) ;;
  let matchingEntityNames :=
    filter (fun name => includes (toLowerCase name) (toLowerCase query))
      (map_keys (entityIndices i)) in
  if length matchingEntityNames =? 0 then ret []
  else
    fullGraph <- loadFullGraph ;;
    ret (filter (fun e => existsb (Str.eqb (GraphTypes.name e))
                            matchingEntityNames)
           (entities fullGraph)).

(** *** Mutations *)

(** [xs.findIndex(p)] *)
Fixpoint findIndex {A} (p : A -> bool) (xs : list A) : Z :=
  match xs with
  | [] => (-1)%Z
  | x :: xs' =>
      if p x then 0%Z
      else let i := findIndex p xs' in
           if (i =? -1)%Z then (-1)%Z else (i + 1)%Z
  end.

(** [xs[i] = x] for an index within the array. *)
Fixpoint assign {A} (i : nat) (x : A) (xs : list A) : list A :=
  match xs, i with
  | [], _ => []
  | _ :: xs', 0 => x :: xs'
  | y :: xs', S i' => y :: assign i' x xs'
  end.

Definition put_entity (entity : Entity) (graph : KnowledgeGraph)
  : KnowledgeGraph :=
  let existingIndex :=
    findIndex (fun e => Str.eqb (GraphTypes.name e) (GraphTypes.name entity))
      (entities graph) in
  if (0 <=? existingIndex)%Z
  then {| entities := assign (Z.to_nat existingIndex) entity (entities graph);
          relations := relations graph |}
  else {| entities := entities graph ++ [entity];
          relations := relations graph |}.

Definition updateEntity (entity : Entity) : M World unit :=
  ensureIndexLoaded ;;
  graph <- loadFullGraph ;;
  let graph := put_entity entity graph in
  buildIndexFromGraph graph ;;
  saveIndexAndData graph.

Definition updateRelation (relation : Relation) : M World unit :=
  ensureIndexLoaded ;;
  graph <- loadFullGraph ;;
  let existingIndex := findIndex (same_relation relation) (relations graph) in
  if (0 <=? existingIndex)%Z then ret tt
  else
    let graph := {| entities := entities graph;
                    relations := relations graph ++ [relation] |} in
    buildIndexFromGraph graph ;;
    saveIndexAndData graph.

Definition remove_entity (entityName : jstring) (graph : KnowledgeGraph)
  : KnowledgeGraph :=
  {| entities :=
       filter (fun e => negb (Str.eqb (GraphTypes.name e) entityName))
         (entities graph);
     relations :=
       filter (fun r => negb (Str.eqb (from r) entityName)
                        && negb (Str.eqb (to r) entityName))
         (relations graph) |}.

Definition deleteEntity (entityName : jstring) : M World unit :=
  ensureIndexLoaded ;;
  graph <- loadFullGraph ;;
  let graph := remove_entity entityName graph in
  buildIndexFromGraph graph ;;
  saveIndexAndData graph.

Definition remove_relation (relation : Relation) (graph : KnowledgeGraph)
  : KnowledgeGraph :=
  {| entities := entities graph;
     relations :=
       filter (fun r => negb (same_relation relation r)) (relations graph) |}.

Definition deleteRelation (relation : Relation) : M World unit :=
  ensureIndexLoaded ;;
  graph <- loadFullGraph ;;
  let graph := remove_relation relation graph in
  buildIndexFromGraph graph ;;
  saveIndexAndData graph.

End StorageManager.

(** ** knowledge-graph-manager.ts *)

Module KnowledgeGraphManager.
Import Str IndexStructures Runtime StorageManager GraphTypes.
Local Open Scope monad_scope.

Definition readIndex : M World IndexStructure := loadIndex.

Definition readGraph : M World KnowledgeGraph := loadFullGraph.

Definition createEntities (entities : list Entity) : M World (list Entity) :=
  graph <- loadFullGraph ;;
  let newEntities :=
    filter (fun e =>
              negb (existsb (fun existingEntity =>
                               Str.eqb (name existingEntity) (name e))
                      (GraphTypes.entities graph)))
      entities in
  forEach newEntities updateEntity ;;
  ret newEntities.

Definition createRelations (relations : list Relation)
  : M World (list Relation) :=
  graph <- loadFullGraph ;;
  let newRelations :=
    filter (fun relation =>
              negb (existsb (same_relation relation)
                      (GraphTypes.relations graph)))
      relations in
  forEach newRelations updateRelation ;;
  ret newRelations.

(** [xs.includes(x)] on an array of strings. *)
Definition array_includes (xs : list jstring) (x : jstring) : bool :=
  existsb (Str.eqb x) xs.

Definition push_observations (entity : Entity) (os : list jstring) : Entity :=
  {| name := name entity; entityType := entityType entity;
     observations := observations entity ++ os |}.

(** The loop of addObservations; an item is (entityName, contents), a
    result (entityName, addedObservations). *)
Fixpoint addObservations_from
  (observations : list (jstring * list jstring))
  (results : list (jstring * list jstring))
  : M World (list (jstring * list jstring)) :=
  match observations with
  | [] => ret results
  | (entityName, contents) :: rest =>
      found <- getEntityByName entityName ;;
      match found with
      | None => throw (NotFound entityName)
      | Some entity =>
          let newObservations :=
            filter (fun content =>
                      negb (array_includes (GraphTypes.observations entity)
                              content))
              contents in
          if 0 <? length newObservations then
            updateEntity (push_observations entity newObservations) ;;
            addObservations_from rest
              (results ++ [(entityName, newObservations)])
          else
            addObservations_from rest (results ++ [(entityName, [])])
      end
  end.

Definition addObservations (observations : list (jstring * list jstring))
  : M World (list (jstring * list jstring)) :=
  addObservations_from observations [].

Definition deleteEntities (entityNames : list jstring) : M World unit :=
  forEach entityNames deleteEntity.

Definition deleteObservations (deletions : list (jstring * list jstring))
  : M World unit :=
  forEach deletions
    (fun deletion =>
       found <- getEntityByName (fst deletion) ;;
       match found with
       | None => ret tt
       | Some entity =>
           updateEntity
             {| name := name entity; entityType := entityType entity;
                observations :=
                  filter (fun o => negb (array_includes (snd deletion) o))
                    (GraphTypes.observations entity) |}
       end).

Definition deleteRelations (relations : list Relation) : M World unit :=
  forEach relations deleteRelation.

(** The relations with both ends in a set of names. *)
Definition between (entityNames : StrSet) (rs : list Relation)
  : list Relation :=
  filter (fun r => set_has (from r) entityNames && set_has (to r) entityNames)
    rs.

Definition matches_term (termLower : jstring) (entity : Entity) : bool :=
  includes (toLowerCase (name entity)) termLower
  || includes (toLowerCase (entityType entity)) termLower
  || existsb (fun o => includes (toLowerCase o) termLower)
       (observations entity).

Definition legacySearchNodes (query : jstring) : M World KnowledgeGraph :=
  graph <- loadFullGraph ;;
  let searchTerms := split_spaces (trim query) in
  if 1 <? length searchTerms then
    let matchingEntitiesByTerm :=
      map (fun term =>
             set_of_list
               (map name
                  (filter (matches_term (toLowerCase term))
                     (entities graph))))
        searchTerms in
    let allMatchingEntities :=
      fold_left (fun all matching =>
                   fold_left (fun s x => set_add x s) matching all)
        matchingEntitiesByTerm [] in
    ret {| entities :=
             filter (fun e => set_has (name e) allMatchingEntities)
               (entities graph);
           relations := between allMatchingEntities (relations graph) |}
  else
    let filteredEntities :=
      filter (matches_term (toLowerCase query)) (entities graph) in
    let filteredEntityNames := set_of_list (map name filteredEntities) in
    ret {| entities := filteredEntities;
           relations := between filteredEntityNames (relations graph) |}.

Definition filter_if {A B} (m : option B) (p : B -> A -> bool)
  (xs : list A) : list A :=
  match m with
  | Some x => filter (p x) xs
  | None => xs
  end.

Definition is_some {A} (o : option A) : bool :=
  match o with Some _ => true | None => false end.

Definition searchNodes (query : jstring) : M World KnowledgeGraph :=
  loadIndex ;;
  let relationMatch := match_kw (js "relations") query in
  let fromMatch := match_kw (js "from") query in
  let toMatch := match_kw (js "to") query in
  let typeMatch := match_kw (js "type") query in
  if is_some relationMatch || is_some fromMatch || is_some toMatch
     || is_some typeMatch
  then
    graph <- loadFullGraph ;;
    let filteredRelations := relations graph in
    let filteredRelations :=
      filter_if relationMatch
        (fun entityName r =>
           Str.eqb (from r) entityName || Str.eqb (to r) entityName)
        filteredRelations in
    let filteredRelations :=
      filter_if fromMatch (fun fromEntity r => Str.eqb (from r) fromEntity)
        filteredRelations in
    let filteredRelations :=
      filter_if toMatch (fun toEntity r => Str.eqb (to r) toEntity)
        filteredRelations in
    let filteredRelations :=
      filter_if typeMatch
        (fun relationType r =>
           includes (toLowerCase (GraphTypes.relationType r))
             (toLowerCase relationType))
        filteredRelations in
    let relatedEntityNames :=
      fold_left (fun s r => set_add (to r) (set_add (from r) s))
        filteredRelations [] in
    ret {| entities :=
             filter (fun e => set_has (name e) relatedEntityNames)
               (entities graph);
           relations := filteredRelations |}
  else if startsWith (toLowerCase query) (js "type ") then
    let entityType := trim (substringFrom query 5) in
    entities <- getEntitiesByType entityType ;;
    graph <- loadFullGraph ;;
    let entityNames := set_of_list (map name entities) in
    ret {| entities := entities;
           relations := between entityNames (relations graph) |}
  else
    let searchTerms := split_spaces (trim query) in
    if 1 <? length searchTerms then legacySearchNodes query
    else
      entities <- searchEntitiesByName query ;;
      graph <- loadFullGraph ;;
      let entityNames := set_of_list (map name entities) in
      ret {| entities := entities;
             relations := between entityNames (relations graph) |}.


Definition expandEntity (entityName : jstring) : M World (option Entity) :=
  getEntityByName entityName.

End KnowledgeGraphManager.

(** ** migrate.ts *)

Module Migrate.
Import Str Json GraphTypes IndexStructures Runtime.
Local Open Scope monad_scope.

(** The script has no manager: it runs on the disk and the clock. *)
Record Env : Type := {
  fs : FileSystem;
  clock : jstring
}.

Definition access (p : jstring) : M Env unit :=
  fun env => match lookup p (files (fs env)) with
             | Some _ => (Ok tt, env)
             | None => (Throw IOError, env)
             end.

Definition readFile (p : jstring) : M Env jstring :=
  fun env => match lookup p (files (fs env)) with
             | Some c => (Ok c, env)
             | None => (Throw IOError, env)
             end.

Definition writeFile (p c : jstring) : M Env unit :=
  fun env => if writable (fs env)
             then (Ok tt,
                   {| fs := {| files := store p c (files (fs env));
                               writable := writable (fs env) |};
                      clock := clock env |})
             else (Throw IOError, env).

(** [fs.copyFile(src, dest)] *)
Definition copyFile (src dest : jstring) : M Env unit :=
  c <- readFile src ;; writeFile dest c.

(** parseLegacyFormat of the script: the loop body is the one of the
    storage manager. *)
Definition parseLegacyFormat (data : jstring) : option KnowledgeGraph :=
  let lines := filter StorageManager.nonblank (split_lines data) in
  fold_left StorageManager.push_record lines (Some emptyGraph).

(** buildIndexFromGraph of the script, at time [t]: the two loops are
    those of the storage manager, over an index of its own. *)
Definition buildIndexFromGraph (graph : KnowledgeGraph) (t : jstring)
  : IndexStructure :=
  let indexStructure :=
    {| metadata := {| version := js "2.0.0";
                      entityCount := length (entities graph);
                      relationCount := length (relations graph);
                      lastUpdated := t;
                      compressionEnabled := false |};
       entityIndices := [];
       typeIndices := [];
       relationIndices := [] |} in
  fold_left StorageManager.index_relation (relations graph)
    (StorageManager.index_entities (entities graph) 0 indexStructure).

Definition writeIndexedFormat (targetPath : jstring) (graph : KnowledgeGraph)
  (indexStructure : IndexStructure) : M Env unit :=
  writeFile targetPath (StorageManager.fileContent indexStructure graph).

Definition typed {A} (o : option A) : M Env A :=
  match o with
  | Some a => ret a
  | None => untyped
  end.

Definition migrateFile (sourcePath targetPath : jstring) : M Env unit :=
  data <- readFile sourcePath ;;
  if includes data INDEX_MARKER_START then
    if negb (Str.eqb sourcePath targetPath)
    then copyFile sourcePath targetPath
    else ret tt
  else
    graph <- typed (parseLegacyFormat data) ;;
    t <- gets clock ;;
    let indexStructure := buildIndexFromGraph graph t in
    writeIndexedFormat targetPath graph indexStructure.

(** main, given the three answers typed at the prompts; the third is only
    asked for when the target exists. *)
Definition main (sourcePath targetAnswer confirm : jstring) : M Env unit :=
  found <- try_catch (access sourcePath ;; ret true) (fun _ => ret false) ;;
  if negb found then ret tt
  else
    let defaultTargetPath := sourcePath ++ js ".indexed" in
    let targetPath :=
      match targetAnswer with
      | [] => defaultTargetPath
      | _ :: _ => targetAnswer
      end in
    present <-
      try_catch (access targetPath ;; ret true) (fun _ => ret false) ;;
    if present && negb (Str.eqb (toLowerCase confirm) (js "y")) then ret tt
    else try_catch (migrateFile sourcePath targetPath) (fun _ => ret tt).
End Migrate.

(** ** Stored graphs and sample data *)

Module Samples.
Import Str IndexStructures Runtime StorageManager GraphTypes.

(** The world right after a successful save of [graph] at time [t]: the
    index of the graph is cached and the file holds both. *)
Definition stored (path : jstring) (graph : KnowledgeGraph) (t : jstring)
  : World :=
  {| this := {| indexStructure := index_of_graph graph t;
                memoryFilePath := path;
                isIndexLoaded := true |};
     disk := {| files := [(path, fileContent (index_of_graph graph t) graph)];
                writable := true |};
     now := t |}.

(** The same disk seen by a manager that has just been constructed. *)
Definition reopened (w : World) (t : jstring) : World :=
  {| this := constructor (memoryFilePath (this w)) t;
     disk := disk w;
     now := t |}.

(** The same world on a disk that rejects writes. *)
Definition read_only (w : World) : World :=
  {| this := this w;
     disk := {| files := files (disk w); writable := false |};
     now := now w |}.

Definition path0 : jstring := js "memory.json".

Definition alice : Entity :=
  {| name := js "Alice"; entityType := js "person";
     observations := [js "likes tea"] |}.

Definition bob : Entity :=
  {| name := js "Bob"; entityType := js "person"; observations := [] |}.

Definition knows : Relation :=
  {| from := js "Alice"; to := js "Bob"; relationType := js "knows" |}.

Definition haunts : Relation :=
  {| from := js "Ghost"; to := js "Alice"; relationType := js "haunts" |}.

Definition people : KnowledgeGraph :=
  {| entities := [alice; bob]; relations := [knows] |}.

End Samples.

(** * Definitions of the proofs *)

Module StrDefs.
Import Str.

(** A text without line break. *)
Definition one_line (s : jstring) : Prop := ~ In newline s.

Definition first_line (s : jstring) : jstring := hd [] (split_lines s).

Definition all_space (s : jstring) : Prop := Forall (fun c => is_space c = true) s.
End StrDefs.

Module JsonDefs.
Import Str Json.
(** A value whose numbers are literals of the grammar. *)
Fixpoint wf (v : json) : bool :=
  match v with
  | JNum lit => number_ok lit && forallb is_numchar lit
  | JArr vs => forallb wf vs
  | JObj ms => forallb (fun kv => wf (snd kv)) ms
  | _ => true
  end.

Definition all_ws (s : jstring) : Prop := Forall (fun c => is_ws c = true) s.

(** What may follow a value: anything but a character of a number. *)
Definition follows (rest : jstring) : Prop :=
  match rest with
  | [] => True
  | c :: _ => is_numchar c = false
  end.

(** How the parser reads the first character of a value. *)
Definition opens_number (c : ascii) : Prop :=
  is_ws c = false /\ Ascii.eqb c "{" = false /\ Ascii.eqb c "[" = false
  /\ Ascii.eqb c dquote = false /\ Ascii.eqb c "t" = false
  /\ Ascii.eqb c "f" = false /\ Ascii.eqb c "n" = false.

(** The first character of a printed value. *)
Definition opens_value (c : ascii) : Prop :=
  is_ws c = false /\ Ascii.eqb c "]" = false /\ Ascii.eqb c "}" = false.

Definition roundtrips (v : json) : Prop :=
  forall gap sp, (forall l, all_ws (gap l)) -> all_ws sp ->
  forall l n w rest, all_ws w -> follows rest ->
    length (stringify_gen gap sp l v) < n ->
    parse_value n (w ++ stringify_gen gap sp l v ++ rest) = Some (v, rest).
End JsonDefs.

Module ParserDefs.
Import Str Json JsonDefs.

Definition headed (c : jstring) : Prop :=
  exists w ch t, c = w ++ ch :: t /\ all_ws w /\ is_ws ch = false.

(** What may follow the text of [v] without changing how it is read. *)
Definition stable_after (v : json) (r : jstring) : Prop :=
  match v with
  | JNum _ => follows r
  | _ => True
  end.

(** The text of an object runs from an opening to a closing brace. *)
Definition braced (v : json) (c : jstring) : Prop :=
  match v with
  | JObj _ =>
      (exists c0, c = c0 ++ ["}"%char])
      /\ (exists w r0, c = w ++ "{"%char :: r0 /\ all_ws w)
  | _ => True
  end.

Definition value_inv (n : nat) : Prop :=
  forall s v r, parse_value n s = Some (v, r) ->
  exists c, s = c ++ r /\ headed c /\ braced v c
    /\ forall m r', n <= m -> stable_after v r' ->
         parse_value m (c ++ r') = Some (v, r').

Definition elements_inv (n : nat) : Prop :=
  forall s vs r, parse_elements n s = Some (vs, r) ->
  exists c, s = c ++ r /\ headed c
    /\ forall m r', n <= m -> parse_elements m (c ++ r') = Some (vs, r').

Definition members_inv (n : nat) : Prop :=
  forall s ms r, parse_members n s = Some (ms, r) ->
  exists c, s = c ++ r
    /\ (exists w t, c = w ++ dquote :: t /\ all_ws w)
    /\ (exists c0, c = c0 ++ ["}"%char])
    /\ forall m r', n <= m -> parse_members m (c ++ r') = Some (ms, r').
End ParserDefs.

Module LineDefs.
Import Str Json JsonDefs.

(** The scan of a text line by line: whether the current line holds an
    opening brace so far, and its last character, if it has one. *)
Record line_state : Type := {
  seen_brace : bool;
  prev : option ascii
}.

Definition fresh : line_state := {| seen_brace := false; prev := None |}.

(** A character on which no text of an object ends. *)
Definition ok_end (c : ascii) : bool :=
  negb (is_ws c) && negb (Ascii.eqb c "}").

Definition line_end_ok (st : line_state) : bool :=
  match prev st with
  | None => true
  | Some c => ok_end c || negb (seen_brace st)
  end.

Definition endable (st : line_state) : bool :=
  match prev st with
  | None => false
  | Some c => ok_end c || negb (seen_brace st)
  end.

Definition put (st : line_state) (c : ascii) : line_state :=
  {| seen_brace := seen_brace st || Ascii.eqb c "{"; prev := Some c |}.

Definition step (st : line_state) (c : ascii) : option line_state :=
  if Ascii.eqb c newline
  then if line_end_ok st then Some fresh else None
  else Some (put st c).

Fixpoint scan (st : line_state) (t : jstring) : option line_state :=
  match t with
  | [] => Some st
  | c :: t' =>
      match step st c with
      | Some st' => scan st' t'
      | None => None
      end
  end.

(** A line that does not read as an object: it is empty, or it ends on a
    character that ends no object, or it holds no opening brace. *)
Definition junk (x : jstring) : Prop :=
  x = [] \/ ok_end (last x " "%char) = true \/ ~ In "{"%char x.

(** A value without empty object whose numbers are literals. *)
Fixpoint plain (v : json) : bool :=
  match v with
  | JNum lit => number_ok lit && forallb is_numchar lit
  | JArr vs => forallb plain vs
  | JObj [] => false
  | JObj ms => forallb (fun kv => plain (snd kv)) ms
  | _ => true
  end.

(** The scan of the text of [v] goes through from any state, and the text
    may end a line. *)
Definition scans (v : json) : Prop :=
  forall l st, exists st',
    scan st (stringify_gen gap2 [space] l v) = Some st' /\ endable st' = true.
End LineDefs.

Module CodecDefs.
Import Str StrDefs.

(** A record line: an opening brace, some text, a closing brace. *)
Definition braces (x : jstring) : Prop :=
  exists t, x = "{"%char :: t ++ ["}"%char].

Definition is_data_line (x : jstring) : Prop := one_line x /\ braces x.
End CodecDefs.

Module FileDefs.
Import Str Json JsonDefs LineDefs.
Import GraphTypes IndexStructures Runtime StorageManager.

(** The index payload of a file. *)
Definition payload (i : IndexStructure) : jstring :=
  Json.stringify_indent2 (serializableIndex i).

(** What follows the data marker. *)
Definition data_text (g : KnowledgeGraph) : jstring :=
  match dataLines g with
  | [] => []
  | ls => newline :: join [newline] ls
  end.

(** A text of which no line, and no line of a suffix, reads as an object. *)
Definition junk_text (x : jstring) : Prop :=
  forall pre t, x = pre ++ t -> Forall junk (split_lines t).

(** The graph that rebuildIndex and loadFullGraph read from the content of
    a file. *)
Definition graph_of_file (data : jstring) : option KnowledgeGraph :=
  if (indexOf data DATA_MARKER_START =? -1)%Z then parseLegacyFormat data
  else parseLegacyFormat
         (trim (substringFrom data
                  (indexOf data DATA_MARKER_START
                   + Z.of_nat (length DATA_MARKER_START)))).
End FileDefs.

Module RunDefs.
Import Str Json GraphTypes IndexStructures Runtime StorageManager FileDefs.

(** The content of the memory file, if it exists. *)
Definition file_of (w : World) : option jstring :=
  lookup (memoryFilePath (this w)) (files (disk w)).

(** The manager has loaded its index and the data section of the memory
    file reads as [g]. *)
Definition loaded_on (w : World) (g : KnowledgeGraph) : Prop :=
  isIndexLoaded (this w) = true
  /\ exists d, file_of w = Some d /\ graph_of_file d = Some g.

(** The cached index is the index of [g]. *)
Definition coherent (w : World) (g : KnowledgeGraph) : Prop :=
  exists t, indexStructure (this w) = index_of_graph g t.

(** The world after buildIndexFromGraph and a successful saveIndexAndData
    of [g]. *)
Definition saved (g : KnowledgeGraph) (w : World) : World :=
  {| this := {| indexStructure := index_of_graph g (now w);
                memoryFilePath := memoryFilePath (this w);
                isIndexLoaded := isIndexLoaded (this w) |};
     disk := {| files :=
                  store (memoryFilePath (this w))
                    (fileContent (index_of_graph g (now w)) g)
                    (files (disk w));
                writable := writable (disk w) |};
     now := now w |}.

Definition add_relation (r : Relation) (g : KnowledgeGraph) : KnowledgeGraph :=
  {| entities := entities g; relations := relations g ++ [r] |}.
End RunDefs.

Module GraphDefs.
Import Str IndexStructures Runtime StorageManager KnowledgeGraphManager GraphTypes.

(** What updateRelation leaves of a graph. *)
Definition put_relation (r : Relation) (g : KnowledgeGraph) : KnowledgeGraph :=
  if existsb (same_relation r) (relations g) then g
  else {| entities := entities g; relations := relations g ++ [r] |}.

(** What one round of the loop of addObservations leaves of a graph in
    which the entity exists. *)
Definition add_observations_to (g : KnowledgeGraph)
  (item : jstring * list jstring) : KnowledgeGraph :=
  match List.find (fun e => Str.eqb (name e) (fst item)) (entities g) with
  | None => g
  | Some entity =>
      let newObservations :=
        filter (fun content =>
                  negb (array_includes (observations entity) content))
          (snd item) in
      if 0 <? length newObservations
      then put_entity (push_observations entity newObservations) g
      else g
  end.

Definition has_entity (n : jstring) (g : KnowledgeGraph) : bool :=
  existsb (fun e => Str.eqb (name e) n) (entities g).


Definition is_new_relation (g : KnowledgeGraph) (r : Relation) : bool :=
  negb (existsb (same_relation r) (relations g)).
End GraphDefs.

Module DecodeDefs.
Import Str Json GraphTypes IndexStructures Runtime StorageManager.

(** A map filled again, entry by entry, from its own entries. *)
Definition refilled {V} (m : Map V) : Map V :=
  fold_left (fun m kv => map_set (fst kv) (snd kv) m) m [].

(** The index that the reconstruction of loadIndex makes of the payload
    written for [i]. *)
Definition reread (i : IndexStructure) : IndexStructure :=
  {| metadata := metadata i;
     entityIndices := refilled (entityIndices i);
     typeIndices :=
       refilled (map (fun kv => (fst kv, set_of_list (snd kv)))
                   (typeIndices i));
     relationIndices := refilled (relationIndices i) |}.

(** Each key once, and each set of names without a repetition. *)
Definition canonical (i : IndexStructure) : Prop :=
  NoDup (map_keys (entityIndices i))
  /\ NoDup (map_keys (typeIndices i))
  /\ Forall (fun kv => NoDup (snd kv)) (typeIndices i)
  /\ NoDup (map_keys (relationIndices i)).
End DecodeDefs.

Module LoadDefs.
Import Str Json GraphTypes IndexStructures Runtime StorageManager.
Import FileDefs RunDefs.

(** The text between the index markers, as loadIndex cuts it. *)
Definition index_text (data : jstring) : jstring :=
  trim (substring data
          (indexOf data INDEX_MARKER_START
           + Z.of_nat (length INDEX_MARKER_START))
          (indexOf data INDEX_MARKER_END)).

(** The end marker is missing, or does not come after the start marker, or
    the text between the two is not JSON. *)
Definition index_payload_corrupt (data : jstring) : Prop :=
  indexOf data INDEX_MARKER_END = (-1)%Z
  \/ (indexOf data INDEX_MARKER_END
      <= indexOf data INDEX_MARKER_START
         + Z.of_nat (length INDEX_MARKER_START))%Z
  \/ Json.parse (index_text data) = None.

(** What loadIndex does with the content of a file that holds the start
    marker. *)
Definition read_index (data : jstring) : M World IndexStructure :=
  (let indexStartPos :=
     (indexOf data INDEX_MARKER_START
      + Z.of_nat (length INDEX_MARKER_START))%Z in
   let indexEndPos := indexOf data INDEX_MARKER_END in
   if (indexEndPos =? -1)%Z || (indexEndPos <=? indexStartPos)%Z
   then rebuildIndex
   else
     match Json.parse (index_text data) with
     | None => rebuildIndex
     | Some parsedIndex =>
         if reconstruct_throws parsedIndex then rebuildIndex
         else
           bind (typed (as_IndexStructure parsedIndex)) (fun i =>
           bind (modify (set_indexStructure i)) (fun _ =>
           bind (modify (set_isIndexLoaded true)) (fun _ => ret i)))
     end).

(** The catch block of loadIndex. *)
Definition reset_index (e : error) : M World IndexStructure :=
  bind (gets now) (fun t =>
  bind (modify (set_indexStructure (createEmptyIndex t))) (fun _ =>
  gets (fun w => indexStructure (this w)))).

Definition holds (w : World) (g : KnowledgeGraph) : Prop :=
  exists d, file_of w = Some d /\ graph_of_file d = Some g.
End LoadDefs.

Module TimeDefs.
Import Str Json GraphTypes IndexStructures Runtime StorageManager.

Definition set_metadata (m : IndexMetadata) (i : IndexStructure)
  : IndexStructure :=
  {| metadata := m; entityIndices := entityIndices i;
     typeIndices := typeIndices i; relationIndices := relationIndices i |}.

(** A manager that has just been constructed, on a disk that holds one
    file and accepts writes. *)
Definition on_disk (path data t : jstring) : World :=
  {| this := constructor path t;
     disk := {| files := [(path, data)]; writable := true |};
     now := t |}.

(** A file whose index payload is cut after its first brace. *)
Definition truncated_file : jstring :=
  join [newline]
    [INDEX_MARKER_START; js "{"; INDEX_MARKER_END; DATA_MARKER_START;
     Json.stringify (entity_json
       {| GraphTypes.name := js "Alice"; GraphTypes.entityType := js "person";
          observations := [js "likes tea"] |})].
End TimeDefs.

Module StoreDefs.
Import Str IndexStructures Runtime StorageManager KnowledgeGraphManager GraphTypes.

(** What one round of the loop of deleteObservations leaves of a graph. *)
Definition remove_observations_from (g : KnowledgeGraph)
  (deletion : jstring * list jstring) : KnowledgeGraph :=
  match List.find (fun e => Str.eqb (name e) (fst deletion)) (entities g) with
  | None => g
  | Some entity =>
      put_entity
        {| name := name entity; entityType := entityType entity;
           observations :=
             filter (fun o => negb (array_includes (snd deletion) o))
               (observations entity) |} g
  end.

End StoreDefs.

Module LookupDefs.
Import Str IndexStructures Runtime StorageManager KnowledgeGraphManager GraphTypes.

(** The names of the entities of a type, in the order of the graph. *)
Definition names_of_type (T : jstring) (es : list Entity) : list jstring :=
  map name (filter (fun e => Str.eqb (entityType e) T) es).

(** The ends of the relations of a type, in the order of the graph. *)
Definition ends_of_type (T : jstring) (rs : list Relation)
  : list (jstring * jstring) :=
  map (fun r => (from r, to r))
    (filter (fun r => Str.eqb (relationType r) T) rs).

(** The entry of a type in the type index while the entities are indexed
    one after the other. *)
Definition types_after (T : jstring) (es : list Entity)
  (entry : option StrSet) : option StrSet :=
  fold_left (fun acc e =>
               if Str.eqb (entityType e) T
               then Some (set_add (name e)
                            (match acc with Some s => s | None => [] end))
               else acc) es entry.

Definition ends_after (T : jstring) (rs : list Relation)
  (entry : option (list (jstring * jstring)))
  : option (list (jstring * jstring)) :=
  fold_left (fun acc r =>
               if Str.eqb (relationType r) T
               then Some ((match acc with Some s => s | None => [] end)
                          ++ [(from r, to r)])
               else acc) rs entry.
End LookupDefs.

Module SearchDefs.
Import Str IndexStructures Runtime StorageManager KnowledgeGraphManager GraphTypes.

(** The graph that the relation-first branch of searchNodes returns for a
    query and the stored graph. *)
Definition relation_first (query : jstring) (graph : KnowledgeGraph)
  : KnowledgeGraph :=
  let filteredRelations :=
    filter_if (match_kw (js "type") query)
      (fun relationType r =>
         includes (toLowerCase (GraphTypes.relationType r))
           (toLowerCase relationType))
      (filter_if (match_kw (js "to") query)
         (fun toEntity r => Str.eqb (to r) toEntity)
         (filter_if (match_kw (js "from") query)
            (fun fromEntity r => Str.eqb (from r) fromEntity)
            (filter_if (match_kw (js "relations") query)
               (fun entityName r =>
                  Str.eqb (from r) entityName || Str.eqb (to r) entityName)
               (relations graph)))) in
  let relatedEntityNames :=
    fold_left (fun s r => set_add (to r) (set_add (from r) s))
      filteredRelations [] in
  {| entities :=
       filter (fun e => set_has (name e) relatedEntityNames) (entities graph);
     relations := filteredRelations |}.

End SearchDefs.

Module PathDefs.
Import Str Json GraphTypes IndexStructures Runtime StorageManager.

(** A file whose index payload is the JSON text null. *)
Definition null_index_file : jstring :=
  join [newline]
    [INDEX_MARKER_START; js "null"; INDEX_MARKER_END; DATA_MARKER_START;
     Json.stringify (entity_json
       {| GraphTypes.name := js "Alice"; GraphTypes.entityType := js "person";
          observations := [js "likes tea"] |})].

(** A graph with an entity named as the end marker. *)
Definition marked : KnowledgeGraph :=
  {| entities :=
       [{| GraphTypes.name := INDEX_MARKER_END;
           GraphTypes.entityType := js "marker";
           observations := [] |}];
     relations := [] |}.

(** The world after loadIndex has created the missing memory file. *)
Definition created (w : World) : World :=
  set_isIndexLoaded true
    (set_files
       (store (memoryFilePath (this w))
          (fileContent (indexStructure (this w)) emptyGraph)
          (files (disk w))) w).
(** Every escape of the form backslash, u in the text is followed by two
    zeros: none names a code unit beyond the character model (see hex4). *)
Fixpoint narrow_escapes (s : jstring) : bool :=
  match s with
  | [] => true
  | c :: s' =>
      (if Ascii.eqb c backslash && startsWith s' (js "u")
       then startsWith s' (js "u00")
       else true)
      && narrow_escapes s'
  end.
End PathDefs.

Module MigrateDefs.
Import Str Json GraphTypes IndexStructures Runtime StorageManager.

(** A storage manager constructed at time [t] on a path of the disk that
    the script leaves. *)
Definition manager_on (path : jstring) (env : Migrate.Env) (t : jstring)
  : World :=
  {| this := constructor path t; disk := Migrate.fs env; now := t |}.

(** A disk with one legacy file. *)
Definition legacy_env (path data t : jstring) : Migrate.Env :=
  {| Migrate.fs := {| files := [(path, data)]; writable := true |};
     Migrate.clock := t |}.
End MigrateDefs.

Module BatchDefs.
Import Str IndexStructures Runtime StorageManager KnowledgeGraphManager GraphTypes.

(** The contents that addObservations adds to an entity. *)
Definition missing_contents (entity : Entity) (contents : list jstring)
  : list jstring :=
  filter (fun content => negb (array_includes (observations entity) content))
    contents.


End BatchDefs.

(** * Lemmas and theorems *)

Module StrFacts.
Import StrDefs.
Import Str.

Lemma eqb_eq (a b : jstring) : Str.eqb a b = true <-> a = b.
Proof.
  unfold Str.eqb. destruct (list_eq_dec ascii_dec a b); split; congruence.
Qed.

Lemma eqb_refl (a : jstring) : Str.eqb a a = true.
Proof. apply eqb_eq. reflexivity. Qed.

Lemma eqb_neq (a b : jstring) : Str.eqb a b = false <-> a <> b.
Proof.
  unfold Str.eqb. destruct (list_eq_dec ascii_dec a b); split; congruence.
Qed.

Lemma startsWith_app (m s : jstring) : startsWith (m ++ s) m = true.
Proof.
  induction m as [|a m IH]; simpl; [reflexivity|].
  rewrite Ascii.eqb_refl. exact IH.
Qed.

Lemma startsWith_split (m s : jstring) :
  startsWith s m = true -> s = m ++ skipn (length m) s.
Proof.
  revert s. induction m as [|a m IH]; intros s H; simpl in *; [reflexivity|].
  destruct s as [|b s]; [discriminate|].
  apply andb_prop in H. destruct H as [H1 H2].
  apply Ascii.eqb_eq in H1. subst b. f_equal. apply IH. exact H2.
Qed.

Lemma startsWith_line (l s m : jstring) :
  one_line m -> startsWith (l ++ newline :: s) m = startsWith l m.
Proof.
  revert m. induction l as [|a l IH]; intros m Hm.
  - destruct m as [|b m]; simpl; [reflexivity|].
    destruct (Ascii.eqb_spec b newline) as [->|]; [|reflexivity].
    exfalso. apply Hm. left. reflexivity.
  - destruct m as [|b m]; simpl; [reflexivity|].
    rewrite IH; [reflexivity|]. intro H. apply Hm. right. exact H.
Qed.

Lemma find_line (m l s : jstring) :
  one_line m -> m <> [] ->
  find m (l ++ newline :: s) =
  match find m l with
  | Some i => Some i
  | None => option_map (fun j => length l + 1 + j) (find m s)
  end.
Proof.
  intros Hm Hne. induction l as [|a l IH].
  - change (([] : jstring) ++ newline :: s) with (newline :: s).
    cbn [find]. 
    assert (E : startsWith (newline :: s) m = false).
    { change (newline :: s) with ([] ++ newline :: s).
      rewrite startsWith_line by exact Hm. destruct m; [congruence|reflexivity]. }
    rewrite E.
    assert (E' : startsWith [] m = false) by (destruct m; [congruence|reflexivity]).
    rewrite E'. destruct (find m s); reflexivity.
  - change ((a :: l) ++ newline :: s) with (a :: (l ++ newline :: s)).
    cbn [find].
    change (a :: (l ++ newline :: s)) with ((a :: l) ++ newline :: s).
    rewrite startsWith_line by exact Hm.
    destruct (startsWith (a :: l) m); [reflexivity|].
    rewrite IH. destruct (find m l); [reflexivity|].
    destruct (find m s); reflexivity.
Qed.

Lemma find_head (m s : jstring) : find m (m ++ s) = Some 0.
Proof.
  destruct m as [|a m]; [destruct s; reflexivity|].
  change ((a :: m) ++ s) with (a :: (m ++ s)). cbn [find].
  change (a :: (m ++ s)) with ((a :: m) ++ s).
  rewrite startsWith_app. reflexivity.
Qed.

Lemma find_Some (m s : jstring) (i : nat) :
  find m s = Some i ->
  exists pre, s = pre ++ m ++ skipn (i + length m) s /\ length pre = i.
Proof.
  revert i. induction s as [|a s IH]; intros i H.
  - cbn [find] in H. destruct (startsWith [] m) eqn:E; [|discriminate].
    injection H as <-. exists []. split; [|reflexivity].
    apply startsWith_split in E. exact E.
  - cbn [find] in H. destruct (startsWith (a :: s) m) eqn:E.
    + injection H as <-. exists []. split; [|reflexivity].
      apply startsWith_split in E. exact E.
    + destruct (find m s) as [j|] eqn:F; [|discriminate].
      injection H as <-. destruct (IH j eq_refl) as (pre & Hs & Hl).
      exists (a :: pre). split; [|simpl; congruence].
      simpl. f_equal. exact Hs.
Qed.

Lemma split_lines_nonnil (s : jstring) : split_lines s <> [].
Proof.
  induction s as [|a s IH]; simpl; [discriminate|].
  destruct (Ascii.eqb a newline); [discriminate|].
  destruct (split_lines s); [congruence|discriminate].
Qed.

Lemma split_lines_app (a b : jstring) :
  split_lines (a ++ newline :: b) = split_lines a ++ split_lines b.
Proof.
  induction a as [|c a IH]; simpl.
  - reflexivity.
  - destruct (Ascii.eqb c newline); [rewrite IH; reflexivity|].
    rewrite IH. pose proof (split_lines_nonnil a) as Hn.
    destruct (split_lines a); [congruence|reflexivity].
Qed.

Lemma split_lines_one (s : jstring) : one_line s -> split_lines s = [s].
Proof.
  induction s as [|c s IH]; intros H; simpl; [reflexivity|].
  destruct (Ascii.eqb_spec c newline) as [->|Hc].
  - exfalso. apply H. left. reflexivity.
  - rewrite IH; [reflexivity|]. intro Hin. apply H. right. exact Hin.
Qed.

Lemma split_lines_join (ls : list jstring) :
  ls <> [] -> Forall one_line ls -> split_lines (join [newline] ls) = ls.
Proof.
  induction ls as [|l ls IH]; intros Hne Hall; [congruence|].
  inversion Hall as [|? ? Hl Hls]; subst.
  destruct ls as [|l' ls].
  - simpl. apply split_lines_one. exact Hl.
  - change (join [newline] (l :: l' :: ls))
      with (l ++ newline :: join [newline] (l' :: ls)).
    rewrite split_lines_app, split_lines_one by exact Hl.
    rewrite IH; [reflexivity|discriminate|exact Hls].
Qed.

Lemma split_lines_suffix (x l : jstring) :
  In l (split_lines x) -> exists pre t, x = pre ++ t /\ l = first_line t.
Proof.
  induction x as [|c x IH]; intros H.
  - simpl in H. destruct H as [<-|[]]. exists [], []. split; reflexivity.
  - simpl in H. destruct (Ascii.eqb c newline) eqn:E.
    + destruct H as [<-|H].
      * exists [], (c :: x). split; [reflexivity|].
        unfold first_line. simpl. rewrite E. reflexivity.
      * destruct (IH H) as (pre & t & -> & ->).
        exists (c :: pre), t. split; reflexivity.
    + pose proof (split_lines_nonnil x) as Hn.
      destruct (split_lines x) as [|l0 ls] eqn:Es; [congruence|].
      destruct H as [<-|H].
      * exists [], (c :: x). split; [reflexivity|].
        unfold first_line. simpl. rewrite E, Es. reflexivity.
      * destruct (IH (or_intror H)) as (pre & t & -> & ->).
        exists (c :: pre), t. split; reflexivity.
Qed.

Lemma trimStart_keep (c : ascii) (s : jstring) :
  is_space c = false -> trimStart (c :: s) = c :: s.
Proof. intros H. simpl. rewrite H. reflexivity. Qed.

Lemma trimStart_suffix (s : jstring) :
  exists pre, s = pre ++ trimStart s /\ all_space pre.
Proof.
  induction s as [|c s (pre & IH & Hp)]; simpl.
  - exists []. split; [reflexivity|constructor].
  - destruct (is_space c) eqn:E.
    + exists (c :: pre). split; [simpl; congruence|constructor; assumption].
    + exists []. split; [reflexivity|constructor].
Qed.

Lemma trimStart_app_keep (a : jstring) (c : ascii) (b : jstring) :
  is_space c = false ->
  trimStart (a ++ c :: b) = trimStart (a ++ [c]) ++ b.
Proof.
  intros Hc. induction a as [|x a IH]; simpl.
  - rewrite Hc. reflexivity.
  - destruct (is_space x); [exact IH|].
    simpl. rewrite <- app_assoc. reflexivity.
Qed.

Lemma trimStart_last (a : jstring) (c : ascii) :
  is_space c = false -> exists z, trimStart (a ++ [c]) = z ++ [c].
Proof.
  intros Hc. induction a as [|x a (z & IH)]; simpl.
  - rewrite Hc. exists []. reflexivity.
  - destruct (is_space x); [exists z; exact IH|].
    exists (x :: a). reflexivity.
Qed.

Lemma trimEnd_keep (s : jstring) (c : ascii) :
  is_space c = false -> trimEnd (s ++ [c]) = s ++ [c].
Proof.
  intros Hc. unfold trimEnd. rewrite rev_app_distr. simpl. rewrite Hc.
  change (c :: rev s) with ([c] ++ rev s).
  rewrite rev_app_distr, rev_involutive. reflexivity.
Qed.

(** Trimming a text that ends in a printing character only strips its
    head. *)
Lemma trim_ends_keep (s : jstring) (c : ascii) :
  is_space c = false -> trim (s ++ [c]) = trimStart (s ++ [c]).
Proof.
  intros Hc. unfold trim. destruct (trimStart_last s c Hc) as (z & ->).
  apply trimEnd_keep. exact Hc.
Qed.
End StrFacts.

Module JsonFacts.
Import StrDefs Str Json JsonDefs StrFacts.

Section JsonInd.
Variable P : json -> Prop.
Hypothesis Hnull : P JNull.
Hypothesis Hbool : forall b, P (JBool b).
Hypothesis Hnum : forall lit, P (JNum lit).
Hypothesis Hstr : forall s, P (JStr s).
Hypothesis Harr : forall vs, Forall P vs -> P (JArr vs).
Hypothesis Hobj : forall ms, Forall (fun kv => P (snd kv)) ms -> P (JObj ms).

Lemma json_induction : forall v, P v.
Proof.
  fix IH 1. intros [| b | lit | s | vs | ms].
  - exact Hnull.
  - apply Hbool.
  - apply Hnum.
  - apply Hstr.
  - apply Harr. induction vs as [|v vs IHvs]; constructor; [apply IH|exact IHvs].
  - apply Hobj. induction ms as [|[k v] ms IHms]; constructor;
      [apply IH|exact IHms].
Qed.
End JsonInd.

Lemma skip_ws_app (w s : jstring) : all_ws w -> skip_ws (w ++ s) = skip_ws s.
Proof.
  induction 1 as [|c w Hc _ IH]; simpl; [reflexivity|].
  rewrite Hc. exact IH.
Qed.

Lemma skip_ws_keep (c : ascii) (s : jstring) :
  is_ws c = false -> skip_ws (c :: s) = c :: s.
Proof. intros H. simpl. rewrite H. reflexivity. Qed.

Lemma skip_ws_split (s : jstring) :
  exists w, s = w ++ skip_ws s /\ all_ws w.
Proof.
  induction s as [|c s (w & IH & Hw)]; simpl.
  - exists []. split; [reflexivity|constructor].
  - destruct (is_ws c) eqn:E.
    + exists (c :: w). split; [simpl; congruence|constructor; assumption].
    + exists []. split; [reflexivity|constructor].
Qed.

Lemma parse_chars_quote_char (c : ascii) (rest : jstring) :
  parse_chars (quote_char c ++ rest) = consr c (parse_chars rest).
Proof.
  destruct c as [[] [] [] [] [] [] [] []]; reflexivity.
Qed.

Lemma parse_chars_quote (s rest : jstring) :
  parse_chars (flat_map quote_char s ++ dquote :: rest) = Some (s, rest).
Proof.
  induction s as [|c s IH]; [reflexivity|].
  cbn [flat_map]. rewrite <- app_assoc, parse_chars_quote_char, IH.
  reflexivity.
Qed.

Lemma span_numchar (lit rest : jstring) :
  forallb is_numchar lit = true -> follows rest ->
  span is_numchar (lit ++ rest) = (lit, rest).
Proof.
  intros Hl Hr. induction lit as [|c lit IH]; simpl in *.
  - destruct rest as [|c r]; [reflexivity|]. simpl in *. rewrite Hr. reflexivity.
  - apply andb_prop in Hl. destruct Hl as [Hc Hl]. rewrite Hc, (IH Hl).
    reflexivity.
Qed.

Lemma numchar_opens_number (c : ascii) : is_numchar c = true -> opens_number c.
Proof.
  destruct c as [[] [] [] [] [] [] [] []]; intros H;
    try discriminate H; repeat split.
Qed.

Lemma ws_not_numchar (c : ascii) : is_ws c = true -> is_numchar c = false.
Proof.
  destruct c as [[] [] [] [] [] [] [] []]; intros H;
    try discriminate H; reflexivity.
Qed.

Lemma follows_ws (w : jstring) (c : ascii) (rest : jstring) :
  all_ws w -> is_numchar c = false -> follows (w ++ c :: rest).
Proof.
  intros Hw Hc. destruct Hw as [|x w' Hx _]; simpl; [exact Hc|].
  apply ws_not_numchar. exact Hx.
Qed.

Lemma numchar_opens_value (c : ascii) : is_numchar c = true -> opens_value c.
Proof.
  destruct c as [[] [] [] [] [] [] [] []]; intros H;
    try discriminate H; repeat split.
Qed.

Lemma number_ok_head (lit : jstring) :
  number_ok lit = true -> exists c t, lit = c :: t.
Proof. destruct lit as [|c t]; [discriminate|]. intros _. eauto. Qed.

Lemma stringify_head gap sp l (v : json) :
  wf v = true ->
  exists c t, stringify_gen gap sp l v = c :: t /\ opens_value c.
Proof.
  destruct v as [| [] | lit | s | [|v vs] | [|kv ms]]; intros H;
    try (eexists; eexists; split; [reflexivity|repeat split]).
  simpl in H. apply andb_prop in H. destruct H as [H1 H2].
  destruct lit as [|c t]; [discriminate|].
  exists c, t. split; [reflexivity|].
  simpl in H2. apply andb_prop in H2. apply numchar_opens_value. apply H2.
Qed.

Lemma join_cons (sep x y : jstring) (ys : list jstring) :
  join sep (x :: y :: ys) = x ++ sep ++ join sep (y :: ys).
Proof. reflexivity. Qed.

Lemma join_head (sep x : jstring) (xs : list jstring) c t :
  x = c :: t -> exists t', join sep (x :: xs) = c :: t'.
Proof.
  intros ->. destruct xs; [exists t; reflexivity|].
  rewrite join_cons. eexists. reflexivity.
Qed.

Lemma value_at_open e m (w : jstring) (c : ascii) (r : jstring) :
  all_ws w -> is_ws c = false ->
  value_at e m (w ++ c :: r) = value_at e m (c :: r).
Proof.
  intros Hw Hc. unfold value_at. rewrite skip_ws_app by exact Hw. reflexivity.
Qed.

Ltac norm_app := repeat first [rewrite <- app_assoc | progress cbn [app]].

Section Containers.
Variable gap : nat -> jstring.
Variable sp : jstring.
Hypothesis gap_ws : forall l, all_ws (gap l).
Hypothesis sp_ws : all_ws sp.
Variable l : nat.

Local Abbreviation sep := (comma :: gap (S l)).
Local Abbreviation item := (stringify_gen gap sp (S l)).
Local Abbreviation member :=
  (fun kv : jstring * json =>
     quote (fst kv) ++ ":"%char :: sp ++ item (snd kv)).

Lemma parse_elements_join (vs : list json) :
  vs <> [] ->
  Forall (fun v => wf v = true -> roundtrips v) vs ->
  forallb wf vs = true ->
  forall m w rest, all_ws w ->
    length (join sep (map item vs)) + 1 < m ->
    parse_elements m (w ++ join sep (map item vs) ++ gap l ++ "]"%char :: rest)
    = Some (vs, rest).
Proof.
  induction vs as [|v vs IH]; intros Hne Hall Hwf m w rest Hw Hm;
    [congruence|].
  inversion Hall as [|? ? Hv Hvs]; subst.
  simpl in Hwf. apply andb_prop in Hwf. destruct Hwf as [Hwv Hwvs].
  destruct m as [|m]; [lia|]. cbn [parse_elements]. unfold elements_at.
  destruct vs as [|v' vs].
  - cbn [map join] in *.
    rewrite (Hv Hwv gap sp gap_ws sp_ws (S l) m w (gap l ++ "]"%char :: rest));
      [|exact Hw|apply follows_ws; [apply gap_ws|reflexivity]|lia].
    rewrite skip_ws_app by apply gap_ws. reflexivity.
  - cbn [map] in *. rewrite join_cons in *.
    rewrite !length_app in Hm. cbn [length] in Hm.
    rewrite <- !app_assoc. 
    rewrite (Hv Hwv gap sp gap_ws sp_ws (S l) m w);
      [|exact Hw|reflexivity|lia].
    cbn [app skip_ws]. 
    change (is_ws comma) with false. cbv iota.
    change (Ascii.eqb comma ",") with true. cbv iota.
    rewrite (IH ltac:(discriminate) Hvs Hwvs m (gap (S l)) rest);
      [reflexivity|apply gap_ws|]. 
    lia.
Qed.

Lemma parse_members_join (ms : list (jstring * json)) :
  ms <> [] ->
  Forall (fun kv => wf (snd kv) = true -> roundtrips (snd kv)) ms ->
  forallb (fun kv => wf (snd kv)) ms = true ->
  forall m w rest, all_ws w ->
    length (join sep (map member ms)) + 1 < m ->
    parse_members m (w ++ join sep (map member ms) ++ gap l ++ "}"%char :: rest)
    = Some (ms, rest).
Proof.
  induction ms as [|[k v] ms IH]; intros Hne Hall Hwf m w rest Hw Hm;
    [congruence|].
  inversion Hall as [|? ? Hv Hvs]; subst.
  simpl in Hwf. apply andb_prop in Hwf. destruct Hwf as [Hwv Hwvs].
  simpl in Hv.
  destruct m as [|m]; [lia|]. cbn [parse_members]. unfold members_at.
  assert (Hk : forall X, skip_ws (w ++ quote k ++ ":"%char :: sp ++ item v ++ X)
               = dquote :: flat_map quote_char k ++ dquote
                   :: ":"%char :: sp ++ item v ++ X).
  { intros X. rewrite skip_ws_app by exact Hw. unfold quote. norm_app.
    apply skip_ws_keep. reflexivity. }
  destruct ms as [|kv' ms].
  - cbn [map join fst snd] in *. norm_app. rewrite Hk.
    change (Ascii.eqb dquote dquote) with true. cbv iota.
    rewrite parse_chars_quote. cbn [skip_ws].
    change (is_ws ":") with false. cbv iota.
    change (Ascii.eqb ":" ":") with true. cbv iota.
    rewrite !length_app in Hm. cbn [length] in Hm.
    rewrite !length_app in Hm. cbn [length] in Hm.
    rewrite (Hv Hwv gap sp gap_ws sp_ws (S l) m sp (gap l ++ "}"%char :: rest));
      [|exact sp_ws|apply follows_ws; [apply gap_ws|reflexivity]|lia].
    rewrite skip_ws_app by apply gap_ws. reflexivity.
  - cbn [map] in *. rewrite join_cons in *. cbn [fst snd] in *.
    norm_app. rewrite Hk.
    change (Ascii.eqb dquote dquote) with true. cbv iota.
    rewrite parse_chars_quote. cbn [skip_ws].
    change (is_ws ":") with false. cbv iota.
    change (Ascii.eqb ":" ":") with true. cbv iota.
    rewrite !length_app in Hm. cbn [length] in Hm.
    rewrite !length_app in Hm. cbn [length] in Hm.
    rewrite (Hv Hwv gap sp gap_ws sp_ws (S l) m sp);
      [|exact sp_ws|reflexivity|lia].
    cbn [skip_ws].
    change (is_ws comma) with false. cbv iota.
    change (Ascii.eqb comma ",") with true. cbv iota.
    rewrite (IH ltac:(discriminate) Hvs Hwvs m (gap (S l)) rest);
      [reflexivity|apply gap_ws|].
    lia.
Qed.

End Containers.

Ltac lit_text :=
  cbn [stringify_gen]; unfold js; cbn [String.list_ascii_of_string app].

Lemma parse_value_stringify (v : json) : wf v = true -> roundtrips v.
Proof.
  induction v as [| b | lit | s | vs IH | ms IH] using json_induction;
    intros Hwf gap sp Hgap Hsp l n w rest Hw Hr Hn;
    (destruct n as [|n]; [lia|]); cbn [parse_value].
  - lit_text. rewrite value_at_open by (try exact Hw; reflexivity). reflexivity.
  - destruct b; lit_text;
      (rewrite value_at_open by (try exact Hw; reflexivity)); reflexivity.
  - cbn [stringify_gen] in *. simpl in Hwf. apply andb_prop in Hwf.
    destruct Hwf as [Hok Hnc].
    destruct lit as [|c t]; [discriminate|].
    assert (Hc : is_numchar c = true)
      by (simpl in Hnc; apply andb_prop in Hnc; apply Hnc).
    destruct (numchar_opens_number c Hc) as (H0 & H1 & H2 & H3 & H4 & H5 & H6).
    cbn [app]. rewrite value_at_open by assumption.
    unfold value_at. rewrite skip_ws_keep by exact H0.
    rewrite H1, H2, H3, H4, H5, H6.
    change (c :: t ++ rest) with ((c :: t) ++ rest).
    rewrite span_numchar by assumption. rewrite Hok. reflexivity.
  - cbn [stringify_gen]. unfold quote. norm_app.
    rewrite value_at_open by (try exact Hw; reflexivity).
    unfold value_at. rewrite skip_ws_keep by reflexivity.
    change (Ascii.eqb dquote "{") with false.
    change (Ascii.eqb dquote "[") with false.
    change (Ascii.eqb dquote dquote) with true. cbv iota.
    rewrite parse_chars_quote. reflexivity.
  - destruct vs as [|v vs].
    + lit_text. rewrite value_at_open by (try exact Hw; reflexivity).
      reflexivity.
    + cbn [stringify_gen] in *. norm_app.
      rewrite value_at_open by (try exact Hw; reflexivity).
      unfold value_at. rewrite skip_ws_keep by reflexivity.
      change (Ascii.eqb "[" "{") with false.
      change (Ascii.eqb "[" "[") with true. cbv iota.
      simpl in Hwf. 
      destruct (stringify_head gap sp (S l) v) as (c & t & Hc & Hc0 & Hc1 & Hc2);
        [apply andb_prop in Hwf; apply Hwf|].
      destruct (join_head (comma :: gap (S l)) _
                  (map (stringify_gen gap sp (S l)) vs) c t Hc) as (t' & Ej).
      assert (Hs : forall X,
                 skip_ws (gap (S l)
                          ++ join (comma :: gap (S l))
                               (map (stringify_gen gap sp (S l)) (v :: vs))
                          ++ X) = c :: t' ++ X).
      { intros X. rewrite skip_ws_app by apply Hgap. cbn [map]. rewrite Ej.
        cbn [app]. apply skip_ws_keep. exact Hc0. }
      rewrite Hs, Hc1.
      cbn [length] in Hn. rewrite !length_app in Hn. cbn [length] in Hn.
      rewrite (parse_elements_join gap sp Hgap Hsp l (v :: vs)
                 ltac:(discriminate) IH Hwf n (gap (S l)) rest);
        [reflexivity|apply Hgap|lia].
  - destruct ms as [|kv ms].
    + lit_text. rewrite value_at_open by (try exact Hw; reflexivity).
      reflexivity.
    + cbn [stringify_gen] in *. norm_app.
      rewrite value_at_open by (try exact Hw; reflexivity).
      unfold value_at. rewrite skip_ws_keep by reflexivity.
      change (Ascii.eqb "{" "{") with true. cbv iota.
      assert (Ej : exists t', join (comma :: gap (S l))
                 (map (fun kv => quote (fst kv) ++ ":"%char :: sp
                          ++ stringify_gen gap sp (S l) (snd kv)) (kv :: ms))
                 = dquote :: t').
      { cbn [map]. eapply join_head. unfold quote. reflexivity. }
      destruct Ej as (t' & Ej).
      assert (Hs : forall X,
                 skip_ws (gap (S l)
                          ++ join (comma :: gap (S l))
                               (map (fun kv => quote (fst kv) ++ ":"%char :: sp
                                  ++ stringify_gen gap sp (S l) (snd kv))
                                  (kv :: ms))
                          ++ X) = dquote :: t' ++ X).
      { intros X. rewrite skip_ws_app by apply Hgap. rewrite Ej.
        cbn [app]. apply skip_ws_keep. reflexivity. }
      rewrite Hs. change (Ascii.eqb dquote "}") with false. cbv iota.
      cbn [length] in Hn. rewrite !length_app in Hn. cbn [length] in Hn.
      rewrite (parse_members_join gap sp Hgap Hsp l (kv :: ms)
                 ltac:(discriminate) IH Hwf n (gap (S l)) rest);
        [reflexivity|apply Hgap|lia].
Qed.

Lemma gap2_ws (l : nat) : all_ws (gap2 l).
Proof.
  unfold gap2. constructor; [reflexivity|].
  induction (2 * l) as [|k IH]; constructor; [reflexivity|exact IH].
Qed.

(** [JSON.parse(JSON.stringify(v))] *)
Lemma parse_stringify (v : json) :
  wf v = true -> parse (stringify v) = Some v.
Proof.
  intros H. unfold parse, stringify.
  pose proof (parse_value_stringify v H (fun _ => []) []
                (fun _ => Forall_nil _) (Forall_nil _) 0
                (S (length (stringify_gen (fun _ => []) [] 0 v))) [] []
                (Forall_nil _) I (Nat.lt_succ_diag_r _)) as E.
  cbn [app] in E. rewrite app_nil_r in E. rewrite E. reflexivity.
Qed.

(** [JSON.parse(JSON.stringify(v, null, 2))] *)
Lemma parse_stringify_indent2 (v : json) :
  wf v = true -> parse (stringify_indent2 v) = Some v.
Proof.
  intros H. unfold parse, stringify_indent2.
  assert (Hsp : all_ws [space]) by (constructor; [reflexivity|constructor]).
  pose proof (parse_value_stringify v H gap2 [space] gap2_ws Hsp 0
                (S (length (stringify_gen gap2 [space] 0 v))) [] []
                (Forall_nil _) I (Nat.lt_succ_diag_r _)) as E.
  cbn [app] in E. rewrite app_nil_r in E. rewrite E. reflexivity.
Qed.
End JsonFacts.

Module ParserFacts.
Import StrDefs Str Json JsonDefs StrFacts JsonFacts ParserDefs.

Lemma skip_ws_head (s : jstring) (c : ascii) (r : jstring) :
  skip_ws s = c :: r -> is_ws c = false.
Proof.
  induction s as [|x s IH]; simpl; [discriminate|].
  destruct (is_ws x) eqn:E; [exact IH|].
  intros H. injection H as -> _. exact E.
Qed.

Lemma skip_ws_cases (s : jstring) (c : ascii) (r : jstring) :
  skip_ws s = c :: r ->
  exists w, s = w ++ c :: r /\ all_ws w /\ is_ws c = false.
Proof.
  intros H. destruct (skip_ws_split s) as (w & E & Hw). rewrite H in E.
  exists w. split; [exact E|]. split; [exact Hw|].
  eapply skip_ws_head. exact H.
Qed.

Lemma consr_Some c o str r :
  consr c o = Some (str, r) ->
  exists str', o = Some (str', r) /\ str = c :: str'.
Proof.
  destruct o as [[s' r']|]; simpl; [|discriminate].
  intros H. injection H as <- <-. eauto.
Qed.

Lemma parse_chars_inv_len (k : nat) :
  forall s str r, length s <= k -> parse_chars s = Some (str, r) ->
  exists c, s = c ++ dquote :: r
    /\ forall r', parse_chars (c ++ dquote :: r') = Some (str, r').
Proof.
  induction k as [|k IH]; intros s str r Hk H.
  - destruct s; [discriminate|simpl in Hk; lia].
  - destruct s as [|ch r0]; [discriminate|]. simpl in Hk.
    cbn [parse_chars] in H.
    destruct (Ascii.eqb ch dquote) eqn:E1.
    + apply Ascii.eqb_eq in E1. subst ch. injection H as <- <-.
      exists []. split; [reflexivity|]. intros r'. reflexivity.
    + destruct (Ascii.eqb ch backslash) eqn:E2.
      * apply Ascii.eqb_eq in E2. subst ch.
        destruct r0 as [|e r1]; [discriminate|].
        destruct (Ascii.eqb e "u") eqn:E3.
        -- destruct r1 as [|h1 [|h2 [|h3 [|h4 r2]]]]; try discriminate.
           destruct (hex4 h1 h2 h3 h4) as [x|] eqn:Eh; [|discriminate].
           apply consr_Some in H. destruct H as (str' & H & ->).
           destruct (IH r2 str' r ltac:(simpl in Hk; lia) H) as (c & -> & Hc).
           exists (backslash :: e :: h1 :: h2 :: h3 :: h4 :: c).
           split; [reflexivity|]. intros r'. cbn [app parse_chars].
           change (Ascii.eqb backslash dquote) with false.
           change (Ascii.eqb backslash backslash) with true. cbv iota.
           rewrite E3, Eh, Hc. reflexivity.
        -- destruct (unescape e) as [x|] eqn:Eu; [|discriminate].
           apply consr_Some in H. destruct H as (str' & H & ->).
           destruct (IH r1 str' r ltac:(simpl in Hk; lia) H) as (c & -> & Hc).
           exists (backslash :: e :: c).
           split; [reflexivity|]. intros r'. cbn [app parse_chars].
           change (Ascii.eqb backslash dquote) with false.
           change (Ascii.eqb backslash backslash) with true. cbv iota.
           rewrite E3, Eu, Hc. reflexivity.
      * destruct (code ch <? 32) eqn:E3; [discriminate|].
        apply consr_Some in H. destruct H as (str' & H & ->).
        destruct (IH r0 str' r ltac:(lia) H) as (c & -> & Hc).
        exists (ch :: c). split; [reflexivity|]. intros r'.
        cbn [app parse_chars]. rewrite E1, E2, E3, Hc. reflexivity.
Qed.

Lemma parse_chars_inv (s str r : jstring) :
  parse_chars s = Some (str, r) ->
  exists c, s = c ++ dquote :: r
    /\ forall r', parse_chars (c ++ dquote :: r') = Some (str, r').
Proof. apply (parse_chars_inv_len (length s)). apply Nat.le_refl. Qed.

Lemma span_split (p : ascii -> bool) (s a b : jstring) :
  span p s = (a, b) ->
  s = a ++ b /\ forallb p a = true
  /\ match b with [] => True | c :: _ => p c = false end.
Proof.
  revert a b. induction s as [|c s IH]; intros a b H; simpl in H.
  - injection H as <- <-. repeat split.
  - destruct (p c) eqn:E.
    + destruct (span p s) as [a' b'] eqn:Es. injection H as <- <-.
      destruct (IH a' b' eq_refl) as (-> & Ha & Hb).
      repeat split; [simpl; rewrite E; exact Ha|exact Hb].
    + injection H as <- <-. repeat split. exact E.
Qed.

Lemma expect_inv (kw : jstring) (v : json) (s : jstring) v' r :
  expect kw v s = Some (v', r) -> v' = v /\ s = kw ++ r.
Proof.
  unfold expect. destruct (startsWith s kw) eqn:E; [|discriminate].
  intros H. injection H as <- <-. split; [reflexivity|].
  apply startsWith_split. exact E.
Qed.

Lemma headed_intro (w : jstring) (ch : ascii) (t : jstring) :
  all_ws w -> is_ws ch = false -> headed (w ++ ch :: t).
Proof. intros Hw Hc. exists w, ch, t. auto. Qed.

Lemma skip_ws_headed (c x : jstring) :
  headed c -> exists ch t, skip_ws (c ++ x) = ch :: t ++ x
                           /\ skip_ws c = ch :: t.
Proof.
  intros (w & ch & t & -> & Hw & Hc). exists ch, t.
  split.
  - rewrite <- app_assoc. rewrite skip_ws_app by exact Hw. cbn [app].
    apply skip_ws_keep. exact Hc.
  - rewrite skip_ws_app by exact Hw. apply skip_ws_keep. exact Hc.
Qed.

Ltac inj H := injection H; clear H; intros; subst.

Lemma value_step (n : nat) :
  elements_inv n -> members_inv n -> value_inv (S n).
Proof.
  intros IHe IHm s v r H. cbn [parse_value] in H. unfold value_at in H.
  destruct (skip_ws s) as [|ch r0] eqn:Esk; [discriminate|].
  destruct (skip_ws_cases s ch r0 Esk) as (w & -> & Hw & Hch). clear Esk.
  destruct (Ascii.eqb ch "{") eqn:E1.
  { apply Ascii.eqb_eq in E1. subst ch.
    destruct (skip_ws r0) as [|c' r1] eqn:Esk; [discriminate|].
    destruct (Ascii.eqb c' "}") eqn:E2.
    - apply Ascii.eqb_eq in E2. subst c'. inj H.
      destruct (skip_ws_cases r0 _ _ Esk) as (w1 & -> & Hw1 & _).
      exists (w ++ "{"%char :: w1 ++ ["}"%char]).
      split; [norm_app; reflexivity|].
      split; [apply headed_intro; assumption|].
      split.
      { split; [exists (w ++ "{"%char :: w1); norm_app; reflexivity|].
        exists w, (w1 ++ ["}"%char]). split; [reflexivity|exact Hw]. }
      intros m r' Hm _. destruct m as [|m]; [lia|]. cbn [parse_value].
      norm_app. rewrite value_at_open by assumption.
      unfold value_at. rewrite skip_ws_keep by reflexivity.
      change (Ascii.eqb "{" "{") with true. cbv iota.
      rewrite skip_ws_app by exact Hw1. reflexivity.
    - destruct (parse_members n r0) as [[ms r2]|] eqn:Em; [|discriminate].
      inj H.
      destruct (IHm _ _ _ Em) as (cm & -> & (wq & tq & Ecm & Hwq) & (c0 & Ec0) & Hst).
      exists (w ++ "{"%char :: cm).
      split; [norm_app; reflexivity|].
      split; [apply headed_intro; assumption|].
      split.
      { split; [exists (w ++ "{"%char :: c0); rewrite Ec0; norm_app; reflexivity|].
        exists w, cm. split; [reflexivity|exact Hw]. }
      intros m r' Hm _. destruct m as [|m]; [lia|]. cbn [parse_value].
      norm_app. rewrite value_at_open by assumption.
      unfold value_at. rewrite skip_ws_keep by reflexivity.
      change (Ascii.eqb "{" "{") with true. cbv iota.
      assert (Hs : skip_ws (cm ++ r') = dquote :: tq ++ r').
      { rewrite Ecm. norm_app. rewrite skip_ws_app by exact Hwq.
        apply skip_ws_keep. reflexivity. }
      rewrite Hs. change (Ascii.eqb dquote "}") with false. cbv iota.
      rewrite Hst by lia. reflexivity. }
  destruct (Ascii.eqb ch "[") eqn:E2.
  { apply Ascii.eqb_eq in E2. subst ch.
    destruct (skip_ws r0) as [|c' r1] eqn:Esk; [discriminate|].
    destruct (Ascii.eqb c' "]") eqn:E3.
    - apply Ascii.eqb_eq in E3. subst c'. inj H.
      destruct (skip_ws_cases r0 _ _ Esk) as (w1 & -> & Hw1 & _).
      exists (w ++ "["%char :: w1 ++ ["]"%char]).
      split; [norm_app; reflexivity|].
      split; [apply headed_intro; assumption|].
      split; [exact I|].
      intros m r' Hm _. destruct m as [|m]; [lia|]. cbn [parse_value].
      norm_app. rewrite value_at_open by assumption.
      unfold value_at. rewrite skip_ws_keep by reflexivity.
      change (Ascii.eqb "[" "{") with false.
      change (Ascii.eqb "[" "[") with true. cbv iota.
      rewrite skip_ws_app by exact Hw1. reflexivity.
    - destruct (parse_elements n r0) as [[vs r2]|] eqn:Ee; [|discriminate].
      inj H.
      destruct (IHe _ _ _ Ee) as (ce & -> & Hh & Hst).
      exists (w ++ "["%char :: ce).
      split; [norm_app; reflexivity|].
      split; [apply headed_intro; assumption|].
      split; [exact I|].
      intros m r' Hm _. destruct m as [|m]; [lia|]. cbn [parse_value].
      norm_app. rewrite value_at_open by assumption.
      unfold value_at. rewrite skip_ws_keep by reflexivity.
      change (Ascii.eqb "[" "{") with false.
      change (Ascii.eqb "[" "[") with true. cbv iota.
      destruct (skip_ws_headed ce r Hh) as (x & t & Hx & Hx0).
      destruct (skip_ws_headed ce r' Hh) as (x' & t' & Hx' & Hx0').
      rewrite Hx0 in Hx0'. inj Hx0'. rewrite Hx in Esk. inj Esk.
      rewrite Hx', E3. rewrite Hst by lia. reflexivity. }
  destruct (Ascii.eqb ch dquote) eqn:E3.
  { apply Ascii.eqb_eq in E3. subst ch.
    destruct (parse_chars r0) as [[str r1]|] eqn:Ec; [|discriminate]. inj H.
    destruct (parse_chars_inv _ _ _ Ec) as (c & -> & Hst).
    exists (w ++ dquote :: c ++ [dquote]).
    split; [norm_app; reflexivity|].
    split; [apply headed_intro; assumption|].
    split; [exact I|].
    intros m r' Hm _. destruct m as [|m]; [lia|]. cbn [parse_value].
    norm_app. rewrite value_at_open by assumption.
    unfold value_at. rewrite skip_ws_keep by reflexivity.
    change (Ascii.eqb dquote "{") with false.
    change (Ascii.eqb dquote "[") with false.
    change (Ascii.eqb dquote dquote) with true. cbv iota.
    rewrite Hst. reflexivity. }
  destruct (Ascii.eqb ch "t") eqn:E4.
  { apply Ascii.eqb_eq in E4. subst ch.
    apply expect_inv in H. destruct H as [-> E]. unfold js in E.
    cbn [String.list_ascii_of_string app] in E. inj E.
    exists (w ++ js "true").
    split; [norm_app; reflexivity|].
    split; [apply headed_intro; assumption|].
    split; [exact I|].
    intros m r' Hm _. destruct m as [|m]; [lia|]. cbn [parse_value].
    unfold js. cbn [String.list_ascii_of_string]. norm_app.
    rewrite value_at_open by assumption. reflexivity. }
  destruct (Ascii.eqb ch "f") eqn:E5.
  { apply Ascii.eqb_eq in E5. subst ch.
    apply expect_inv in H. destruct H as [-> E]. unfold js in E.
    cbn [String.list_ascii_of_string app] in E. inj E.
    exists (w ++ js "false").
    split; [norm_app; reflexivity|].
    split; [apply headed_intro; assumption|].
    split; [exact I|].
    intros m r' Hm _. destruct m as [|m]; [lia|]. cbn [parse_value].
    unfold js. cbn [String.list_ascii_of_string]. norm_app.
    rewrite value_at_open by assumption. reflexivity. }
  destruct (Ascii.eqb ch "n") eqn:E6.
  { apply Ascii.eqb_eq in E6. subst ch.
    apply expect_inv in H. destruct H as [-> E]. unfold js in E.
    cbn [String.list_ascii_of_string app] in E. inj E.
    exists (w ++ js "null").
    split; [norm_app; reflexivity|].
    split; [apply headed_intro; assumption|].
    split; [exact I|].
    intros m r' Hm _. destruct m as [|m]; [lia|]. cbn [parse_value].
    unfold js. cbn [String.list_ascii_of_string]. norm_app.
    rewrite value_at_open by assumption. reflexivity. }
  destruct (span is_numchar (ch :: r0)) as [lit r1] eqn:Es.
  destruct (number_ok lit) eqn:Eok; [|discriminate]. inj H.
  destruct (span_split _ _ _ _ Es) as (El & Hl & _).
  destruct lit as [|c0 t0]; [discriminate|].
  cbn [app] in El. inj El.
  exists (w ++ c0 :: t0).
  split; [norm_app; reflexivity|].
  split; [apply headed_intro; assumption|].
  split; [exact I|].
  intros m r' Hm Hf. destruct m as [|m]; [lia|]. cbn [parse_value].
  norm_app. rewrite value_at_open by assumption.
  unfold value_at. rewrite skip_ws_keep by assumption.
  rewrite E1, E2, E3, E4, E5, E6.
  change (c0 :: t0 ++ r') with ((c0 :: t0) ++ r').
  rewrite span_numchar by assumption. rewrite Eok. reflexivity.
Qed.

Lemma elements_step (n : nat) :
  value_inv n -> elements_inv n -> elements_inv (S n).
Proof.
  intros IHv IHe s vs r H. cbn [parse_elements] in H. unfold elements_at in H.
  destruct (parse_value n s) as [[v r1]|] eqn:Ev; [|discriminate].
  destruct (IHv _ _ _ Ev) as (cv & -> & Hh & _ & Hst).
  destruct (skip_ws r1) as [|ch r2] eqn:Esk; [discriminate|].
  destruct (skip_ws_cases _ _ _ Esk) as (w1 & -> & Hw1 & Hch). clear Esk.
  assert (Hhd : forall X, headed ((cv ++ w1) ++ X)).
  { intros X. destruct Hh as (w0 & c0 & t0 & -> & Hw0 & Hc0).
    norm_app. apply headed_intro; assumption. }
  destruct (Ascii.eqb ch ",") eqn:E1.
  - apply Ascii.eqb_eq in E1. subst ch.
    destruct (parse_elements n r2) as [[vs' r3]|] eqn:Ee; [|discriminate].
    inj H. destruct (IHe _ _ _ Ee) as (ce & -> & _ & Hste).
    exists (cv ++ w1 ++ ","%char :: ce).
    split; [norm_app; reflexivity|].
    split; [rewrite app_assoc; apply Hhd|].
    intros m r' Hm. destruct m as [|m]; [lia|]. cbn [parse_elements].
    unfold elements_at. norm_app.
    rewrite Hst;
      [|lia|destruct v; try exact I; apply follows_ws; [exact Hw1|reflexivity]].
    rewrite skip_ws_app by exact Hw1. rewrite skip_ws_keep by reflexivity.
    change (Ascii.eqb "," ",") with true. cbv iota.
    rewrite Hste by lia. reflexivity.
  - destruct (Ascii.eqb ch "]") eqn:E2; [|discriminate].
    apply Ascii.eqb_eq in E2. subst ch. inj H.
    exists (cv ++ w1 ++ ["]"%char]).
    split; [norm_app; reflexivity|].
    split; [rewrite app_assoc; apply Hhd|].
    intros m r' Hm. destruct m as [|m]; [lia|]. cbn [parse_elements].
    unfold elements_at. norm_app.
    rewrite Hst;
      [|lia|destruct v; try exact I; apply follows_ws; [exact Hw1|reflexivity]].
    rewrite skip_ws_app by exact Hw1. reflexivity.
Qed.

Lemma members_step (n : nat) :
  value_inv n -> members_inv n -> members_inv (S n).
Proof.
  intros IHv IHm s ms r H. cbn [parse_members] in H. unfold members_at in H.
  destruct (skip_ws s) as [|q r0] eqn:Esk; [discriminate|].
  destruct (skip_ws_cases _ _ _ Esk) as (w & -> & Hw & _). clear Esk.
  destruct (Ascii.eqb q dquote) eqn:E0; [|discriminate].
  apply Ascii.eqb_eq in E0. subst q.
  destruct (parse_chars r0) as [[k r1]|] eqn:Ek; [|discriminate].
  destruct (parse_chars_inv _ _ _ Ek) as (ck & -> & Hstk).
  destruct (skip_ws r1) as [|c1 r2] eqn:Esk; [discriminate|].
  destruct (skip_ws_cases _ _ _ Esk) as (w1 & -> & Hw1 & _). clear Esk.
  destruct (Ascii.eqb c1 ":") eqn:E1; [|discriminate].
  apply Ascii.eqb_eq in E1. subst c1.
  destruct (parse_value n r2) as [[v r3]|] eqn:Ev; [|discriminate].
  destruct (IHv _ _ _ Ev) as (cv & -> & _ & _ & Hstv).
  destruct (skip_ws r3) as [|c r4] eqn:Esk; [discriminate|].
  destruct (skip_ws_cases _ _ _ Esk) as (w3 & -> & Hw3 & _). clear Esk.
  assert (Hkey : forall val mem X,
             members_at val mem
               (w ++ dquote :: ck ++ dquote :: w1 ++ ":"%char :: cv ++ X)
             = match val (cv ++ X) with
               | None => None
               | Some (v, r3) =>
                   match skip_ws r3 with
                   | c :: r4 =>
                       if Ascii.eqb c ","
                       then match mem r4 with
                            | Some (ms, r5) => Some ((k, v) :: ms, r5)
                            | None => None
                            end
                       else if Ascii.eqb c "}" then Some ([(k, v)], r4)
                       else None
                   | [] => None
                   end
               end).
  { intros val mem X. unfold members_at. rewrite skip_ws_app by exact Hw.
    rewrite skip_ws_keep by reflexivity.
    change (Ascii.eqb dquote dquote) with true. cbv iota.
    rewrite Hstk. rewrite skip_ws_app by exact Hw1.
    rewrite skip_ws_keep by reflexivity.
    change (Ascii.eqb ":" ":") with true. cbv iota. reflexivity. }
  destruct (Ascii.eqb c ",") eqn:E2.
  - apply Ascii.eqb_eq in E2. subst c.
    destruct (parse_members n r4) as [[ms' r5]|] eqn:Em; [|discriminate].
    inj H. destruct (IHm _ _ _ Em) as (cm & -> & _ & (c0 & Ec0) & Hstm).
    exists (w ++ dquote :: ck ++ dquote :: w1 ++ ":"%char :: cv ++ w3
            ++ ","%char :: cm).
    split; [norm_app; reflexivity|].
    split; [eexists; eexists; split; [reflexivity|exact Hw]|].
    split.
    { exists (w ++ dquote :: ck ++ dquote :: w1 ++ ":"%char :: cv ++ w3
              ++ ","%char :: c0). rewrite Ec0. norm_app. reflexivity. }
    intros m r' Hm. destruct m as [|m]; [lia|]. cbn [parse_members].
    norm_app. rewrite Hkey.
    rewrite Hstv;
      [|lia|destruct v; try exact I; apply follows_ws; [exact Hw3|reflexivity]].
    rewrite skip_ws_app by exact Hw3. rewrite skip_ws_keep by reflexivity.
    change (Ascii.eqb "," ",") with true. cbv iota.
    rewrite Hstm by lia. reflexivity.
  - destruct (Ascii.eqb c "}") eqn:E3; [|discriminate].
    apply Ascii.eqb_eq in E3. subst c. inj H.
    exists (w ++ dquote :: ck ++ dquote :: w1 ++ ":"%char :: cv ++ w3
            ++ ["}"%char]).
    split; [norm_app; reflexivity|].
    split; [eexists; eexists; split; [reflexivity|exact Hw]|].
    split.
    { exists (w ++ dquote :: ck ++ dquote :: w1 ++ ":"%char :: cv ++ w3).
      norm_app. reflexivity. }
    intros m r' Hm. destruct m as [|m]; [lia|]. cbn [parse_members].
    norm_app. rewrite Hkey.
    rewrite Hstv;
      [|lia|destruct v; try exact I; apply follows_ws; [exact Hw3|reflexivity]].
    rewrite skip_ws_app by exact Hw3. reflexivity.
Qed.

Lemma parser_inv (n : nat) : value_inv n /\ elements_inv n /\ members_inv n.
Proof.
  induction n as [|n (IHv & IHe & IHm)].
  - repeat split; intros s x r H; discriminate H.
  - split; [apply value_step; assumption|].
    split; [apply elements_step; assumption|apply members_step; assumption].
Qed.

(** A text that reads as an object begins with a brace, after white
    space, and ends with one, before white space. *)
Lemma parse_object_shape (s : jstring) (ms : list (jstring * json)) :
  parse s = Some (JObj ms) ->
  exists w c1 r, s = w ++ "{"%char :: c1 ++ "}"%char :: r
                 /\ all_ws w /\ all_ws r.
Proof.
  unfold parse. destruct (parse_value (S (length s)) s) as [[v r]|] eqn:E;
    [|discriminate].
  destruct (skip_ws r) eqn:Er; [|discriminate]. intros H. inj H.
  destruct (parser_inv (S (length s))) as (IHv & _).
  destruct (IHv _ _ _ E) as (c & -> & _ & ((ce & Ece) & (w & r0 & Ec & Hw)) & _).
  destruct (skip_ws_split r) as (wr & Ewr & Hwr). rewrite Er, app_nil_r in Ewr.
  subst wr. rewrite Ec in Ece.
  destruct r0 as [|x r0 _] using rev_ind.
  - apply app_inj_tail in Ece. destruct Ece as [_ Ece]. discriminate Ece.
  - rewrite app_comm_cons, app_assoc in Ece.
    apply app_inj_tail in Ece. destruct Ece as [_ ->].
    exists w, r0, r. rewrite Ec. norm_app.
    split; [reflexivity|]. split; [exact Hw|exact Hwr].
Qed.

(** No text that reads as a value is a proper prefix of the text of an
    object (white space after the text apart). *)
Lemma parse_prefix_free (p q : jstring) (ms : list (jstring * json)) :
  parse (p ++ q) = Some (JObj ms) -> ~ all_ws q ->
  hd " "%char p = "{"%char -> parse p = None.
Proof.
  intros Hfull Hq Hp. destruct (parse p) as [j|] eqn:E; [|reflexivity].
  exfalso. unfold parse in E, Hfull.
  destruct (parse_value (S (length p)) p) as [[v r]|] eqn:Ev; [|discriminate].
  destruct (skip_ws r) eqn:Er; [|discriminate]. inj E.
  destruct (parser_inv (S (length p))) as (IHv & _).
  destruct (IHv _ _ _ Ev) as (c & -> & _ & _ & Hst).
  assert (Hj : stable_after j (r ++ q)).
  { destruct j; try exact I. exfalso.
    destruct c as [|x c]; cbn [app hd] in Hp.
    - destruct r as [|x r]; cbn [hd] in Hp; [discriminate|].
      subst x. discriminate Er.
    - subst x. cbn [parse_value] in Ev. unfold value_at in Ev.
      cbn [app] in Ev. rewrite skip_ws_keep in Ev by reflexivity.
      change (Ascii.eqb "{" "{") with true in Ev. cbv iota in Ev.
      destruct (skip_ws (c ++ r)) as [|c' r']; [discriminate|].
      destruct (Ascii.eqb c' "}"); [discriminate|].
      destruct (parse_members _ _) as [[? ?]|]; discriminate. }
  rewrite <- !app_assoc in Hfull.
  specialize (Hst (S (length (c ++ r ++ q))) (r ++ q)
                ltac:(rewrite !length_app; lia) Hj).
  rewrite Hst in Hfull.
  destruct (skip_ws (r ++ q)) eqn:Erq; [|discriminate].
  destruct (skip_ws_split (r ++ q)) as (wr & Ewr & Hwr).
  rewrite Erq, app_nil_r in Ewr. subst wr.
  apply Hq. apply Forall_app in Hwr. apply Hwr.
Qed.
End ParserFacts.

Module LineFacts.
Import StrDefs Str Json JsonDefs StrFacts JsonFacts ParserDefs ParserFacts LineDefs.

Lemma scan_app (st : line_state) (a b : jstring) :
  scan st (a ++ b) =
  match scan st a with Some st' => scan st' b | None => None end.
Proof.
  revert st. induction a as [|c a IH]; intros st; cbn [app scan].
  - reflexivity.
  - destruct (step st c); [apply IH|reflexivity].
Qed.

Lemma scan_snoc (st : line_state) (a : jstring) (c : ascii) :
  ~ In newline (a ++ [c]) ->
  exists st', scan st (a ++ [c]) = Some st' /\ prev st' = Some c
              /\ (seen_brace st = false -> ~ In "{"%char (a ++ [c]) ->
                  seen_brace st' = false).
Proof.
  revert st. induction a as [|x a IH]; intros st Hnl.
  - cbn [app scan]. unfold step.
    destruct (Ascii.eqb_spec c newline) as [->|_].
    + exfalso. apply Hnl. left. reflexivity.
    + eexists. split; [reflexivity|]. split; [reflexivity|].
      intros Hs Hb. cbn. rewrite Hs. cbn.
      destruct (Ascii.eqb_spec c "{") as [->|]; [|reflexivity].
      exfalso. apply Hb. left. reflexivity.
  - cbn [app scan]. unfold step.
    destruct (Ascii.eqb_spec x newline) as [->|_].
    + exfalso. apply Hnl. left. reflexivity.
    + destruct (IH (put st x)) as (st' & E & Hp & Hs).
      { intros H. apply Hnl. right. exact H. }
      exists st'. split; [exact E|]. split; [exact Hp|].
      intros Hs0 Hb. apply Hs.
      * cbn. rewrite Hs0. cbn.
        destruct (Ascii.eqb_spec x "{") as [->|]; [|reflexivity].
        exfalso. apply Hb. left. reflexivity.
      * intros H. apply Hb. right. exact H.
Qed.

Lemma quote_char_one_line (c : ascii) : ~ In newline (quote_char c).
Proof.
  destruct c as [[] [] [] [] [] [] [] []]; cbv;
    intuition discriminate.
Qed.

Lemma quote_one_line (s : jstring) : ~ In newline (quote s).
Proof.
  unfold quote. intros [H|H]; [discriminate|].
  apply in_app_or in H. destruct H as [H|[H|[]]]; [|discriminate].
  apply in_flat_map in H. destruct H as (c & _ & H).
  exact (quote_char_one_line c H).
Qed.

Lemma numchar_ends (c : ascii) :
  is_numchar c = true -> c <> newline /\ ok_end c = true.
Proof.
  destruct c as [[] [] [] [] [] [] [] []]; intros H; try discriminate H;
    (split; [discriminate|reflexivity]).
Qed.

Lemma endable_of_prev (st : line_state) (c : ascii) :
  prev st = Some c -> ok_end c = true -> endable st = true.
Proof. unfold endable. intros -> ->. reflexivity. Qed.

Lemma scan_gap (st : line_state) (l : nat) :
  endable st = true ->
  exists st', scan st (gap2 l) = Some st' /\ seen_brace st' = false.
Proof.
  intros He. unfold gap2. cbn [scan]. unfold step.
  change (Ascii.eqb newline newline) with true. cbv iota.
  assert (Hl : line_end_ok st = true).
  { unfold endable in He. unfold line_end_ok. destruct (prev st); auto. }
  rewrite Hl. generalize (2 * l). intros k.
  assert (G : forall st0, seen_brace st0 = false ->
            exists st', scan st0 (repeat space k) = Some st'
                        /\ seen_brace st' = false).
  { induction k as [|k IH]; intros st0 H0; cbn [repeat scan].
    - eauto.
    - unfold step. change (Ascii.eqb space newline) with false. cbv iota.
      apply IH. cbn. rewrite H0. reflexivity. }
  apply G. reflexivity.
Qed.

Lemma scan_closing (st : line_state) (l : nat) (c : ascii) :
  endable st = true -> c <> newline -> Ascii.eqb c "{" = false ->
  exists st', scan st (gap2 l ++ [c]) = Some st' /\ endable st' = true.
Proof.
  intros He Hc Hb. rewrite scan_app.
  destruct (scan_gap st l He) as (st1 & -> & Hs).
  cbn [scan]. unfold step.
  destruct (Ascii.eqb_spec c newline) as [|_]; [contradiction|].
  eexists. split; [reflexivity|].
  unfold endable, put. cbn. rewrite Hs, Hb. cbn. apply orb_true_r.
Qed.

Lemma scan_separator (st : line_state) (l : nat) :
  exists st', scan st (comma :: gap2 l) = Some st'
              /\ seen_brace st' = false.
Proof.
  cbn [scan]. unfold step at 1.
  change (Ascii.eqb comma newline) with false. cbv iota.
  apply scan_gap. reflexivity.
Qed.

Section Joined.
Variable l : nat.
Variable A : Type.
Variable text : A -> jstring.

Lemma scan_join (xs : list A) :
  xs <> [] ->
  Forall (fun x => forall st, exists st',
            scan st (text x) = Some st' /\ endable st' = true) xs ->
  forall st, exists st',
    scan st (join (comma :: gap2 l) (map text xs)) = Some st'
    /\ endable st' = true.
Proof.
  induction xs as [|x xs IH]; intros Hne Hall st; [congruence|].
  inversion Hall as [|? ? Hx Hxs]; subst.
  destruct xs as [|y ys].
  - cbn [map join]. apply Hx.
  - cbn [map]. rewrite join_cons. rewrite scan_app.
    destruct (Hx st) as (st1 & -> & _). rewrite scan_app.
    destruct (scan_separator st1 l) as (st2 & -> & _).
    apply (IH ltac:(discriminate) Hxs).
Qed.
End Joined.

Lemma plain_scans (v : json) : plain v = true -> scans v.
Proof.
  induction v as [| b | lit | s | vs IH | ms IH] using json_induction;
    intros Hp l st.
  - eexists. split; reflexivity.
  - destruct b; eexists; split; reflexivity.
  - cbn [stringify_gen]. simpl in Hp. apply andb_prop in Hp.
    destruct Hp as [Hok Hnc].
    destruct lit as [|c t _] using rev_ind; [discriminate|].
    assert (Hall : forall x, In x (t ++ [c]) -> is_numchar x = true)
      by (apply forallb_forall; exact Hnc).
    destruct (scan_snoc st t c) as (st' & E & Hprev & _).
    { intros H. apply Hall in H. discriminate H. }
    exists st'. split; [exact E|].
    apply (endable_of_prev _ c Hprev).
    apply numchar_ends. apply Hall. apply in_or_app. right. left. reflexivity.
  - cbn [stringify_gen].
    pose proof (quote_one_line s) as Hq. unfold quote in *.
    rewrite app_comm_cons in *.
    destruct (scan_snoc st _ dquote Hq) as (st' & E & Hprev & _).
    exists st'. split; [exact E|].
    apply (endable_of_prev _ dquote Hprev). reflexivity.
  - destruct vs as [|v vs]; [eexists; split; reflexivity|].
    cbn [stringify_gen]. cbn [scan]. unfold step at 1.
    change (Ascii.eqb "[" newline) with false. cbv iota.
    rewrite scan_app.
    destruct (scan_gap (put st "[") (S l) eq_refl) as (st1 & -> & _).
    rewrite scan_app.
    destruct (scan_join (S l) json (stringify_gen gap2 [space] (S l)) (v :: vs)
                ltac:(discriminate)) with (st := st1) as (st2 & -> & He).
    { assert (Hp' : forallb plain (v :: vs) = true) by exact Hp.
      rewrite Forall_forall in IH. apply Forall_forall.
      intros x Hx. apply IH; [exact Hx|].
      rewrite forallb_forall in Hp'. apply Hp'. exact Hx. }
    apply scan_closing; [exact He|discriminate|reflexivity].
  - destruct ms as [|kv ms]; [discriminate|].
    cbn [stringify_gen]. cbn [scan]. unfold step at 1.
    change (Ascii.eqb "{" newline) with false. cbv iota.
    rewrite scan_app.
    destruct (scan_gap (put st "{") (S l) eq_refl) as (st1 & -> & _).
    rewrite scan_app.
    destruct (scan_join (S l) (jstring * json)
                (fun kv => quote (fst kv) ++ ":"%char :: [space]
                           ++ stringify_gen gap2 [space] (S l) (snd kv))
                (kv :: ms) ltac:(discriminate)) with (st := st1)
      as (st2 & -> & He).
    { assert (Hp' : forallb (fun kv => plain (snd kv)) (kv :: ms) = true)
        by exact Hp.
      rewrite Forall_forall in IH. apply Forall_forall.
      intros [k x] Hx st0. cbn [fst snd].
      change (quote k ++ ":"%char :: [space] ++ stringify_gen gap2 [space] (S l) x)
        with (quote k ++ [":"%char; space] ++ stringify_gen gap2 [space] (S l) x).
      rewrite app_assoc, scan_app.
      destruct (scan_snoc st0 (quote k ++ [":"%char]) space) as (st3 & E3 & _).
      { rewrite <- app_assoc. intros H. apply in_app_or in H.
        destruct H as [H|[H|[H|[]]]]; try discriminate H.
        exact (quote_one_line k H). }
      rewrite <- app_assoc in E3. cbn [app] in E3. rewrite E3.
      apply (IH (k, x) Hx).
      rewrite forallb_forall in Hp'. apply (Hp' (k, x) Hx). }
    apply scan_closing; [exact He|discriminate|reflexivity].
Qed.

Lemma scan_seen_mono (b : jstring) :
  forall s s', scan s b = Some s' -> ~ In newline b ->
               seen_brace s = true -> seen_brace s' = true.
Proof.
  induction b as [|z b IHb]; intros s s' Eb Hnb Hs0; cbn [scan] in Eb.
  - inj Eb. exact Hs0.
  - unfold step in Eb.
    destruct (Ascii.eqb_spec z newline) as [->|_];
      [exfalso; apply Hnb; left; reflexivity|].
    apply (IHb _ _ Eb); [intros H; apply Hnb; right; exact H|].
    cbn. rewrite Hs0. reflexivity.
Qed.

Lemma scan_no_brace (a : jstring) :
  forall st st', scan st a = Some st' -> ~ In newline a ->
                 seen_brace st' = false -> ~ In "{"%char a.
Proof.
  induction a as [|y a IHa]; intros st st' Ea Hna Hs; [intros []|].
  cbn [scan] in Ea. unfold step in Ea.
  destruct (Ascii.eqb_spec y newline) as [->|_];
    [exfalso; apply Hna; left; reflexivity|].
  assert (Hna' : ~ In newline a) by (intros H; apply Hna; right; exact H).
  intros [->|Hin].
  - rewrite (scan_seen_mono _ _ _ Ea Hna') in Hs; [discriminate|].
    cbn. apply orb_true_r.
  - exact (IHa _ _ Ea Hna' Hs Hin).
Qed.

(** A line whose scan ends well is junk, whatever the state it is scanned
    from. *)
Lemma advance_junk (st : line_state) (x : jstring) (st' : line_state) :
  ~ In newline x -> scan st x = Some st' -> line_end_ok st' = true -> junk x.
Proof.
  intros Hnl E Hok. destruct x as [|c x _] using rev_ind; [left; reflexivity|].
  right. destruct (scan_snoc st x c Hnl) as (st1 & E1 & Hp & _).
  rewrite E in E1. injection E1 as <-. rewrite last_last.
  unfold line_end_ok in Hok. rewrite Hp in Hok.
  destruct (ok_end c); [left; reflexivity|right].
  cbn in Hok. apply (scan_no_brace _ _ _ E Hnl).
  destruct (seen_brace st'); [discriminate|reflexivity].
Qed.

Lemma first_line_one_line (t : jstring) : ~ In newline (first_line t).
Proof.
  unfold first_line. induction t as [|c t IH]; cbn [split_lines hd].
  - intros [].
  - destruct (Ascii.eqb_spec c newline) as [->|Hc]; [intros []|].
    pose proof (split_lines_nonnil t) as Hn.
    destruct (split_lines t) as [|x xs]; [congruence|].
    cbn [hd] in *. intros [H|H]; [congruence|exact (IH H)].
Qed.

(** The lines of a text whose scan goes through and ends well: the first
    continues the line the scan started in, the others are junk. *)
Lemma scan_lines (t : jstring) :
  forall st st', scan st t = Some st' -> line_end_ok st' = true ->
  (exists st1, scan st (first_line t) = Some st1 /\ line_end_ok st1 = true)
  /\ Forall junk (tl (split_lines t)).
Proof.
  unfold first_line.
  induction t as [|c t IH]; intros st st' E Hok; cbn [split_lines hd tl].
  - split; [exists st'; split; assumption|constructor].
  - cbn [scan] in E. unfold step in E.
    destruct (Ascii.eqb_spec c newline) as [->|Hc].
    + destruct (line_end_ok st) eqn:Hst; [|discriminate].
      cbn [hd tl]. split; [exists st; split; [reflexivity|exact Hst]|].
      destruct (IH _ _ E Hok) as ((st1 & E1 & H1) & Hrest).
      pose proof (split_lines_nonnil t) as Hn.
      destruct (split_lines t) as [|x xs] eqn:Es; [congruence|].
      cbn [hd tl] in *. constructor; [|exact Hrest].
      apply (advance_junk fresh x st1); [|exact E1|exact H1].
      pose proof (first_line_one_line t) as Hf. unfold first_line in Hf.
      rewrite Es in Hf. exact Hf.
    + destruct (IH _ _ E Hok) as ((st1 & E1 & H1) & Hrest).
      pose proof (split_lines_nonnil t) as Hn.
      destruct (split_lines t) as [|x xs] eqn:Es; [congruence|].
      cbn [hd tl] in *. split; [|exact Hrest].
      exists st1. split; [|exact H1]. cbn [scan]. unfold step.
      destruct (Ascii.eqb_spec c newline); [contradiction|exact E1].
Qed.

Lemma scan_suffix (pre t : jstring) :
  forall st st', scan st (pre ++ t) = Some st' ->
  exists st0, scan st0 t = Some st'.
Proof.
  induction pre as [|c pre IH]; intros st st' E; cbn [app scan] in E.
  - eauto.
  - destruct (step st c) as [st1|]; [|discriminate]. exact (IH _ _ E).
Qed.

(** Every line of every suffix of a checked text is junk. *)
Lemma checked_suffix_lines (pre t : jstring) (st st' : line_state) :
  scan st (pre ++ t) = Some st' -> line_end_ok st' = true ->
  Forall junk (split_lines t).
Proof.
  intros E Hok. destruct (scan_suffix _ _ _ _ E) as (st0 & E0).
  destruct (scan_lines t st0 st' E0 Hok) as ((st1 & E1 & H1) & Hrest).
  pose proof (split_lines_nonnil t) as Hn.
  pose proof (first_line_one_line t) as Hf. unfold first_line in *.
  destruct (split_lines t) as [|x xs]; [congruence|]. cbn [hd tl] in *.
  constructor; [|exact Hrest]. exact (advance_junk st0 x st1 Hf E1 H1).
Qed.

Lemma last_app_cons {A} (w : list A) (c : A) (t : list A) (d : A) :
  last (w ++ c :: t) d = last (c :: t) d.
Proof.
  induction w as [|a w IH]; [reflexivity|].
  cbn [app]. destruct (w ++ c :: t) eqn:E.
  - destruct w; discriminate E.
  - rewrite <- IH. reflexivity.
Qed.

Lemma junk_not_object (x : jstring) (ms : list (jstring * json)) :
  junk x -> parse x <> Some (JObj ms).
Proof.
  intros Hj E. destruct (parse_object_shape x ms E)
    as (w & c1 & r & -> & Hw & Hr).
  destruct Hj as [Hj|[Hj|Hj]].
  - destruct w; discriminate Hj.
  - rewrite app_comm_cons, app_assoc, last_app_cons in Hj.
    destruct r as [|z r _] using rev_ind.
    + discriminate Hj.
    + rewrite app_comm_cons, last_last in Hj.
      apply Forall_app in Hr. destruct Hr as [_ Hz].
      inversion Hz as [|? ? Hz' _]; subst. unfold ok_end in Hj.
      rewrite Hz' in Hj. discriminate Hj.
  - apply Hj. apply in_or_app. right. left. reflexivity.
Qed.
End LineFacts.

Module CodecFacts.
Import StrDefs Str Json JsonDefs StrFacts JsonFacts ParserDefs ParserFacts LineDefs LineFacts.
Import CodecDefs.
Import GraphTypes IndexStructures Runtime StorageManager.

(** *** Counters *)

Lemma uint_chars_digits (d : Decimal.uint) :
  forallb is_digit (uint_chars d) = true.
Proof. induction d; cbn [uint_chars forallb]; try rewrite IHd; reflexivity. Qed.

Lemma digit_numchar (c : ascii) : is_digit c = true -> is_numchar c = true.
Proof. unfold is_numchar. intros ->. reflexivity. Qed.

Lemma uint_chars_numchars (d : Decimal.uint) :
  forallb is_numchar (uint_chars d) = true.
Proof.
  apply forallb_forall. intros c Hc. apply digit_numchar.
  pose proof (uint_chars_digits d) as H. rewrite forallb_forall in H. auto.
Qed.

Lemma span_all (p : ascii -> bool) (s : jstring) :
  forallb p s = true -> span p s = (s, []).
Proof.
  induction s as [|c s IH]; cbn [forallb span]; [reflexivity|].
  intros H. apply andb_prop in H. destruct H as [-> H]. rewrite (IH H).
  reflexivity.
Qed.

Lemma nzhead_not_D0 (d u : Decimal.uint) : Decimal.nzhead d <> Decimal.D0 u.
Proof. induction d; cbn [Decimal.nzhead]; try discriminate. exact IHd. Qed.

Lemma number_ok_unorm (d : Decimal.uint) :
  number_ok (uint_chars (Decimal.unorm d)) = true.
Proof.
  unfold Decimal.unorm. pose proof (nzhead_not_D0 d) as Hn.
  destruct (Decimal.nzhead d) as [|u|u|u|u|u|u|u|u|u|u]; try reflexivity;
    try (exfalso; exact (Hn u eq_refl));
    cbn [uint_chars number_ok int_ok];
    (change (Ascii.eqb _ "-") with false; change (Ascii.eqb _ "0") with false;
     change (in_range 49 57 _) with true; cbv iota;
     rewrite (span_all _ _ (uint_chars_digits u)); reflexivity).
Qed.

Lemma to_uint_unorm (n : nat) : Nat.to_uint n = Decimal.unorm (Nat.to_uint n).
Proof.
  rewrite <- DecimalNat.Unsigned.to_of.
  rewrite DecimalNat.Unsigned.of_to. reflexivity.
Qed.

Lemma chars_uint_chars (d : Decimal.uint) : chars_uint (uint_chars d) = Some d.
Proof.
  induction d; cbn [uint_chars chars_uint]; try reflexivity;
    (match goal with |- context [is_digit ?c] =>
       change (is_digit c) with true end; cbv iota; rewrite IHd; reflexivity).
Qed.

Lemma plain_of_nat (n : nat) : plain (Json.of_nat n) = true.
Proof.
  unfold Json.of_nat. cbn [plain]. rewrite uint_chars_numchars, andb_true_r.
  rewrite to_uint_unorm. apply number_ok_unorm.
Qed.

Lemma to_nat_of_nat (n : nat) : Json.to_nat (Json.of_nat n) = Some n.
Proof.
  unfold Json.to_nat, Json.of_nat.
  pose proof (plain_of_nat n) as H. unfold Json.of_nat in H. cbn [plain] in H.
  apply andb_prop in H. destruct H as [-> _].
  rewrite chars_uint_chars. cbn [option_map].
  rewrite DecimalNat.Unsigned.of_to. reflexivity.
Qed.

Lemma plain_wf (v : json) : plain v = true -> wf v = true.
Proof.
  induction v as [| b | lit | s | vs IH | ms IH] using json_induction;
    intros H; try reflexivity.
  - exact H.
  - cbn [wf]. assert (H' : forallb plain vs = true) by exact H.
    apply forallb_forall. intros x Hx. rewrite Forall_forall in IH.
    apply IH; [exact Hx|]. rewrite forallb_forall in H'. auto.
  - destruct ms as [|kv ms]; [discriminate|].
    assert (H' : forallb (fun kv => plain (snd kv)) (kv :: ms) = true) by exact H.
    cbn [wf]. apply forallb_forall. intros x Hx. rewrite Forall_forall in IH.
    apply IH; [exact Hx|]. rewrite forallb_forall in H'. auto.
Qed.

Lemma forallb_map {A B} (f : A -> B) (p : B -> bool) (xs : list A) :
  (forall x, p (f x) = true) -> forallb p (map f xs) = true.
Proof.
  intros H. induction xs as [|x xs IH]; [reflexivity|].
  cbn [map forallb]. rewrite H, IH. reflexivity.
Qed.

(** *** The records and the index are plain values *)

Lemma plain_entity (e : Entity) : plain (entity_json e) = true.
Proof.
  unfold entity_json. cbn [plain forallb snd].
  rewrite forallb_map by reflexivity. reflexivity.
Qed.

Lemma plain_relation (r : Relation) : plain (relation_json r) = true.
Proof. reflexivity. Qed.

Lemma plain_edge k1 k2 (x : jstring * jstring) : plain (edge_json k1 k2 x) = true.
Proof. reflexivity. Qed.

Lemma plain_entityIndex (e : EntityIndex) : plain (entityIndex_json e) = true.
Proof.
  unfold entityIndex_json. cbn [plain forallb snd].
  rewrite !plain_of_nat. rewrite !forallb_map by (intros; apply plain_edge).
  reflexivity.
Qed.

Lemma plain_index (i : IndexStructure) : plain (serializableIndex i) = true.
Proof.
  unfold serializableIndex, metadata_json. cbn [plain forallb snd].
  rewrite !plain_of_nat. cbn [andb].
  rewrite !forallb_map; try reflexivity.
  - intros kv. cbn [plain forallb]. rewrite forallb_map; [reflexivity|].
    intros; apply plain_edge.
  - intros kv. cbn [plain forallb].
    rewrite forallb_map by reflexivity. reflexivity.
  - intros kv. cbn [plain forallb]. rewrite plain_entityIndex. reflexivity.
Qed.

(** *** The lines of the data section *)

Lemma as_strings_map (os : list jstring) : as_strings (map JStr os) = Some os.
Proof.
  induction os as [|o os IH]; [reflexivity|].
  cbn [map as_strings]. rewrite IH. reflexivity.
Qed.

Lemma parse_line_entity (e : Entity) :
  parse_line (Json.stringify (entity_json e)) = IsEntity e.
Proof.
  unfold parse_line.
  rewrite parse_stringify by (apply plain_wf, plain_entity).
  unfold entity_json. 
  change (get (js "type") _) with (Some (JStr (js "entity"))).
  change (Str.eqb (js "entity") (js "entity")) with true. cbv iota.
  unfold as_Entity.
  match goal with |- context [get (js "name") ?m] =>
    change (get (js "name") m) with (Some (JStr (GraphTypes.name e)));
    change (get (js "entityType") m)
      with (Some (JStr (GraphTypes.entityType e)));
    change (get (js "observations") m)
      with (Some (JArr (map JStr (observations e))))
  end.
  cbn [as_string as_string_array]. rewrite as_strings_map.
  destruct e; reflexivity.
Qed.

Lemma parse_line_relation (r : Relation) :
  parse_line (Json.stringify (relation_json r)) = IsRelation r.
Proof.
  unfold parse_line.
  rewrite parse_stringify by (apply plain_wf, plain_relation).
  unfold relation_json.
  change (get (js "type") _) with (Some (JStr (js "relation"))).
  change (Str.eqb (js "relation") (js "entity")) with false.
  change (Str.eqb (js "relation") (js "relation")) with true. cbv iota.
  unfold as_Relation.
  match goal with |- context [get (js "from") ?m] =>
    change (get (js "from") m) with (Some (JStr (from r)));
    change (get (js "to") m) with (Some (JStr (to r)));
    change (get (js "relationType") m) with (Some (JStr (relationType r)))
  end.
  cbn [as_string]. destruct r; reflexivity.
Qed.

Lemma in_join (sep : jstring) (xs : list jstring) (c : ascii) :
  In c (join sep xs) -> In c sep \/ exists x, In x xs /\ In c x.
Proof.
  induction xs as [|x xs IH]; [intros []|].
  destruct xs as [|y ys].
  - cbn [join]. intros H. right. exists x. split; [left; reflexivity|exact H].
  - rewrite join_cons. intros H. apply in_app_or in H. destruct H as [H|H].
    + right. exists x. split; [left; reflexivity|exact H].
    + apply in_app_or in H. destruct H as [H|H]; [left; exact H|].
      destruct (IH H) as [H'|(z & Hz & Hc)]; [left; exact H'|].
      right. exists z. split; [right; exact Hz|exact Hc].
Qed.

(** The compact text of a plain value has no line break. *)
Lemma stringify_one_line (v : json) :
  plain v = true ->
  forall l, one_line (stringify_gen (fun _ => []) [] l v).
Proof.
  unfold one_line.
  induction v as [| b | lit | s | vs IH | ms IH] using json_induction;
    intros Hp l.
  - cbv. intuition discriminate.
  - destruct b; cbv; intuition discriminate.
  - cbn [stringify_gen]. cbn [plain] in Hp. apply andb_prop in Hp.
    destruct Hp as [_ Hn]. rewrite forallb_forall in Hn.
    intros H. apply Hn in H. discriminate H.
  - apply quote_one_line.
  - destruct vs as [|v vs]; [cbv; intuition discriminate|].
    cbn [stringify_gen app]. intros [H|H]; [discriminate|].
    apply in_app_or in H. destruct H as [H|[H|[]]]; [|discriminate].
    apply in_join in H. destruct H as [[H|[]]|(x & Hx & Hc)]; [discriminate|].
    apply in_map_iff in Hx. destruct Hx as (y & <- & Hy).
    rewrite Forall_forall in IH.
    assert (Hp' : forallb plain (v :: vs) = true) by exact Hp.
    rewrite forallb_forall in Hp'. exact (IH y Hy (Hp' y Hy) (S l) Hc).
  - destruct ms as [|kv ms]; [discriminate|].
    cbn [stringify_gen app]. intros [H|H]; [discriminate|].
    apply in_app_or in H. destruct H as [H|[H|[]]]; [|discriminate].
    apply in_join in H. destruct H as [[H|[]]|(x & Hx & Hc)]; [discriminate|].
    apply in_map_iff in Hx. destruct Hx as ([k y] & <- & Hy). cbn [fst snd] in Hc.
    apply in_app_or in Hc. destruct Hc as [Hc|[Hc|Hc]];
      [exact (quote_one_line k Hc)|discriminate|].
    rewrite Forall_forall in IH.
    assert (Hp' : forallb (fun kv => plain (snd kv)) (kv :: ms) = true)
      by exact Hp.
    rewrite forallb_forall in Hp'.
    exact (IH (k, y) Hy (Hp' (k, y) Hy) (S l) Hc).
Qed.

Lemma stringify_object_braces (kv : jstring * json) ms :
  braces (Json.stringify (JObj (kv :: ms))).
Proof.
  unfold Json.stringify. cbn [stringify_gen app]. eexists. reflexivity.
Qed.

Lemma dataLines_are_data_lines (g : KnowledgeGraph) :
  Forall is_data_line (dataLines g).
Proof.
  unfold dataLines. apply Forall_app. split; apply Forall_forall;
    intros x Hx; apply in_map_iff in Hx; destruct Hx as (y & <- & _);
    (split; [|apply stringify_object_braces]).
  - apply stringify_one_line. apply plain_entity.
  - apply stringify_one_line. apply plain_relation.
Qed.

Lemma nonblank_braces (x : jstring) : braces x -> nonblank x = true.
Proof.
  intros (t & ->). unfold nonblank.
  rewrite app_comm_cons, trim_ends_keep by reflexivity.
  cbn [app]. rewrite trimStart_keep by reflexivity. reflexivity.
Qed.

Lemma push_entity_line (g : KnowledgeGraph) (e : Entity) :
  push_record (Some g) (Json.stringify (entity_json e))
  = Some {| entities := entities g ++ [e]; relations := relations g |}.
Proof. unfold push_record. rewrite parse_line_entity. reflexivity. Qed.

Lemma push_relation_line (g : KnowledgeGraph) (r : Relation) :
  push_record (Some g) (Json.stringify (relation_json r))
  = Some {| entities := entities g; relations := relations g ++ [r] |}.
Proof. unfold push_record. rewrite parse_line_relation. reflexivity. Qed.

Lemma fold_left_cons {A B} (f : A -> B -> A) (x : B) (xs : list B) (a : A) :
  fold_left f (x :: xs) a = fold_left f xs (f a x).
Proof. reflexivity. Qed.

Lemma fold_left_nil {A B} (f : A -> B -> A) (a : A) : fold_left f [] a = a.
Proof. reflexivity. Qed.

Lemma fold_push_entities (es : list Entity) (g : KnowledgeGraph) :
  fold_left push_record (map (fun e => Json.stringify (entity_json e)) es)
    (Some g)
  = Some {| entities := entities g ++ es; relations := relations g |}.
Proof.
  revert g. induction es as [|e es IH]; intros g.
  - rewrite app_nil_r. destruct g; reflexivity.
  - rewrite map_cons, fold_left_cons, push_entity_line, IH.
    cbn [entities relations]. rewrite <- app_assoc. reflexivity.
Qed.

Lemma fold_push_relations (rs : list Relation) (g : KnowledgeGraph) :
  fold_left push_record (map (fun r => Json.stringify (relation_json r)) rs)
    (Some g)
  = Some {| entities := entities g; relations := relations g ++ rs |}.
Proof.
  revert g. induction rs as [|r rs IH]; intros g.
  - rewrite app_nil_r. destruct g; reflexivity.
  - rewrite map_cons, fold_left_cons, push_relation_line, IH.
    cbn [entities relations]. rewrite <- app_assoc. reflexivity.
Qed.

Lemma fold_push_dataLines (g : KnowledgeGraph) :
  fold_left push_record (dataLines g) (Some emptyGraph) = Some g.
Proof.
  unfold dataLines. rewrite fold_left_app, fold_push_entities.
  rewrite fold_push_relations. destruct g; reflexivity.
Qed.
End CodecFacts.

Module FileFacts.
Import StrDefs Str Json JsonDefs StrFacts JsonFacts ParserDefs ParserFacts LineDefs LineFacts.
Import CodecDefs GraphTypes IndexStructures Runtime StorageManager CodecFacts FileDefs.

Lemma fileContent_eq (i : IndexStructure) (g : KnowledgeGraph) :
  fileContent i g =
  INDEX_MARKER_START ++ newline :: payload i ++ newline :: INDEX_MARKER_END
    ++ newline :: DATA_MARKER_START ++ data_text g.
Proof.
  unfold fileContent, data_text, payload.
  destruct (dataLines g) as [|l ls].
  - rewrite app_nil_r. cbn [app]. rewrite !join_cons. cbn [join].
    norm_app. rewrite app_nil_r. reflexivity.
  - cbn [app]. rewrite !join_cons. norm_app. reflexivity.
Qed.

Lemma junk_inert (x : jstring) : junk x -> parse_line x = Skipped.
Proof.
  intros H. unfold parse_line.
  destruct (Json.parse x) as [[| | | | |ms]|] eqn:E; try reflexivity.
  exfalso. exact (junk_not_object x ms H E).
Qed.

Lemma fold_push_none (ls : list jstring) : fold_left push_record ls None = None.
Proof. induction ls as [|l ls IH]; [reflexivity|exact IH]. Qed.

Lemma fold_junk (ls : list jstring) (acc : option KnowledgeGraph) :
  Forall junk ls -> fold_left push_record (filter nonblank ls) acc = acc.
Proof.
  intros H. revert acc. induction H as [|l ls Hl _ IH]; intros acc.
  - reflexivity.
  - cbn [filter]. destruct (nonblank l); [|apply IH].
    rewrite fold_left_cons. 
    assert (E : push_record acc l = acc).
    { unfold push_record. destruct acc; [|reflexivity].
      rewrite (junk_inert l Hl). reflexivity. }
    rewrite E. apply IH.
Qed.

Lemma filter_data_lines (ls : list jstring) :
  Forall is_data_line ls -> filter nonblank ls = ls.
Proof.
  induction 1 as [|l ls [_ Hl] _ IH]; [reflexivity|].
  cbn [filter]. rewrite (nonblank_braces l Hl), IH. reflexivity.
Qed.

Lemma trimStart_app (a b : jstring) :
  trimStart (a ++ b) =
  match trimStart a with
  | [] => trimStart b
  | _ => trimStart a ++ b
  end.
Proof.
  induction a as [|c a IH]; [reflexivity|].
  cbn [app trimStart]. destruct (is_space c); [exact IH|reflexivity].
Qed.

Lemma junk_text_nil : junk_text [].
Proof.
  intros pre t E. symmetry in E. apply app_eq_nil in E. destruct E as [_ ->].
  constructor; [left; reflexivity|constructor].
Qed.

Lemma junk_text_suffix (a b : jstring) : junk_text (a ++ b) -> junk_text b.
Proof.
  intros H pre t E. apply (H (a ++ pre) t). rewrite E, app_assoc. reflexivity.
Qed.

Lemma in_split_lines (t l : jstring) (c : ascii) :
  In l (split_lines t) -> In c l -> In c t.
Proof.
  revert l. induction t as [|x t IH]; intros l Hl Hc; cbn [split_lines] in Hl.
  - destruct Hl as [<-|[]]. exact Hc.
  - destruct (Ascii.eqb x newline).
    + destruct Hl as [<-|Hl]; [destruct Hc|]. right. exact (IH l Hl Hc).
    + pose proof (split_lines_nonnil t) as Hn.
      destruct (split_lines t) as [|l0 ls]; [congruence|].
      destruct Hl as [<-|Hl].
      * destruct Hc as [<-|Hc]; [left; reflexivity|].
        right. apply (IH l0); [left; reflexivity|exact Hc].
      * right. apply (IH l); [right; exact Hl|exact Hc].
Qed.

Lemma brace_free_junk_text (b : jstring) : ~ In "{"%char b -> junk_text b.
Proof.
  intros Hb pre t E. apply Forall_forall. intros l Hl. right. right.
  intros Hc. apply Hb. rewrite E. apply in_or_app. right.
  exact (in_split_lines t l _ Hl Hc).
Qed.

Lemma junk_text_line (a b : jstring) :
  junk_text a -> ~ In "{"%char b -> junk_text (a ++ newline :: b).
Proof.
  intros Ha Hb pre t E. apply app_eq_app in E. destruct E as (l & [[E1 E2]|[E1 E2]]).
  - subst t. rewrite split_lines_app. apply Forall_app. split.
    + apply (Ha pre l). exact E1.
    + apply (brace_free_junk_text b Hb [] b). reflexivity.
  - destruct l as [|c l].
    + cbn [app] in E2. subst t. rewrite app_nil_r in E1. subst pre.
      change (newline :: b) with ([] ++ newline :: b).
      rewrite split_lines_app. apply Forall_app. split.
      * constructor; [left; reflexivity|constructor].
      * apply (brace_free_junk_text b Hb [] b). reflexivity.
    + cbn [app] in E2. injection E2 as _ E2.
      apply (brace_free_junk_text b Hb l t). exact E2.
Qed.

Lemma payload_junk_text (i : IndexStructure) : junk_text (payload i).
Proof.
  intros pre t E. unfold payload, stringify_indent2 in E.
  destruct (plain_scans _ (plain_index i) 0 fresh) as (st' & Es & He).
  rewrite E in Es. apply (checked_suffix_lines pre t fresh st' Es).
  unfold endable in He. unfold line_end_ok. destruct (prev st'); auto.
Qed.

Lemma join_last_brace (ls : list jstring) :
  ls <> [] -> Forall is_data_line ls ->
  exists j, join [newline] ls = j ++ ["}"%char].
Proof.
  induction ls as [|l ls IH]; intros Hne Hall; [congruence|].
  inversion Hall as [|? ? [_ (t & Ht)] Hls]; subst.
  destruct ls as [|l' ls].
  - cbn [join]. exists ("{"%char :: t). reflexivity.
  - rewrite join_cons. destruct (IH ltac:(discriminate) Hls) as (j & ->).
    eexists. rewrite !app_assoc. reflexivity.
Qed.

Lemma join_first_brace (ls : list jstring) :
  ls <> [] -> Forall is_data_line ls ->
  exists t, join [newline] ls = "{"%char :: t.
Proof.
  intros Hne Hall. destruct ls as [|l ls]; [congruence|].
  inversion Hall as [|? ? [_ (t & Ht)] _]; subst.
  eapply join_head. reflexivity.
Qed.

Lemma dataLines_nil (g : KnowledgeGraph) : dataLines g = [] -> g = emptyGraph.
Proof.
  unfold dataLines. intros H. apply app_eq_nil in H. destruct H as [H1 H2].
  apply map_eq_nil in H1, H2. destruct g; cbn in *; subst. reflexivity.
Qed.

(** The records after a junk text are read back as the graph. *)
Lemma parse_after_junk (x : jstring) (g : KnowledgeGraph) :
  junk_text x ->
  x = [] \/ (exists x0 c, x = x0 ++ [c] /\ is_space c = false) ->
  parseLegacyFormat (trim (x ++ data_text g)) = Some g.
Proof.
  intros Hx Hend. unfold parseLegacyFormat, data_text.
  pose proof (dataLines_are_data_lines g) as Hd.
  pose proof (fold_push_dataLines g) as Hg.
  destruct (trimStart_suffix x) as (sp & Esp & _).
  assert (Hjs : Forall junk (split_lines (trimStart x)))
    by (apply (Hx sp); exact Esp).
  destruct (dataLines g) as [|l ls] eqn:Ed.
  - rewrite (dataLines_nil g Ed). rewrite app_nil_r.
    destruct Hend as [->|(x0 & c & -> & Hc)]; [reflexivity|].
    rewrite trim_ends_keep by exact Hc. apply fold_junk. exact Hjs.
  - destruct (join_last_brace (l :: ls) ltac:(discriminate) Hd) as (j & Ej).
    destruct (join_first_brace (l :: ls) ltac:(discriminate) Hd) as (t & Et).
    assert (E : trim (x ++ newline :: join [newline] (l :: ls))
                = trimStart (x ++ newline :: join [newline] (l :: ls))).
    { rewrite Ej.
      change (x ++ newline :: j ++ ["}"%char])
        with (x ++ (newline :: j) ++ ["}"%char]).
      rewrite app_assoc. apply trim_ends_keep. reflexivity. }
    rewrite E. rewrite trimStart_app.
    assert (Hlines : split_lines (join [newline] (l :: ls)) = l :: ls).
    { apply split_lines_join; [discriminate|].
      apply Forall_forall. intros y Hy. rewrite Forall_forall in Hd.
      apply Hd. exact Hy. }
    destruct (trimStart x) as [|c x'] eqn:Ex.
    + cbn [trimStart]. change (is_space newline) with true. cbv iota.
      rewrite Et. rewrite trimStart_keep by reflexivity. rewrite <- Et.
      rewrite Hlines, (filter_data_lines _ Hd). exact Hg.
    + rewrite split_lines_app, filter_app, fold_left_app.
      rewrite (fold_junk _ _ Hjs). rewrite Hlines, (filter_data_lines _ Hd).
      exact Hg.
Qed.
End FileFacts.

Module MarkerFacts.
Import StrDefs Str Json JsonDefs StrFacts JsonFacts ParserDefs ParserFacts LineDefs LineFacts.
Import CodecDefs GraphTypes IndexStructures Runtime StorageManager CodecFacts FileDefs FileFacts.

Lemma skipn_app_length {A} (a b : list A) (n : nat) :
  skipn (length a + n) (a ++ b) = skipn n b.
Proof. induction a as [|x a IH]; [reflexivity|exact IH]. Qed.

Lemma one_line_data_marker : one_line DATA_MARKER_START.
Proof. cbv. intuition discriminate. Qed.

Lemma one_line_end_marker : one_line INDEX_MARKER_END.
Proof. cbv. intuition discriminate. Qed.

Lemma substringFrom_nat (s : jstring) (a b : nat) :
  substringFrom s (Z.of_nat a + Z.of_nat b) = skipn (a + b) s.
Proof. unfold substringFrom. f_equal. lia. Qed.

Lemma indexOf_find (s m : jstring) (k : nat) :
  find m s = Some k -> indexOf s m = Z.of_nat k /\ includes s m = true.
Proof. unfold indexOf, includes. intros ->. split; reflexivity. Qed.

(** Where the data marker is first found in a saved file, and what
    follows it: a junk text, then the records. *)
Lemma find_data_marker (i : IndexStructure) (g : KnowledgeGraph) :
  exists k x,
    find DATA_MARKER_START (fileContent i g) = Some k
    /\ skipn (k + length DATA_MARKER_START) (fileContent i g)
       = x ++ data_text g
    /\ junk_text x
    /\ (x = [] \/ exists x0 c, x = x0 ++ [c] /\ is_space c = false).
Proof.
  rewrite fileContent_eq.
  rewrite find_line by (exact one_line_data_marker || discriminate).
  change (find DATA_MARKER_START INDEX_MARKER_START) with (@None nat).
  cbv iota.
  rewrite find_line by (exact one_line_data_marker || discriminate).
  destruct (find DATA_MARKER_START (payload i)) as [j|] eqn:Ej.
  - cbn [option_map].
    destruct (find_Some _ _ _ Ej) as (pre & Ep & Hpre).
    set (X := skipn (j + length DATA_MARKER_START) (payload i)) in *.
    exists (length INDEX_MARKER_START + 1 + j),
      (X ++ newline :: INDEX_MARKER_END ++ newline :: DATA_MARKER_START).
    split; [reflexivity|]. split; [|split].
    + rewrite Ep. subst j.
      change (INDEX_MARKER_START ++ newline :: ?r)
        with ((INDEX_MARKER_START ++ [newline]) ++ r).
      replace (length INDEX_MARKER_START + 1 + length pre
               + length DATA_MARKER_START)
        with (length (INDEX_MARKER_START ++ [newline])
              + (length pre + length DATA_MARKER_START))
        by (rewrite length_app; cbn [length]; lia).
      rewrite skipn_app_length. rewrite <- !app_assoc.
      rewrite skipn_app_length.
      change (skipn (length DATA_MARKER_START) (DATA_MARKER_START ++ ?r))
        with r.
      norm_app. reflexivity.
    + apply junk_text_line.
      * apply (junk_text_suffix (pre ++ DATA_MARKER_START)).
        rewrite <- app_assoc, <- Ep. apply payload_junk_text.
      * cbv. intuition discriminate.
    + right.
      exists (X ++ removelast (newline :: INDEX_MARKER_END ++ newline
                               :: DATA_MARKER_START)), "="%char.
      split; [|reflexivity]. rewrite <- app_assoc. f_equal.
  - rewrite find_line by (exact one_line_data_marker || discriminate).
    change (find DATA_MARKER_START INDEX_MARKER_END) with (@None nat).
    cbv iota. rewrite find_head. cbn [option_map].
    eexists _, []. split; [reflexivity|]. split; [|split].
    + change (INDEX_MARKER_START ++ newline :: payload i ++ newline
              :: INDEX_MARKER_END ++ newline :: DATA_MARKER_START ++ data_text g)
        with ((INDEX_MARKER_START ++ [newline]) ++ payload i
              ++ ([newline] ++ INDEX_MARKER_END ++ [newline]
                  ++ DATA_MARKER_START) ++ data_text g).
      match goal with |- skipn ?n _ = _ =>
        replace n with (length (INDEX_MARKER_START ++ [newline])
                        + (length (payload i)
                           + (length ([newline] ++ INDEX_MARKER_END
                                      ++ [newline] ++ DATA_MARKER_START) + 0)))
          by (rewrite !length_app; cbn [length]; lia)
      end.
      rewrite !skipn_app_length. reflexivity.
    + apply junk_text_nil.
    + left. reflexivity.
Qed.

(** The data section of a saved file reads back as the graph saved. *)
Lemma graph_of_fileContent (i : IndexStructure) (g : KnowledgeGraph) :
  graph_of_file (fileContent i g) = Some g.
Proof.
  destruct (find_data_marker i g) as (k & x & Ek & Es & Hx & Hend).
  unfold graph_of_file. destruct (indexOf_find _ _ _ Ek) as [-> _].
  destruct (Z.eqb_spec (Z.of_nat k) (-1)) as [H|_]; [lia|].
  rewrite substringFrom_nat, Es. apply parse_after_junk; assumption.
Qed.

Lemma includes_data_marker (i : IndexStructure) (g : KnowledgeGraph) :
  includes (fileContent i g) DATA_MARKER_START = true.
Proof.
  destruct (find_data_marker i g) as (k & x & Ek & _).
  apply (indexOf_find _ _ _ Ek).
Qed.

Lemma graph_of_file_includes (d : jstring) :
  includes d DATA_MARKER_START = true ->
  graph_of_file d =
  parseLegacyFormat
    (trim (substringFrom d
             (indexOf d DATA_MARKER_START
              + Z.of_nat (length DATA_MARKER_START)))).
Proof.
  unfold graph_of_file, includes, indexOf.
  destruct (find DATA_MARKER_START d) as [k|]; [|discriminate]. intros _.
  destruct (Z.eqb_spec (Z.of_nat k) (-1)) as [H|_]; [lia|reflexivity].
Qed.
End MarkerFacts.

Module RunFacts.
Import StrDefs Str Json JsonDefs StrFacts.
Import GraphTypes IndexStructures Runtime StorageManager.
Import CodecDefs CodecFacts FileDefs FileFacts MarkerFacts RunDefs.
Local Open Scope monad_scope.

Lemma bind_ok {W A B} (m : M W A) (k : A -> M W B) (w w' : W) (a : A) :
  m w = (Ok a, w') -> bind m k w = k a w'.
Proof. unfold bind. intros ->. reflexivity. Qed.

Lemma bind_throw {W A B} (m : M W A) (k : A -> M W B) (w w' : W) e :
  m w = (Throw e, w') -> bind m k w = (Throw e, w').
Proof. unfold bind. intros ->. reflexivity. Qed.

Lemma try_ok {W A} (m : M W A) h (w w' : W) (a : A) :
  m w = (Ok a, w') -> try_catch m h w = (Ok a, w').
Proof. unfold try_catch. intros ->. reflexivity. Qed.

Lemma try_throw {W A} (m : M W A) h (w w' : W) e :
  m w = (Throw e, w') -> try_catch m h w = h e w'.
Proof. unfold try_catch. intros ->. reflexivity. Qed.

Lemma lookup_store (p c : jstring) fs : lookup p (store p c fs) = Some c.
Proof.
  induction fs as [|[p' c'] fs IH]; cbn [store lookup].
  - rewrite eqb_refl. reflexivity.
  - destruct (Str.eqb p p') eqn:E; cbn [lookup]; rewrite E;
      [reflexivity|exact IH].
Qed.

Lemma loadIndex_cached (w : World) :
  isIndexLoaded (this w) = true ->
  loadIndex w = (Ok (indexStructure (this w)), w).
Proof.
  intros H. unfold loadIndex. unfold bind at 1. unfold gets at 1.
  rewrite H. reflexivity.
Qed.

Lemma ensureIndexLoaded_cached (w : World) :
  isIndexLoaded (this w) = true -> ensureIndexLoaded w = (Ok tt, w).
Proof.
  intros H. unfold ensureIndexLoaded. unfold bind at 1. unfold gets at 1.
  rewrite H. reflexivity.
Qed.

Lemma graph_of_file_legacy (d : jstring) :
  includes d DATA_MARKER_START = false ->
  graph_of_file d = parseLegacyFormat d.
Proof.
  unfold graph_of_file, includes, indexOf.
  destruct (find DATA_MARKER_START d); [discriminate|reflexivity].
Qed.

(** What loadFullGraph does once loadIndex has returned: it reads the
    data section of the file. *)
Lemma read_data_section (w : World) (d : jstring) (g : KnowledgeGraph) :
  file_of w = Some d -> graph_of_file d = Some g ->
  (p <- gets (fun w => memoryFilePath (this w)) ;;
   data <- fs_readFile p ;;
   if negb (includes data DATA_MARKER_START) then
     typed (parseLegacyFormat data)
   else
     let dataStartPos :=
       (indexOf data DATA_MARKER_START
        + Z.of_nat (length DATA_MARKER_START))%Z in
     let dataContent := trim (substringFrom data dataStartPos) in
     typed (parseLegacyFormat dataContent)) w = (Ok g, w).
Proof.
  intros Hf Hg. unfold file_of in Hf.
  unfold bind at 1. unfold gets at 1. unfold bind at 1.
  unfold fs_readFile. rewrite Hf.
  destruct (includes d DATA_MARKER_START) eqn:Ei; cbn [negb]; cbv zeta.
  - rewrite <- (graph_of_file_includes d Ei), Hg. reflexivity.
  - rewrite <- (graph_of_file_legacy d Ei), Hg. reflexivity.
Qed.

Lemma loadFullGraph_loaded (w : World) (g : KnowledgeGraph) :
  loaded_on w g -> loadFullGraph w = (Ok g, w).
Proof.
  intros (Hl & d & Hf & Hg). unfold loadFullGraph. apply try_ok.
  rewrite (bind_ok _ _ _ _ _ (loadIndex_cached w Hl)).
  exact (read_data_section w d g Hf Hg).
Qed.

Lemma build_and_save (g : KnowledgeGraph) (w : World) :
  writable (disk w) = true ->
  (buildIndexFromGraph g ;; saveIndexAndData g) w = (Ok tt, saved g w).
Proof.
  intros Hw. unfold bind at 1. unfold buildIndexFromGraph, modify.
  unfold saveIndexAndData. unfold bind at 1. unfold gets at 1.
  unfold bind at 1. unfold gets at 1. unfold fs_writeFile.
  cbn [set_indexStructure disk writable this memoryFilePath indexStructure].
  rewrite Hw. reflexivity.
Qed.

Lemma build_and_save_fails (g : KnowledgeGraph) (w : World) :
  writable (disk w) = false ->
  (buildIndexFromGraph g ;; saveIndexAndData g) w
  = (Throw IOError, set_indexStructure (index_of_graph g (now w)) w).
Proof.
  intros Hw. unfold bind at 1. unfold buildIndexFromGraph, modify.
  unfold saveIndexAndData. unfold bind at 1. unfold gets at 1.
  unfold bind at 1. unfold gets at 1. unfold fs_writeFile.
  cbn [set_indexStructure disk writable this memoryFilePath indexStructure].
  rewrite Hw. reflexivity.
Qed.

Lemma saved_loaded_on (g : KnowledgeGraph) (w : World) :
  isIndexLoaded (this w) = true -> loaded_on (saved g w) g.
Proof.
  intros H. split; [exact H|].
  exists (fileContent (index_of_graph g (now w)) g). split.
  - unfold file_of, saved. cbn [this disk files memoryFilePath].
    apply lookup_store.
  - apply graph_of_fileContent.
Qed.

Lemma saved_coherent (g : KnowledgeGraph) (w : World) : coherent (saved g w) g.
Proof. exists (now w). reflexivity. Qed.

(** A mutation of a loaded store: load, edit, index, save. *)
Lemma mutate_loaded (f : KnowledgeGraph -> KnowledgeGraph)
  (w : World) (g : KnowledgeGraph) :
  loaded_on w g -> writable (disk w) = true ->
  (ensureIndexLoaded ;;
   graph <- loadFullGraph ;;
   let graph := f graph in
   buildIndexFromGraph graph ;; saveIndexAndData graph) w
  = (Ok tt, saved (f g) w).
Proof.
  intros H Hw.
  rewrite (bind_ok _ _ _ _ _ (ensureIndexLoaded_cached w (proj1 H))).
  rewrite (bind_ok _ _ _ _ _ (loadFullGraph_loaded w g H)).
  cbv zeta. apply build_and_save. exact Hw.
Qed.

Lemma updateEntity_loaded (e : Entity) (w : World) (g : KnowledgeGraph) :
  loaded_on w g -> writable (disk w) = true ->
  updateEntity e w = (Ok tt, saved (put_entity e g) w).
Proof. apply (mutate_loaded (put_entity e)). Qed.

Lemma deleteEntity_loaded (n : jstring) (w : World) (g : KnowledgeGraph) :
  loaded_on w g -> writable (disk w) = true ->
  deleteEntity n w = (Ok tt, saved (remove_entity n g) w).
Proof. apply (mutate_loaded (remove_entity n)). Qed.

Lemma deleteRelation_loaded (r : Relation) (w : World) (g : KnowledgeGraph) :
  loaded_on w g -> writable (disk w) = true ->
  deleteRelation r w = (Ok tt, saved (remove_relation r g) w).
Proof. apply (mutate_loaded (remove_relation r)). Qed.

Lemma findIndex_existsb {A} (p : A -> bool) (xs : list A) :
  (0 <=? findIndex p xs)%Z = existsb p xs
  /\ (-1 <= findIndex p xs)%Z.
Proof.
  induction xs as [|x xs [IH1 IH2]]; cbn [findIndex existsb]; [split; [reflexivity|lia]|].
  destruct (p x); [split; [reflexivity|lia]|]. cbn [orb].
  destruct (Z.eqb_spec (findIndex p xs) (-1)) as [E|E].
  - rewrite E in IH1. rewrite <- IH1. split; [reflexivity|lia].
  - rewrite <- IH1. split; [|lia].
    destruct (Z.leb_spec 0 (findIndex p xs)); destruct (Z.leb_spec 0 (findIndex p xs + 1)); lia || reflexivity.
Qed.

Lemma updateRelation_loaded (r : Relation) (w : World) (g : KnowledgeGraph) :
  loaded_on w g -> writable (disk w) = true ->
  updateRelation r w =
  (Ok tt, if existsb (same_relation r) (relations g) then w
          else saved (add_relation r g) w).
Proof.
  intros H Hw. unfold updateRelation.
  rewrite (bind_ok _ _ _ _ _ (ensureIndexLoaded_cached w (proj1 H))).
  rewrite (bind_ok _ _ _ _ _ (loadFullGraph_loaded w g H)).
  cbv zeta. rewrite (proj1 (findIndex_existsb _ _)).
  destruct (existsb (same_relation r) (relations g)); [reflexivity|].
  apply build_and_save. exact Hw.
Qed.
End RunFacts.

Module IndexFacts.
Import StrDefs Str Json StrFacts.
Import GraphTypes IndexStructures Runtime StorageManager.
Import FileDefs RunDefs RunFacts.
Local Open Scope monad_scope.

Lemma eqb_sym (a b : jstring) : Str.eqb a b = Str.eqb b a.
Proof.
  destruct (Str.eqb a b) eqn:E.
  - apply eqb_eq in E. subst. symmetry. apply eqb_refl.
  - apply eqb_neq in E. symmetry. apply eqb_neq. congruence.
Qed.

Lemma map_get_set {V} (k k' : jstring) (v : V) (m : Map V) :
  map_get k (map_set k' v m) = if Str.eqb k k' then Some v else map_get k m.
Proof.
  induction m as [|[k0 v0] m IH]; cbn [map_set map_get]; [reflexivity|].
  destruct (Str.eqb k' k0) eqn:E; cbn [map_get].
  - apply eqb_eq in E. subst k0. destruct (Str.eqb k k'); reflexivity.
  - rewrite IH. destruct (Str.eqb k k0) eqn:E0; [|reflexivity].
    apply eqb_eq in E0. subst k0. rewrite eqb_sym, E. reflexivity.
Qed.

Lemma map_has_set {V} (k k' : jstring) (v : V) (m : Map V) :
  map_has k (map_set k' v m) = Str.eqb k k' || map_has k m.
Proof.
  unfold map_has. rewrite map_get_set. destruct (Str.eqb k k'); reflexivity.
Qed.

Lemma map_has_update {V} (k k' : jstring) (f : V -> V) (m : Map V) :
  map_has k (map_update k' f m) = map_has k m.
Proof.
  unfold map_update. destruct (map_get k' m) as [v|] eqn:E; [|reflexivity].
  rewrite map_has_set. destruct (Str.eqb k k') eqn:E'; [|reflexivity].
  apply eqb_eq in E'. subst k'. unfold map_has. rewrite E. reflexivity.
Qed.

Lemma entityIndices_index_entities (es : list Entity) :
  forall p i n,
    map_has n (entityIndices (index_entities es p i))
    = existsb (fun e => Str.eqb (GraphTypes.name e) n) es
      || map_has n (entityIndices i).
Proof.
  induction es as [|e es IH]; intros p i n; [reflexivity|].
  cbn [index_entities existsb]. cbv zeta. rewrite IH.
  replace (entityIndices _) with
    (map_set (GraphTypes.name e)
       {| name := GraphTypes.name e;
          entityType := GraphTypes.entityType e;
          observationCount := length (observations e);
          relationsFrom := []; relationsTo := [];
          filePosition := p |} (entityIndices i)).
  2:{ cbn [set_typeIndices entityIndices].
      match goal with |- context [if ?b then _ else _] => destruct b end;
        reflexivity. }
  rewrite map_has_set, (eqb_sym n).
  destruct (Str.eqb (GraphTypes.name e) n); cbn [orb];
    [rewrite orb_true_r|]; reflexivity.
Qed.

Lemma entityIndices_index_relation (i : IndexStructure) (r : Relation)
  (n : jstring) :
  map_has n (entityIndices (index_relation i r))
  = map_has n (entityIndices i).
Proof.
  unfold index_relation. cbv zeta.
  cbn [set_relationIndices entityIndices].
  match goal with
  | |- context [if ?b then _ else _] => destruct b
  end; cbn [set_relationIndices set_entityIndices entityIndices];
    rewrite !map_has_update; reflexivity.
Qed.

Lemma entityIndices_index_relations (rs : list Relation) :
  forall i n,
    map_has n (entityIndices (fold_left index_relation rs i))
    = map_has n (entityIndices i).
Proof.
  induction rs as [|r rs IH]; intros i n; [reflexivity|].
  cbn [fold_left]. rewrite IH. apply entityIndices_index_relation.
Qed.

(** The entity index has an entry for a name exactly when the graph has an
    entity of that name. *)
Lemma index_has_entity (g : KnowledgeGraph) (t n : jstring) :
  map_has n (entityIndices (index_of_graph g t))
  = existsb (fun e => Str.eqb (GraphTypes.name e) n) (entities g).
Proof.
  unfold index_of_graph. cbv zeta.
  rewrite entityIndices_index_relations, entityIndices_index_entities.
  cbn [entityIndices createEmptyIndex map_has map_get]. apply orb_false_r.
Qed.

Lemma find_existsb {A} (p : A -> bool) (xs : list A) :
  existsb p xs = false -> List.find p xs = None.
Proof.
  induction xs as [|x xs IH]; cbn [existsb List.find]; [reflexivity|].
  destruct (p x); [discriminate|exact IH].
Qed.

Lemma existsb_find {A} (p : A -> bool) (xs : list A) :
  existsb p xs = true -> exists x, List.find p xs = Some x /\ In x xs /\ p x = true.
Proof.
  induction xs as [|x xs IH]; cbn [existsb List.find]; [discriminate|].
  destruct (p x) eqn:E.
  - intros _. exists x. repeat split; [left; reflexivity|exact E].
  - cbn [orb]. intros H. destruct (IH H) as (y & Hy & Hin & Hp).
    exists y. repeat split; [exact Hy|right; exact Hin|exact Hp].
Qed.

(** A point lookup on a loaded store whose cache describes the file. *)
Lemma getEntityByName_loaded (n : jstring) (w : World) (g : KnowledgeGraph) :
  loaded_on w g -> coherent w g ->
  getEntityByName n w
  = (Ok (List.find (fun e => Str.eqb (GraphTypes.name e) n) (entities g)), w).
Proof.
  intros H [t Ht]. unfold getEntityByName.
  rewrite (bind_ok _ _ _ _ _ (ensureIndexLoaded_cached w (proj1 H))).
  unfold bind at 1. unfold gets at 1. rewrite Ht.
  pose proof (index_has_entity g t n) as Hi. unfold map_has in Hi.
  destruct (map_get n (entityIndices (index_of_graph g t))).
  - rewrite (bind_ok _ _ _ _ _ (loadFullGraph_loaded w g H)). reflexivity.
  - symmetry in Hi. rewrite (find_existsb _ _ Hi). reflexivity.
Qed.
End IndexFacts.

Module GraphFacts.
Import StrDefs Str StrFacts.
Import IndexStructures Runtime StorageManager KnowledgeGraphManager GraphTypes.
Import FileDefs RunDefs RunFacts IndexFacts GraphDefs.
Local Open Scope monad_scope.

Lemma names_assign (e : Entity) (es : list Entity) :
  (0 <= findIndex (fun x => Str.eqb (name x) (name e)) es)%Z ->
  map name (assign (Z.to_nat (findIndex (fun x => Str.eqb (name x) (name e)) es))
              e es)
  = map name es.
Proof.
  induction es as [|x es IH]; cbn [findIndex]; [lia|].
  destruct (Str.eqb (name x) (name e)) eqn:E.
  - intros _. cbn. apply eqb_eq in E. rewrite E. reflexivity.
  - destruct (Z.eqb_spec (findIndex (fun x => Str.eqb (name x) (name e)) es)
                (-1)) as [E1|E1]; [lia|].
    intros H.
    pose proof (proj2 (findIndex_existsb
                         (fun x => Str.eqb (name x) (name e)) es)) as Hge.
    replace (Z.to_nat (findIndex (fun x => Str.eqb (name x) (name e)) es + 1))
      with (S (Z.to_nat (findIndex (fun x => Str.eqb (name x) (name e)) es)))
      by lia.
    cbn [assign map]. f_equal. apply IH. lia.
Qed.

Lemma names_put_entity (e : Entity) (g : KnowledgeGraph) :
  map name (entities (put_entity e g))
  = if has_entity (name e) g then map name (entities g)
    else map name (entities g) ++ [name e].
Proof.
  unfold put_entity, has_entity. cbv zeta.
  rewrite (proj1 (findIndex_existsb _ _)).
  destruct (existsb (fun x => Str.eqb (name x) (name e)) (entities g)) eqn:E;
    cbn [entities].
  - apply names_assign. rewrite <- (proj1 (findIndex_existsb _ _)) in E.
    apply Z.leb_le. exact E.
  - rewrite map_app. reflexivity.
Qed.

Lemma relations_put_entity (e : Entity) (g : KnowledgeGraph) :
  relations (put_entity e g) = relations g.
Proof.
  unfold put_entity. cbv zeta.
  destruct (0 <=? _)%Z; reflexivity.
Qed.

Lemma has_entity_names (n : jstring) (g : KnowledgeGraph) :
  has_entity n g = existsb (fun m => Str.eqb m n) (map name (entities g)).
Proof.
  unfold has_entity. induction (entities g) as [|x xs IH]; [reflexivity|].
  cbn [existsb map]. rewrite IH. reflexivity.
Qed.

Lemma has_entity_put (n : jstring) (e : Entity) (g : KnowledgeGraph) :
  has_entity n (put_entity e g) = Str.eqb (name e) n || has_entity n g.
Proof.
  rewrite !has_entity_names, names_put_entity.
  destruct (has_entity (name e) g) eqn:E.
  - destruct (Str.eqb (name e) n) eqn:E1; [|reflexivity].
    apply eqb_eq in E1. subst n. rewrite <- has_entity_names, E. reflexivity.
  - rewrite existsb_app. cbn [existsb]. rewrite orb_false_r. apply orb_comm.
Qed.


Lemma filter_none {A} (p : A -> bool) (xs : list A) :
  (forall x, In x xs -> p x = false) -> filter p xs = [].
Proof.
  induction xs as [|x xs IH]; intros H; [reflexivity|].
  cbn [filter]. rewrite (H x (or_introl eq_refl)).
  apply IH. intros y Hy. apply H. right. exact Hy.
Qed.

Lemma saved_writable (g : KnowledgeGraph) (w : World) :
  writable (disk (saved g w)) = writable (disk w).
Proof. reflexivity. Qed.

(** A run of updateEntity over a list, on a loaded store. *)
Lemma forEach_updateEntity_loaded (es : list Entity) :
  forall w g,
    loaded_on w g -> writable (disk w) = true ->
    exists w',
      forEach es updateEntity w = (Ok tt, w')
      /\ loaded_on w' (fold_left (fun g e => put_entity e g) es g)
      /\ writable (disk w') = true.
Proof.
  induction es as [|e es IH]; intros w g H Hw.
  - exists w. split; [reflexivity|split; assumption].
  - cbn [forEach fold_left].
    rewrite (bind_ok _ _ _ _ _ (updateEntity_loaded e w g H Hw)).
    apply IH; [apply saved_loaded_on; exact (proj1 H)|exact Hw].
Qed.



(** *** Relations *)

Lemma same_relation_refl (r : Relation) : same_relation r r = true.
Proof. unfold same_relation. rewrite !eqb_refl. reflexivity. Qed.

Lemma same_relation_eq (x r : Relation) : same_relation x r = true -> r = x.
Proof.
  unfold same_relation. intros H.
  apply andb_true_iff in H. destruct H as [H H3].
  apply andb_true_iff in H. destruct H as [H1 H2].
  apply eqb_eq in H1, H2, H3. destruct x, r. cbn in *. congruence.
Qed.

Lemma updateRelation_put (r : Relation) (w : World) (g : KnowledgeGraph) :
  loaded_on w g -> writable (disk w) = true ->
  exists w',
    updateRelation r w = (Ok tt, w')
    /\ loaded_on w' (put_relation r g) /\ writable (disk w') = true.
Proof.
  intros H Hw. rewrite (updateRelation_loaded r w g H Hw).
  unfold put_relation.
  destruct (existsb (same_relation r) (relations g)).
  - exists w. split; [reflexivity|split; assumption].
  - eexists. split; [reflexivity|]. split; [|exact Hw].
    apply (saved_loaded_on (add_relation r g)). exact (proj1 H).
Qed.

Lemma forEach_updateRelation_loaded (rs : list Relation) :
  forall w g,
    loaded_on w g -> writable (disk w) = true ->
    exists w',
      forEach rs updateRelation w = (Ok tt, w')
      /\ loaded_on w' (fold_left (fun g r => put_relation r g) rs g)
      /\ writable (disk w') = true.
Proof.
  induction rs as [|r rs IH]; intros w g H Hw.
  - exists w. split; [reflexivity|split; assumption].
  - cbn [forEach fold_left].
    destruct (updateRelation_put r w g H Hw) as (w1 & Hrun & H1 & Hw1).
    rewrite (bind_ok _ _ _ _ _ Hrun). apply IH; assumption.
Qed.

Lemma createRelations_loaded (rs : list Relation) (w : World)
  (g : KnowledgeGraph) :
  loaded_on w g -> writable (disk w) = true ->
  exists w',
    createRelations rs w = (Ok (filter (is_new_relation g) rs), w')
    /\ loaded_on w'
         (fold_left (fun g r => put_relation r g)
            (filter (is_new_relation g) rs) g)
    /\ writable (disk w') = true.
Proof.
  intros H Hw. unfold createRelations.
  rewrite (bind_ok _ _ _ _ _ (loadFullGraph_loaded w g H)). cbv zeta.
  destruct (forEach_updateRelation_loaded (filter (is_new_relation g) rs)
              w g H Hw) as (w' & Hrun & Hl & Hw').
  exists w'. split; [|split; assumption].
  fold (is_new_relation g).
  rewrite (bind_ok _ _ _ _ _ Hrun). reflexivity.
Qed.



End GraphFacts.

Module BatchFacts.
Import StrDefs Str StrFacts.
Import IndexStructures Runtime StorageManager KnowledgeGraphManager GraphTypes.
Import FileDefs RunDefs RunFacts IndexFacts GraphDefs GraphFacts Samples.
Local Open Scope monad_scope.

Lemma find_name {n : jstring} {es : list Entity} {e : Entity} :
  List.find (fun e => Str.eqb (name e) n) es = Some e -> name e = n.
Proof.
  intros H. apply find_some in H. destruct H as [_ H].
  apply eqb_eq. exact H.
Qed.

Lemma has_entity_find (n : jstring) (g : KnowledgeGraph) :
  has_entity n g = true ->
  exists e, List.find (fun e => Str.eqb (name e) n) (entities g) = Some e.
Proof.
  intros H. destruct (existsb_find _ _ H) as (e & He & _). exists e. exact He.
Qed.

Lemma has_entity_add_observations (n : jstring) (g : KnowledgeGraph)
  (item : jstring * list jstring) :
  has_entity n (add_observations_to g item) = has_entity n g.
Proof.
  unfold add_observations_to.
  destruct (List.find _ (entities g)) as [e|] eqn:E; [|reflexivity].
  cbv zeta. destruct (0 <? _); [|reflexivity].
  rewrite has_entity_put. cbn [push_observations name].
  destruct (Str.eqb (name e) n) eqn:E1; [|reflexivity].
  apply eqb_eq in E1. subst n. symmetry. unfold has_entity.
  apply existsb_exists. apply find_some in E. exists e.
  split; [exact (proj1 E)|apply eqb_refl].
Qed.

Lemma has_entity_fold_add (n : jstring) (items : list (jstring * list jstring)) :
  forall g, has_entity n (fold_left add_observations_to items g)
            = has_entity n g.
Proof.
  induction items as [|it items IH]; intros g; [reflexivity|].
  cbn [fold_left]. rewrite IH. apply has_entity_add_observations.
Qed.

Lemma find_assign {A} (p : A -> bool) (e : A) (es : list A) :
  p e = true -> (0 <= findIndex p es)%Z ->
  List.find p (assign (Z.to_nat (findIndex p es)) e es) = Some e.
Proof.
  intros He. induction es as [|x es IH]; cbn [findIndex]; [lia|].
  destruct (p x) eqn:E.
  - intros _. cbn [Z.to_nat assign List.find]. rewrite He. reflexivity.
  - destruct (Z.eqb_spec (findIndex p es) (-1)) as [E1|E1]; [lia|].
    intros H. pose proof (proj2 (findIndex_existsb p es)) as Hge.
    replace (Z.to_nat (findIndex p es + 1))
      with (S (Z.to_nat (findIndex p es))) by lia.
    cbn [assign List.find]. rewrite E. apply IH. lia.
Qed.

Lemma find_snoc {A} (p : A -> bool) (e : A) (es : list A) :
  existsb p es = false -> p e = true -> List.find p (es ++ [e]) = Some e.
Proof.
  intros H He. induction es as [|x es IH]; cbn [app List.find].
  - rewrite He. reflexivity.
  - cbn [existsb] in H. apply orb_false_iff in H. destruct H as [Hx H].
    rewrite Hx. apply IH. exact H.
Qed.

(** After put_entity the first entity of that name is the one put. *)
Lemma find_put_entity (e : Entity) (g : KnowledgeGraph) :
  List.find (fun x => Str.eqb (name x) (name e)) (entities (put_entity e g))
  = Some e.
Proof.
  unfold put_entity. cbv zeta.
  destruct (0 <=? findIndex (fun x => Str.eqb (name x) (name e)) (entities g))%Z
    eqn:E; cbn [entities].
  - apply find_assign; [apply eqb_refl|apply Z.leb_le; exact E].
  - apply find_snoc; [|apply eqb_refl].
    rewrite <- (proj1 (findIndex_existsb _ _)). exact E.
Qed.

Lemma find_assign_other {A} (p q : A -> bool) (e : A) (es : list A) :
  p e = false -> (forall x, q x = true -> p x = false) ->
  (0 <= findIndex q es)%Z ->
  List.find p (assign (Z.to_nat (findIndex q es)) e es) = List.find p es.
Proof.
  intros He Hq. induction es as [|x es IH]; cbn [findIndex]; [lia|].
  destruct (q x) eqn:E.
  - intros _. cbn [Z.to_nat assign List.find]. rewrite He, (Hq x E).
    reflexivity.
  - destruct (Z.eqb_spec (findIndex q es) (-1)) as [E1|E1]; [lia|].
    intros H. pose proof (proj2 (findIndex_existsb q es)) as Hge.
    replace (Z.to_nat (findIndex q es + 1))
      with (S (Z.to_nat (findIndex q es))) by lia.
    cbn [assign List.find]. destruct (p x); [reflexivity|]. apply IH. lia.
Qed.

Lemma find_snoc_other {A} (p : A -> bool) (e : A) (es : list A) :
  p e = false -> List.find p (es ++ [e]) = List.find p es.
Proof.
  intros He. induction es as [|x es IH]; cbn [app List.find].
  - rewrite He. reflexivity.
  - destruct (p x); [reflexivity|exact IH].
Qed.

(** put_entity leaves the first entity of every other name where it is. *)
Lemma find_put_entity_other (e : Entity) (g : KnowledgeGraph) (m : jstring) :
  name e <> m ->
  List.find (fun x => Str.eqb (name x) m) (entities (put_entity e g))
  = List.find (fun x => Str.eqb (name x) m) (entities g).
Proof.
  intros H. unfold put_entity. cbv zeta.
  destruct (0 <=? findIndex (fun x => Str.eqb (name x) (name e)) (entities g))%Z
    eqn:E; cbn [entities].
  - apply find_assign_other.
    + apply eqb_neq. exact H.
    + intros x Hx. apply eqb_eq in Hx. apply eqb_neq. congruence.
    + apply Z.leb_le. exact E.
  - apply find_snoc_other. apply eqb_neq. exact H.
Qed.

Lemma array_includes_In (xs : list jstring) (x : jstring) :
  array_includes xs x = true <-> In x xs.
Proof.
  unfold array_includes. rewrite existsb_exists. split.
  - intros (y & Hy & E). apply eqb_eq in E. subst y. exact Hy.
  - intros H. exists x. split; [exact H|apply eqb_refl].
Qed.

Lemma names_add_observations (g : KnowledgeGraph)
  (item : jstring * list jstring) :
  map name (entities (add_observations_to g item)) = map name (entities g).
Proof.
  unfold add_observations_to.
  destruct (List.find _ (entities g)) as [e|] eqn:E; [|reflexivity].
  cbv zeta. destruct (0 <? _); [|reflexivity].
  rewrite names_put_entity. cbn [push_observations name].
  replace (has_entity (name e) g) with true; [reflexivity|].
  symmetry. unfold has_entity. apply existsb_exists. apply find_some in E.
  exists e. split; [exact (proj1 E)|apply eqb_refl].
Qed.

Lemma relations_add_observations (g : KnowledgeGraph)
  (item : jstring * list jstring) :
  relations (add_observations_to g item) = relations g.
Proof.
  unfold add_observations_to.
  destruct (List.find _ (entities g)) as [e|]; [|reflexivity].
  cbv zeta. destruct (0 <? _); [|reflexivity].
  apply relations_put_entity.
Qed.

Lemma frame_fold_add (items : list (jstring * list jstring)) :
  forall g,
    map name (entities (fold_left add_observations_to items g))
    = map name (entities g)
    /\ relations (fold_left add_observations_to items g) = relations g.
Proof.
  induction items as [|it items IH]; intros g; [split; reflexivity|].
  cbn [fold_left]. destruct (IH (add_observations_to g it)) as [H1 H2].
  rewrite H1, H2, names_add_observations, relations_add_observations.
  split; reflexivity.
Qed.

(** One round of the loop keeps the first entity of every name, with the
    observations it had; the entity named by the item has all the contents
    of the item afterwards. *)
Lemma add_observations_keeps (g : KnowledgeGraph) (n : jstring)
  (cs : list jstring) (m : jstring) (e : Entity) :
  List.find (fun x => Str.eqb (name x) m) (entities g) = Some e ->
  exists e',
    List.find (fun x => Str.eqb (name x) m)
      (entities (add_observations_to g (n, cs))) = Some e'
    /\ incl (observations e) (observations e')
    /\ (m = n -> incl cs (observations e')).
Proof.
  intros He. unfold add_observations_to. cbn [fst snd].
  destruct (List.find (fun x => Str.eqb (name x) n) (entities g))
    as [en|] eqn:En.
  - cbv zeta.
    set (new := filter (fun content =>
                          negb (array_includes (observations en) content)) cs).
    assert (Hcs : incl cs (observations en ++ new)).
    { intros c Hc. apply in_or_app.
      destruct (array_includes (observations en) c) eqn:Ea.
      - left. apply array_includes_In. exact Ea.
      - right. apply filter_In. split; [exact Hc|]. rewrite Ea. reflexivity. }
    destruct (0 <? length new) eqn:El.
    + destruct (Str.eqb n m) eqn:Enm.
      * apply eqb_eq in Enm. subst m. rewrite He in En. injection En as <-.
        exists (push_observations e new). split; [|split].
        -- pose proof (find_put_entity (push_observations e new) g) as Hf.
           cbn [push_observations name] in Hf.
           rewrite (find_name He) in Hf. exact Hf.
        -- apply incl_appl, incl_refl.
        -- intros _. exact Hcs.
      * apply eqb_neq in Enm. exists e. split; [|split].
        -- rewrite find_put_entity_other; [exact He|].
           cbn [push_observations name]. rewrite (find_name En). exact Enm.
        -- apply incl_refl.
        -- intros E. congruence.
    + apply Nat.ltb_ge in El.
      assert (Enew : new = []) by (apply length_zero_iff_nil; lia).
      exists e. split; [exact He|]. split; [apply incl_refl|].
      intros E. subst m. rewrite He in En. injection En as <-.
      rewrite Enew, app_nil_r in Hcs. exact Hcs.
  - exists e. split; [exact He|]. split; [apply incl_refl|].
    intros E. subst m. congruence.
Qed.

Lemma fold_add_observations_keeps (items : list (jstring * list jstring)) :
  forall g m e,
    List.find (fun x => Str.eqb (name x) m) (entities g) = Some e ->
    exists e',
      List.find (fun x => Str.eqb (name x) m)
        (entities (fold_left add_observations_to items g)) = Some e'
      /\ incl (observations e) (observations e')
      /\ forall cs, In (m, cs) items -> incl cs (observations e').
Proof.
  induction items as [|[n cs] items IH]; intros g m e He.
  - exists e. split; [exact He|]. split; [apply incl_refl|].
    intros cs [].
  - cbn [fold_left].
    destruct (add_observations_keeps g n cs m e He) as (e1 & H1 & Hi1 & Hn1).
    destruct (IH _ m e1 H1) as (e' & H' & Hi' & Hn').
    exists e'. split; [exact H'|]. split.
    + eapply incl_tran; [exact Hi1|exact Hi'].
    + intros cs' [E|Hin].
      * injection E as <- <-. eapply incl_tran; [exact (Hn1 eq_refl)|exact Hi'].
      * apply Hn'. exact Hin.
Qed.

Lemma Forall2_In_r {A B} (R : A -> B -> Prop) (xs : list A) (ys : list B)
  (y : B) :
  Forall2 R xs ys -> In y ys -> exists x, In x xs /\ R x y.
Proof.
  induction 1 as [|x y0 xs ys HR _ IH]; [contradiction|].
  intros [->|Hin].
  - exists x. split; [left; reflexivity|exact HR].
  - destruct (IH Hin) as (x' & Hx & Hr). exists x'.
    split; [right; exact Hx|exact Hr].
Qed.

(** The loop of addObservations over items that all name entities of the
    graph: it comes to the rest of the batch, on a store that holds what
    the items added. *)
Lemma addObservations_from_loaded (pre : list (jstring * list jstring)) :
  forall w g res,
    loaded_on w g -> coherent w g -> writable (disk w) = true ->
    Forall (fun item => has_entity (fst item) g = true) pre ->
    exists w1 added,
      loaded_on w1 (fold_left add_observations_to pre g)
      /\ coherent w1 (fold_left add_observations_to pre g)
      /\ writable (disk w1) = true
      /\ Forall2 (fun item r => fst r = fst item /\ incl (snd r) (snd item))
           pre added
      /\ forall rest,
           addObservations_from (pre ++ rest) res w
           = addObservations_from rest (res ++ added) w1.
Proof.
  induction pre as [|[n cs] pre IH]; intros w g res H Hc Hw Hall.
  - exists w, []. split; [exact H|]. split; [exact Hc|]. split; [exact Hw|].
    split; [constructor|]. intros rest. rewrite app_nil_r. reflexivity.
  - inversion Hall as [|? ? Hn Hall']; subst. cbn [fst] in Hn.
    destruct (has_entity_find n g Hn) as (e & He).
    assert (Hall1 : Forall (fun item => has_entity (fst item)
                                        (add_observations_to g (n, cs)) = true)
                      pre).
    { eapply Forall_impl; [|exact Hall'].
      intros it Hit. cbn beta. rewrite has_entity_add_observations. exact Hit. }
    cbn [fold_left].
    set (new := filter (fun content =>
                          negb (array_includes (observations e) content)) cs).
    set (r0 := (n, if 0 <? length new then new else [])).
    assert (Hr0 : fst r0 = n /\ incl (snd r0) cs).
    { split; [reflexivity|]. unfold r0. cbn [snd].
      destruct (0 <? length new); [apply incl_filter|intros c []]. }
    assert (Hstep : exists w0,
      loaded_on w0 (add_observations_to g (n, cs))
      /\ coherent w0 (add_observations_to g (n, cs))
      /\ writable (disk w0) = true
      /\ forall rest, addObservations_from (((n, cs) :: pre) ++ rest) res w
         = addObservations_from (pre ++ rest) (res ++ [r0]) w0).
    { unfold add_observations_to. cbn [fst snd]. rewrite He. cbv zeta.
      fold new. unfold r0.
      destruct (0 <? length new) eqn:El.
      - eexists. split; [apply saved_loaded_on; exact (proj1 H)|].
        split; [apply saved_coherent|]. split; [exact Hw|].
        intros rest. cbn [app addObservations_from].
        rewrite (bind_ok _ _ _ _ _ (getEntityByName_loaded n w g H Hc)).
        rewrite He. cbv zeta. fold new. rewrite El.
        rewrite (bind_ok _ _ _ _ _
                   (updateEntity_loaded _ w g H Hw)).
        reflexivity.
      - exists w. split; [exact H|]. split; [exact Hc|]. split; [exact Hw|].
        intros rest. cbn [app addObservations_from].
        rewrite (bind_ok _ _ _ _ _ (getEntityByName_loaded n w g H Hc)).
        rewrite He. cbv zeta. fold new. rewrite El. reflexivity. }
    destruct Hstep as (w0 & H0 & Hc0 & Hw0 & Hrun0).
    destruct (IH w0 _ (res ++ [r0]) H0 Hc0 Hw0 Hall1)
      as (w1 & added & H1 & Hc1 & Hw1 & Hadd & Hrun1).
    exists w1, (r0 :: added). split; [exact H1|]. split; [exact Hc1|].
    split; [exact Hw1|]. split; [constructor; [exact Hr0|exact Hadd]|].
    intros rest. rewrite Hrun0, Hrun1, <- app_assoc. reflexivity.
Qed.

Lemma loaded_stored (path : jstring) (g : KnowledgeGraph) (t : jstring) :
  loaded_on (stored path g t) g.
Proof.
  split; [reflexivity|].
  exists (fileContent (index_of_graph g t) g). split.
  - unfold file_of, stored. cbn [this disk files memoryFilePath lookup].
    rewrite eqb_refl. reflexivity.
  - apply MarkerFacts.graph_of_fileContent.
Qed.

Lemma coherent_stored (path : jstring) (g : KnowledgeGraph) (t : jstring) :
  coherent (stored path g t) g.
Proof. exists t. reflexivity. Qed.
End BatchFacts.

Module LoadedClaims.
Import StrDefs Str StrFacts.
Import IndexStructures Runtime StorageManager KnowledgeGraphManager GraphTypes.
Import FileDefs RunDefs RunFacts IndexFacts GraphDefs GraphFacts BatchFacts Samples.
Local Open Scope monad_scope.



(** C5 (amended): on a loaded store that accepts writes, a relation with
    the name [n] at one of its ends can be created whether or not an entity
    is named [n], and is then part of the graph read back; a later
    deleteEntities of [n] leaves the graph without the entities named [n]
    and without every relation from or to [n], this one included. *)
Theorem deleteEntities_removes_relations_of_name (w : World)
  (g : KnowledgeGraph) (r : Relation) (n : jstring) :
  loaded_on w g -> writable (disk w) = true -> from r = n \/ to r = n ->
  exists g1,
    fst ((createRelations [r] ;; readGraph) w) = Ok g1
    /\ entities g1 = entities g /\ In r (relations g1)
    /\ fst ((createRelations [r] ;; deleteEntities [n] ;; readGraph) w)
       = Ok (remove_entity n g1)
    /\ ~ In r (relations (remove_entity n g1)).
Proof.
  intros H Hw Hn.
  destruct (createRelations_loaded [r] w g H Hw) as (w1 & Hrun & H1 & Hw1).
  set (g1 := fold_left (fun g r => put_relation r g)
               (filter (is_new_relation g) [r]) g) in *.
  exists g1.
  rewrite !(bind_ok _ _ _ _ _ Hrun).
  unfold readGraph. rewrite (loadFullGraph_loaded w1 g1 H1).
  split; [reflexivity|].
  assert (Hg1 : g1 = put_relation r g).
  { unfold g1, is_new_relation, put_relation. cbn [filter].
    destruct (existsb (same_relation r) (relations g)) eqn:E;
      cbn [negb fold_left]; [reflexivity|].
    unfold put_relation. rewrite E. reflexivity. }
  split; [|split; [|split]].
  - rewrite Hg1. unfold put_relation.
    destruct (existsb _ _); reflexivity.
  - rewrite Hg1. unfold put_relation.
    destruct (existsb (same_relation r) (relations g)) eqn:E.
    + apply existsb_exists in E. destruct E as (x & Hx & Hs).
      apply same_relation_eq in Hs. subst x. exact Hx.
    + cbn [relations]. apply in_or_app. right. left. reflexivity.
  - unfold deleteEntities. cbn [forEach].
    rewrite (bind_ok _ _ _ _ _
               (bind_ok _ _ _ _ _ (deleteEntity_loaded n w1 g1 H1 Hw1))).
    unfold ret.
    rewrite (loadFullGraph_loaded _ _
               (saved_loaded_on (remove_entity n g1) w1 (proj1 H1))).
    reflexivity.
  - unfold remove_entity. cbn [relations]. intros Hin.
    apply filter_In in Hin. destruct Hin as [_ Hin].
    apply andb_true_iff in Hin. destruct Hin as [Hf Ht].
    apply negb_true_iff in Hf, Ht. apply eqb_neq in Hf, Ht.
    destruct Hn; contradiction.
Qed.

Lemma deleteEntities_removes_relations_witness :
  exists g1,
    fst ((createRelations [haunts] ;; readGraph) (stored path0 people (js "T1")))
    = Ok g1
    /\ entities g1 = entities people /\ In haunts (relations g1)
    /\ fst ((createRelations [haunts] ;; deleteEntities [js "Ghost"] ;;
             readGraph) (stored path0 people (js "T1")))
       = Ok (remove_entity (js "Ghost") g1)
    /\ ~ In haunts (relations (remove_entity (js "Ghost") g1)).
Proof.
  apply (deleteEntities_removes_relations_of_name
           (stored path0 people (js "T1")) people haunts (js "Ghost")).
  - split; [reflexivity|].
    exists (fileContent (index_of_graph people (js "T1")) people).
    split; vm_compute; reflexivity.
  - reflexivity.
  - left. reflexivity.
Defined.

(** C10: on a loaded store that accepts writes and whose cached index
    describes the file, a batch whose first items all name entities of the
    graph and whose next item names none throws the error of that item,
    and leaves the very store that addObservations of the first items
    alone leaves. The graph read back from that store has the entity names
    and the relations it had; the entity read back for each of the first
    items holds every content of the item among its observations, hence
    every content reported as added, and no entity has lost an
    observation. *)
Theorem addObservations_batch_not_atomic (w : World) (g : KnowledgeGraph)
  (pre post : list (jstring * list jstring)) (n : jstring)
  (cs : list jstring) :
  loaded_on w g -> coherent w g -> writable (disk w) = true ->
  Forall (fun item => has_entity (fst item) g = true) pre ->
  has_entity n g = false ->
  exists w1 res g1,
    addObservations pre w = (Ok res, w1)
    /\ addObservations (pre ++ (n, cs) :: post) w = (Throw (NotFound n), w1)
    /\ loadFullGraph w1 = (Ok g1, w1)
    /\ g1 = fold_left add_observations_to pre g
    /\ map name (entities g1) = map name (entities g)
    /\ relations g1 = relations g
    /\ Forall2 (fun item r => fst r = fst item /\ incl (snd r) (snd item))
         pre res
    /\ (forall m contents,
          In (m, contents) pre ->
          exists e1,
            getEntityByName m w1 = (Ok (Some e1), w1)
            /\ forall c, In c contents -> In c (observations e1))
    /\ (forall m added,
          In (m, added) res ->
          exists e1,
            getEntityByName m w1 = (Ok (Some e1), w1)
            /\ forall c, In c added -> In c (observations e1))
    /\ (forall m e,
          List.find (fun x => Str.eqb (name x) m) (entities g) = Some e ->
          exists e1,
            getEntityByName m w1 = (Ok (Some e1), w1)
            /\ forall c, In c (observations e) -> In c (observations e1)).
Proof.
  intros H Hc Hw Hall Hn.
  destruct (addObservations_from_loaded pre w g [] H Hc Hw Hall)
    as (w1 & res1 & H1 & Hc1 & Hw1 & Hadd & Hrun).
  cbn [app] in Hrun.
  assert (Hkeep : forall m e,
    List.find (fun x => Str.eqb (name x) m) (entities g) = Some e ->
    exists e1,
      getEntityByName m w1 = (Ok (Some e1), w1)
      /\ incl (observations e) (observations e1)
      /\ forall contents, In (m, contents) pre ->
                          incl contents (observations e1)).
  { intros m e He.
    destruct (fold_add_observations_keeps pre g m e He)
      as (e1 & Hf & Hi & Hcs).
    exists e1. rewrite (getEntityByName_loaded m w1 _ H1 Hc1), Hf.
    split; [reflexivity|]. split; [exact Hi|exact Hcs]. }
  assert (Hpre : forall m contents,
    In (m, contents) pre ->
    exists e1,
      getEntityByName m w1 = (Ok (Some e1), w1)
      /\ forall c, In c contents -> In c (observations e1)).
  { intros m contents Hin. rewrite Forall_forall in Hall.
    pose proof (Hall _ Hin) as Hm. cbn [fst] in Hm.
    destruct (has_entity_find m g Hm) as (e & He).
    destruct (Hkeep m e He) as (e1 & Hg & _ & Hcs).
    exists e1. split; [exact Hg|]. exact (Hcs contents Hin). }
  exists w1, res1, (fold_left add_observations_to pre g).
  unfold addObservations. split; [|split; [|split; [|split; [|split]]]].
  - rewrite <- (app_nil_r pre) at 1. rewrite Hrun. reflexivity.
  - rewrite Hrun. cbn [addObservations_from].
    rewrite (bind_ok _ _ _ _ _ (getEntityByName_loaded n w1 _ H1 Hc1)).
    rewrite find_existsb; [reflexivity|].
    fold (has_entity n (fold_left add_observations_to pre g)).
    rewrite has_entity_fold_add. exact Hn.
  - apply loadFullGraph_loaded. exact H1.
  - reflexivity.
  - exact (proj1 (frame_fold_add pre g)).
  - split; [exact (proj2 (frame_fold_add pre g))|].
    split; [exact Hadd|]. split; [exact Hpre|]. split.
    + intros m added Hin.
      destruct (Forall2_In_r _ _ _ _ Hadd Hin) as ([m' cs'] & Hin' & Em & Hi).
      cbn [fst snd] in Em, Hi. subst m'.
      destruct (Hpre m cs' Hin') as (e1 & Hg & Hcs).
      exists e1. split; [exact Hg|]. intros c Hc'. apply Hcs, Hi, Hc'.
    + intros m e He. destruct (Hkeep m e He) as (e1 & Hg & Hi & _).
      exists e1. split; [exact Hg|exact Hi].
Qed.

Lemma addObservations_batch_witness :
  exists w1 res g1,
    addObservations [(js "Bob", [js "tall"])] (stored path0 people (js "T1"))
    = (Ok res, w1)
    /\ addObservations ([(js "Bob", [js "tall"])]
                        ++ (js "Ghost", [js "pale"]) :: [])
         (stored path0 people (js "T1"))
       = (Throw (NotFound (js "Ghost")), w1)
    /\ loadFullGraph w1 = (Ok g1, w1)
    /\ g1 = fold_left add_observations_to [(js "Bob", [js "tall"])] people
    /\ map name (entities g1) = map name (entities people)
    /\ relations g1 = relations people
    /\ Forall2 (fun item r => fst r = fst item /\ incl (snd r) (snd item))
         [(js "Bob", [js "tall"])] res
    /\ (forall m contents,
          In (m, contents) [(js "Bob", [js "tall"])] ->
          exists e1,
            getEntityByName m w1 = (Ok (Some e1), w1)
            /\ forall c, In c contents -> In c (observations e1))
    /\ (forall m added,
          In (m, added) res ->
          exists e1,
            getEntityByName m w1 = (Ok (Some e1), w1)
            /\ forall c, In c added -> In c (observations e1))
    /\ (forall m e,
          List.find (fun x => Str.eqb (name x) m) (entities people) = Some e ->
          exists e1,
            getEntityByName m w1 = (Ok (Some e1), w1)
            /\ forall c, In c (observations e) -> In c (observations e1)).
Proof.
  apply (addObservations_batch_not_atomic
           (stored path0 people (js "T1")) people
           [(js "Bob", [js "tall"])] [] (js "Ghost") [js "pale"]).
  - split; [reflexivity|].
    exists (fileContent (index_of_graph people (js "T1")) people).
    split; vm_compute; reflexivity.
  - exists (js "T1"). reflexivity.
  - reflexivity.
  - repeat constructor.
  - reflexivity.
Defined.
End LoadedClaims.

Module DecodeFacts.
Import StrDefs CodecDefs Str Json StrFacts CodecFacts.
Import GraphTypes IndexStructures Runtime StorageManager.
Import DecodeDefs IndexFacts.

Lemma traverse_map {A B C} (f : B -> option C) (enc : A -> B) (h : A -> C)
  (xs : list A) :
  (forall x, f (enc x) = Some (h x)) ->
  traverse f (map enc xs) = Some (map h xs).
Proof.
  intros H. induction xs as [|x xs IH]; [reflexivity|].
  cbn [map traverse]. rewrite H, IH. reflexivity.
Qed.

Lemma as_edge_from (x : jstring * jstring) :
  as_edge "relationType" "toEntity" (edge_json "relationType" "toEntity" x)
  = Some x.
Proof. destruct x. reflexivity. Qed.

Lemma as_edge_to (x : jstring * jstring) :
  as_edge "relationType" "fromEntity"
    (edge_json "relationType" "fromEntity" x) = Some x.
Proof. destruct x. reflexivity. Qed.

Lemma as_edge_pair (x : jstring * jstring) :
  as_edge "from" "to" (edge_json "from" "to" x) = Some x.
Proof. destruct x. reflexivity. Qed.

Lemma as_edges_pairs (xs : list (jstring * jstring)) :
  as_edges "from" "to" (Some (JArr (map (edge_json "from" "to") xs)))
  = Some xs.
Proof.
  cbn [as_edges].
  rewrite (traverse_map _ _ (fun x => x) xs as_edge_pair), map_id.
  reflexivity.
Qed.

Lemma as_EntityIndex_json (e : EntityIndex) :
  as_EntityIndex (Some (entityIndex_json e)) = Some e.
Proof.
  destruct e as [n t oc rf rt fp]. unfold as_EntityIndex, entityIndex_json.
  cbn [name entityType observationCount relationsFrom relationsTo
       filePosition].
  change (field "name" _) with (Some (JStr n)).
  change (field "entityType" _) with (Some (JStr t)).
  change (field "observationCount" _) with (Some (Json.of_nat oc)).
  change (field "relationsFrom" _)
    with (Some (JArr (map (edge_json "relationType" "toEntity") rf))).
  change (field "relationsTo" _)
    with (Some (JArr (map (edge_json "relationType" "fromEntity") rt))).
  change (field "filePosition" _) with (Some (Json.of_nat fp)).
  cbn [as_string as_nat as_edges].
  rewrite !to_nat_of_nat.
  rewrite (traverse_map _ _ (fun x => x) rf as_edge_from), map_id.
  rewrite (traverse_map _ _ (fun x => x) rt as_edge_to), map_id.
  reflexivity.
Qed.

Lemma as_IndexMetadata_json (m : IndexMetadata) :
  as_IndexMetadata (Some (metadata_json m)) = Some m.
Proof.
  destruct m as [v ec rc lu ce]. unfold as_IndexMetadata, metadata_json.
  cbn [version entityCount relationCount lastUpdated compressionEnabled].
  change (field "version" _) with (Some (JStr v)).
  change (field "entityCount" _) with (Some (Json.of_nat ec)).
  change (field "relationCount" _) with (Some (Json.of_nat rc)).
  change (field "lastUpdated" _) with (Some (JStr lu)).
  change (field "compressionEnabled" _) with (Some (JBool ce)).
  cbn [as_string as_nat as_bool]. rewrite !to_nat_of_nat. reflexivity.
Qed.

Lemma as_StrSet_json (s : list jstring) :
  as_StrSet (Some (JArr (map JStr s))) = Some (set_of_list s).
Proof.
  cbn [as_StrSet as_string_array]. rewrite as_strings_map. reflexivity.
Qed.

Lemma as_Map_json {V} (rd : option json -> option V) (enc : V -> json)
  (m : Map V) :
  (forall v, rd (Some (enc v)) = Some v) ->
  as_Map rd (Some (JArr (map (fun kv => JArr [JStr (fst kv); enc (snd kv)]) m)))
  = Some (refilled m).
Proof.
  intros H. cbn [as_Map].
  rewrite (traverse_map _ _ (fun kv => kv) m).
  - rewrite map_id. reflexivity.
  - intros [k v]. cbn [as_pair nth_error fst snd]. rewrite H. reflexivity.
Qed.

Lemma as_Map_sets (m : Map (list jstring)) :
  as_Map as_StrSet
    (Some (JArr (map (fun kv => JArr [JStr (fst kv); JArr (map JStr (snd kv))])
                   m)))
  = Some (refilled (map (fun kv => (fst kv, set_of_list (snd kv))) m)).
Proof.
  cbn [as_Map].
  rewrite (traverse_map _ _ (fun kv => (fst kv, set_of_list (snd kv))) m).
  - reflexivity.
  - intros [k v]. cbn [as_pair nth_error fst snd].
    rewrite as_StrSet_json. reflexivity.
Qed.

(** The reconstruction of loadIndex reads the payload of an index back. *)
Lemma as_IndexStructure_serializable (i : IndexStructure) :
  as_IndexStructure (serializableIndex i) = Some (reread i).
Proof.
  unfold as_IndexStructure, serializableIndex.
  change (field "metadata" _) with (Some (metadata_json (metadata i))).
  change (field "entityIndices" _)
    with (Some (JArr (map (fun kv => JArr [JStr (fst kv);
                                           entityIndex_json (snd kv)])
                        (entityIndices i)))).
  change (field "typeIndices" _)
    with (Some (JArr (map (fun kv => JArr [JStr (fst kv);
                                           JArr (map JStr (snd kv))])
                        (typeIndices i)))).
  change (field "relationIndices" _)
    with (Some (JArr (map (fun kv =>
                             JArr [JStr (fst kv);
                                   JArr (map (edge_json "from" "to") (snd kv))])
                        (relationIndices i)))).
  rewrite as_IndexMetadata_json.
  rewrite (as_Map_json as_EntityIndex entityIndex_json _ as_EntityIndex_json).
  rewrite as_Map_sets.
  rewrite (as_Map_json (as_edges "from" "to")
             (fun s => JArr (map (edge_json "from" "to") s)) _ as_edges_pairs).
  reflexivity.
Qed.

Lemma existsb_map_false {A B} (f : A -> B) (p : B -> bool) (xs : list A) :
  (forall x, p (f x) = false) -> existsb p (map f xs) = false.
Proof.
  intros H. induction xs as [|x xs IH]; [reflexivity|].
  cbn [map existsb]. rewrite H, IH. reflexivity.
Qed.

Lemma reconstruct_serializable (i : IndexStructure) :
  reconstruct_throws (serializableIndex i) = false.
Proof.
  unfold reconstruct_throws, serializableIndex, loop_throws.
  change (field "entityIndices" _)
    with (Some (JArr (map (fun kv => JArr [JStr (fst kv);
                                           entityIndex_json (snd kv)])
                        (entityIndices i)))).
  change (field "typeIndices" _)
    with (Some (JArr (map (fun kv => JArr [JStr (fst kv);
                                           JArr (map JStr (snd kv))])
                        (typeIndices i)))).
  change (field "relationIndices" _)
    with (Some (JArr (map (fun kv =>
                             JArr [JStr (fst kv);
                                   JArr (map (edge_json "from" "to") (snd kv))])
                        (relationIndices i)))).
  cbn [iterate].
  rewrite !existsb_map_false; [reflexivity|..].
  - intros [k v]. cbn [iterate second nth_error fst snd].
    apply existsb_map_false. intros [a b]. reflexivity.
  - intros [k v]. reflexivity.
  - intros [k v]. reflexivity.
Qed.

(** *** Maps with each key once *)

Lemma map_set_new {V} (k : jstring) (v : V) (m : Map V) :
  ~ In k (map_keys m) -> map_set k v m = m ++ [(k, v)].
Proof.
  induction m as [|[k0 v0] m IH]; intros H; [reflexivity|].
  cbn [map_set]. destruct (Str.eqb k k0) eqn:E.
  - apply eqb_eq in E. subst k0. exfalso. apply H. left. reflexivity.
  - cbn [app]. f_equal. apply IH. intros Hin. apply H. right. exact Hin.
Qed.

Lemma refill_from {V} (m : Map V) :
  forall acc, NoDup (map_keys (acc ++ m)) ->
  fold_left (fun m kv => map_set (fst kv) (snd kv) m) m acc = acc ++ m.
Proof.
  induction m as [|[k v] m IH]; intros acc H.
  - cbn. rewrite app_nil_r. reflexivity.
  - cbn [fold_left fst snd]. rewrite map_set_new.
    + rewrite IH; rewrite <- app_assoc; [reflexivity|exact H].
    + unfold map_keys in *. rewrite map_app in H. cbn [map fst] in H.
      apply NoDup_remove_2 in H. intros Hin. apply H.
      apply in_or_app. left. exact Hin.
Qed.

Lemma refilled_canonical {V} (m : Map V) :
  NoDup (map_keys m) -> refilled m = m.
Proof. intros H. exact (refill_from m [] H). Qed.

Lemma set_has_In (x : jstring) (s : StrSet) : set_has x s = true <-> In x s.
Proof.
  unfold set_has. rewrite existsb_exists. split.
  - intros (y & Hy & E). apply eqb_eq in E. subst y. exact Hy.
  - intros H. exists x. split; [exact H|apply eqb_refl].
Qed.

Lemma set_add_new (x : jstring) (s : StrSet) :
  ~ In x s -> set_add x s = s ++ [x].
Proof.
  intros H. unfold set_add. destruct (set_has x s) eqn:E; [|reflexivity].
  apply set_has_In in E. contradiction.
Qed.

Lemma set_of_list_from (xs : list jstring) :
  forall acc, NoDup (acc ++ xs) ->
  fold_left (fun s x => set_add x s) xs acc = acc ++ xs.
Proof.
  induction xs as [|x xs IH]; intros acc H.
  - cbn. rewrite app_nil_r. reflexivity.
  - cbn [fold_left]. rewrite set_add_new.
    + rewrite IH; rewrite <- app_assoc; [reflexivity|exact H].
    + apply NoDup_remove_2 in H. intros Hin. apply H.
      apply in_or_app. left. exact Hin.
Qed.

Lemma set_of_list_NoDup (xs : list jstring) :
  NoDup xs -> set_of_list xs = xs.
Proof. intros H. exact (set_of_list_from xs [] H). Qed.

Lemma map_sets_canonical (m : Map StrSet) :
  Forall (fun kv => NoDup (snd kv)) m ->
  map (fun kv => (fst kv, set_of_list (snd kv))) m = m.
Proof.
  induction 1 as [|[k s] m H _ IH]; [reflexivity|].
  cbn [map fst snd]. cbn [snd] in H. rewrite (set_of_list_NoDup s H), IH.
  reflexivity.
Qed.

Lemma reread_canonical (i : IndexStructure) : canonical i -> reread i = i.
Proof.
  intros (H1 & H2 & H3 & H4). unfold reread.
  rewrite (map_sets_canonical _ H3).
  rewrite !refilled_canonical by assumption.
  destruct i. reflexivity.
Qed.

(** *** The index of a graph is canonical *)

Lemma keys_map_set {V} (k : jstring) (v : V) (m : Map V) :
  map_keys (map_set k v m)
  = if map_has k m then map_keys m else map_keys m ++ [k].
Proof.
  unfold map_has.
  induction m as [|[k0 v0] m IH]; [reflexivity|].
  cbn [map_set map_get]. destruct (Str.eqb k k0) eqn:E; [reflexivity|].
  unfold map_keys in *. cbn [map fst]. rewrite IH.
  destruct (map_get k m); reflexivity.
Qed.

Lemma map_has_In {V} (k : jstring) (m : Map V) :
  map_has k m = true <-> In k (map_keys m).
Proof.
  unfold map_has. induction m as [|[k0 v0] m IH]; cbn [map_get map_keys map fst In].
  - split; [discriminate|contradiction].
  - destruct (Str.eqb k k0) eqn:E.
    + apply eqb_eq in E. subst. split; [left; reflexivity|reflexivity].
    + apply eqb_neq in E. rewrite IH. split; [right; assumption|].
      intros [H|H]; [congruence|exact H].
Qed.

Lemma NoDup_snoc {A} (xs : list A) (x : A) :
  NoDup xs -> ~ In x xs -> NoDup (xs ++ [x]).
Proof.
  intros H Hn. apply NoDup_app; [exact H|repeat constructor; intros []|].
  intros y Hy [E|[]]. subst. contradiction.
Qed.

Lemma keys_set_NoDup {V} (k : jstring) (v : V) (m : Map V) :
  NoDup (map_keys m) -> NoDup (map_keys (map_set k v m)).
Proof.
  intros H. rewrite keys_map_set. destruct (map_has k m) eqn:E; [exact H|].
  apply NoDup_snoc; [exact H|]. intros Hin. apply map_has_In in Hin.
  congruence.
Qed.

Lemma keys_map_update {V} (k : jstring) (f : V -> V) (m : Map V) :
  map_keys (map_update k f m) = map_keys m.
Proof.
  unfold map_update. destruct (map_get k m) eqn:E; [|reflexivity].
  rewrite keys_map_set. unfold map_has. rewrite E. reflexivity.
Qed.

Lemma Forall_map_set {V} (P : jstring * V -> Prop) (k : jstring) (v : V)
  (m : Map V) :
  (forall k', P (k', v)) -> Forall P m -> Forall P (map_set k v m).
Proof.
  intros Hv H. induction H as [|[k0 v0] m H0 H IH]; cbn [map_set].
  - constructor; [apply Hv|constructor].
  - destruct (Str.eqb k k0); constructor;
      [apply Hv|exact H|exact H0|exact IH].
Qed.

Lemma map_get_In {V} (k : jstring) (v : V) (m : Map V) :
  map_get k m = Some v -> exists k', In (k', v) m.
Proof.
  induction m as [|[k0 v0] m IH]; cbn [map_get]; [discriminate|].
  destruct (Str.eqb k k0).
  - intros E. injection E as ->. exists k0. left. reflexivity.
  - intros E. destruct (IH E) as (k' & Hk). exists k'. right. exact Hk.
Qed.

Lemma Forall_map_update {V} (Q : V -> Prop) (k : jstring) (f : V -> V)
  (m : Map V) :
  (forall v, Q v -> Q (f v)) ->
  Forall (fun kv => Q (snd kv)) m ->
  Forall (fun kv => Q (snd kv)) (map_update k f m).
Proof.
  intros Hf H. unfold map_update. destruct (map_get k m) as [v|] eqn:E;
    [|exact H].
  apply Forall_map_set; [|exact H]. intros k'. cbn [snd]. apply Hf.
  destruct (map_get_In _ _ _ E) as (k0 & Hin).
  rewrite Forall_forall in H. exact (H _ Hin).
Qed.

Lemma set_add_NoDup (x : jstring) (s : StrSet) :
  NoDup s -> NoDup (set_add x s).
Proof.
  intros H. unfold set_add. destruct (set_has x s) eqn:E; [exact H|].
  apply NoDup_snoc; [exact H|]. intros Hin. apply set_has_In in Hin.
  congruence.
Qed.

Lemma canonical_set_entityIndices (m : Map EntityIndex) (i : IndexStructure) :
  canonical i -> NoDup (map_keys m) -> canonical (set_entityIndices m i).
Proof. intros (H1 & H2 & H3 & H4) H. repeat split; assumption. Qed.

Lemma canonical_set_typeIndices (m : Map StrSet) (i : IndexStructure) :
  canonical i -> NoDup (map_keys m) -> Forall (fun kv => NoDup (snd kv)) m ->
  canonical (set_typeIndices m i).
Proof. intros (H1 & H2 & H3 & H4) H H'. repeat split; assumption. Qed.

Lemma canonical_set_relationIndices (m : Map (list (jstring * jstring)))
  (i : IndexStructure) :
  canonical i -> NoDup (map_keys m) -> canonical (set_relationIndices m i).
Proof. intros (H1 & H2 & H3 & H4) H. repeat split; assumption. Qed.

Lemma canonical_update_types (k x : jstring) (i : IndexStructure) :
  canonical i ->
  canonical (set_typeIndices (map_update k (set_add x) (typeIndices i)) i).
Proof.
  intros H. apply canonical_set_typeIndices; [exact H| |].
  - rewrite keys_map_update. exact (proj1 (proj2 H)).
  - apply Forall_map_update; [intros v; apply set_add_NoDup|].
    exact (proj1 (proj2 (proj2 H))).
Qed.

Lemma canonical_index_entities (es : list Entity) :
  forall p i, canonical i -> canonical (index_entities es p i).
Proof.
  induction es as [|e es IH]; intros p i H; [exact H|].
  cbn [index_entities]. cbv zeta. apply IH.
  apply canonical_update_types.
  assert (H1 : canonical
                 (set_entityIndices
                    (map_set (GraphTypes.name e)
                       {| name := GraphTypes.name e;
                          entityType := GraphTypes.entityType e;
                          observationCount := length (observations e);
                          relationsFrom := []; relationsTo := [];
                          filePosition := p |} (entityIndices i)) i)).
  { apply canonical_set_entityIndices; [exact H|].
    apply keys_set_NoDup. exact (proj1 H). }
  match goal with |- context [if ?b then _ else _] => destruct b end;
    [|exact H1].
  apply canonical_set_typeIndices; [exact H1| |].
  - apply keys_set_NoDup. exact (proj1 (proj2 H1)).
  - apply Forall_map_set; [intros k'; constructor|].
    exact (proj1 (proj2 (proj2 H1))).
Qed.

Lemma canonical_update_entities (k : jstring) (f : EntityIndex -> EntityIndex)
  (i : IndexStructure) :
  canonical i ->
  canonical (set_entityIndices (map_update k f (entityIndices i)) i).
Proof.
  intros H. apply canonical_set_entityIndices; [exact H|].
  rewrite keys_map_update. exact (proj1 H).
Qed.

Lemma canonical_index_relation (i : IndexStructure) (r : Relation) :
  canonical i -> canonical (index_relation i r).
Proof.
  intros H. unfold index_relation. cbv zeta.
  apply canonical_set_relationIndices.
  - match goal with |- context [if ?b then _ else _] => destruct b end.
    + apply canonical_set_relationIndices.
      * apply canonical_update_entities, canonical_update_entities, H.
      * apply keys_set_NoDup.
        exact (proj2 (proj2 (proj2
                 (canonical_update_entities _ _ _
                    (canonical_update_entities _ _ _ H))))).
    + apply canonical_update_entities, canonical_update_entities, H.
  - rewrite keys_map_update.
    match goal with |- context [if ?b then _ else _] => destruct b end.
    + cbn [set_relationIndices relationIndices]. apply keys_set_NoDup.
      exact (proj2 (proj2 (proj2 H))).
    + exact (proj2 (proj2 (proj2 H))).
Qed.

Lemma canonical_index_of_graph (g : KnowledgeGraph) (t : jstring) :
  canonical (index_of_graph g t).
Proof.
  unfold index_of_graph. cbv zeta.
  generalize (relations g). intros rs.
  match goal with |- canonical (fold_left _ _ ?i) =>
    assert (H : canonical i)
  end.
  { apply canonical_index_entities. repeat split; constructor. }
  revert H. generalize (index_entities (entities g) 0
    {| metadata :=
         {| version := version (metadata (createEmptyIndex t));
            entityCount := length (entities g);
            relationCount := length rs;
            lastUpdated := t;
            compressionEnabled :=
              compressionEnabled (metadata (createEmptyIndex t)) |};
       entityIndices := entityIndices (createEmptyIndex t);
       typeIndices := typeIndices (createEmptyIndex t);
       relationIndices := relationIndices (createEmptyIndex t) |}).
  induction rs as [|r rs IH]; intros i H; [exact H|].
  cbn [fold_left]. apply IH. apply canonical_index_relation. exact H.
Qed.

(** The payload written for the index of a graph reads back as that
    index. *)
Lemma as_IndexStructure_index_of_graph (g : KnowledgeGraph) (t : jstring) :
  as_IndexStructure (serializableIndex (index_of_graph g t))
  = Some (index_of_graph g t).
Proof.
  rewrite as_IndexStructure_serializable.
  rewrite (reread_canonical _ (canonical_index_of_graph g t)). reflexivity.
Qed.
End DecodeFacts.

Module LoadFacts.
Import StrDefs CodecDefs Str Json JsonDefs StrFacts JsonFacts ParserFacts CodecFacts.
Import GraphTypes IndexStructures Runtime StorageManager.
Import FileDefs FileFacts MarkerFacts RunDefs RunFacts DecodeDefs DecodeFacts LoadDefs.
Local Open Scope monad_scope.

Lemma try_catch_ext {W A} (m m' : M W A) h (w : W) :
  m w = m' w -> try_catch m h w = try_catch m' h w.
Proof. unfold try_catch. intros ->. reflexivity. Qed.

Lemma loadIndex_existing (w : World) (d : jstring) :
  isIndexLoaded (this w) = false -> file_of w = Some d ->
  includes d INDEX_MARKER_START = true ->
  loadIndex w = try_catch (read_index d) reset_index w.
Proof.
  intros Hl Hf Hi. unfold loadIndex. unfold bind at 1. unfold gets at 1.
  rewrite Hl. apply try_catch_ext.
  unfold bind at 1. unfold gets at 1.
  unfold bind at 1. unfold try_catch at 1. unfold bind at 1.
  unfold fs_access at 1. unfold file_of in Hf. rewrite Hf.
  unfold ret at 1. unfold bind at 1. unfold fs_readFile at 1. rewrite Hf.
  rewrite Hi. reflexivity.
Qed.

(** rebuildIndex on a file whose data section reads as [g]. *)
Lemma rebuildIndex_writable (w : World) (d : jstring) (g : KnowledgeGraph) :
  file_of w = Some d -> graph_of_file d = Some g ->
  writable (disk w) = true ->
  rebuildIndex w
  = (Ok (index_of_graph g (now w)),
     if includes d DATA_MARKER_START
     then set_isIndexLoaded true (saved g w) else saved g w).
Proof.
  intros Hf Hg Hw. unfold rebuildIndex. apply try_ok.
  unfold bind at 1. unfold gets at 1. unfold bind at 1.
  unfold fs_readFile at 1. unfold file_of in Hf. rewrite Hf.
  cbv zeta. unfold graph_of_file in Hg.
  unfold includes, indexOf in *.
  destruct (find DATA_MARKER_START d) as [k|] eqn:Ek.
  - replace (Z.of_nat k =? -1)%Z with false in *
      by (symmetry; apply Z.eqb_neq; lia).
    rewrite Hg.
    cbv beta iota delta [typed ret bind buildIndexFromGraph modify
      saveIndexAndData gets fs_writeFile].
    cbn [set_indexStructure disk writable this].
    rewrite Hw. reflexivity.
  - change (-1 =? -1)%Z with true in *. cbv iota in *.
    unfold migrateFromLegacyFormat. rewrite Hg.
    cbv beta iota delta [typed ret bind buildIndexFromGraph modify
      saveIndexAndData gets fs_writeFile].
    cbn [set_indexStructure disk writable this].
    rewrite Hw. reflexivity.
Qed.

Lemma rebuildIndex_read_only (w : World) (d : jstring) (g : KnowledgeGraph) :
  file_of w = Some d -> graph_of_file d = Some g ->
  writable (disk w) = false ->
  rebuildIndex w
  = (Throw IOError, set_indexStructure (createEmptyIndex (now w)) w).
Proof.
  intros Hf Hg Hw. unfold rebuildIndex.
  assert (Ht : exists i,
    (p <- gets (fun w => memoryFilePath (this w)) ;;
     data <- fs_readFile p ;;
     let dataStartPos := indexOf data DATA_MARKER_START in
     if (dataStartPos =? -1)%Z then migrateFromLegacyFormat data
     else
       let dataContent :=
         trim (substringFrom data
                 (dataStartPos + Z.of_nat (length DATA_MARKER_START))) in
       graph <- typed (parseLegacyFormat dataContent) ;;
       buildIndexFromGraph graph ;;
       saveIndexAndData graph ;;
       modify (set_isIndexLoaded true) ;;
       gets (fun w => indexStructure (this w))) w
    = (Throw IOError, set_indexStructure i w)).
  { exists (index_of_graph g (now w)).
    unfold bind at 1. unfold gets at 1. unfold bind at 1.
    unfold fs_readFile at 1. unfold file_of in Hf. rewrite Hf.
    cbv zeta. unfold graph_of_file in Hg.
    destruct (indexOf d DATA_MARKER_START =? -1)%Z.
    - unfold migrateFromLegacyFormat. rewrite Hg.
      cbv beta iota delta [typed ret bind buildIndexFromGraph modify
        saveIndexAndData gets fs_writeFile].
      cbn [set_indexStructure disk writable this].
      rewrite Hw. reflexivity.
    - rewrite Hg.
      cbv beta iota delta [typed ret bind buildIndexFromGraph modify
        saveIndexAndData gets fs_writeFile].
      cbn [set_indexStructure disk writable this].
      rewrite Hw. reflexivity. }
  destruct Ht as (i & Ht). rewrite (try_throw _ _ _ _ _ Ht).
  cbv beta iota delta [ret bind modify saveIndexAndEmptyData
    saveIndexAndData gets fs_writeFile].
  cbn [set_indexStructure disk writable this now].
  rewrite Hw. reflexivity.
Qed.

(** *** The index text of a saved file *)

Lemma trimEnd_prefix (s : jstring) :
  exists sp, s = trimEnd s ++ sp /\ all_space sp.
Proof.
  unfold trimEnd. destruct (trimStart_suffix (rev s)) as (pre & E & Hp).
  exists (rev pre). split.
  - rewrite <- rev_app_distr, <- E, rev_involutive. reflexivity.
  - apply Forall_rev. exact Hp.
Qed.

Lemma trimEnd_head (c : ascii) (s : jstring) :
  is_space c = false -> exists t, trimEnd (c :: s) = c :: t.
Proof.
  intros H. unfold trimEnd. cbn [rev].
  destruct (trimStart_last (rev s) c H) as (z & ->).
  rewrite rev_app_distr. exists (rev z). reflexivity.
Qed.

Lemma trimEnd_snoc_space (s : jstring) (c : ascii) :
  is_space c = true -> trimEnd (s ++ [c]) = trimEnd s.
Proof.
  intros H. unfold trimEnd. rewrite rev_app_distr. cbn [rev app trimStart].
  rewrite H. reflexivity.
Qed.

Lemma payload_braces (i : IndexStructure) : braces (payload i).
Proof.
  unfold payload, stringify_indent2, serializableIndex.
  cbn [stringify_gen]. eexists. rewrite app_assoc. rewrite app_assoc.
  reflexivity.
Qed.

Lemma parse_payload (i : IndexStructure) :
  Json.parse (payload i) = Some (serializableIndex i).
Proof.
  apply parse_stringify_indent2, plain_wf, plain_index.
Qed.

Lemma trim_payload_line (i : IndexStructure) :
  trim (newline :: payload i ++ [newline]) = payload i.
Proof.
  destruct (payload_braces i) as (t & E). rewrite E.
  unfold trim. cbn [trimStart app].
  change (is_space newline) with true. cbv iota.
  change (is_space "{"%char) with false. cbv iota.
  change ("{"%char :: (t ++ ["}"%char]) ++ [newline])
    with (("{"%char :: t ++ ["}"%char]) ++ [newline]).
  rewrite trimEnd_snoc_space by reflexivity.
  change ("{"%char :: t ++ ["}"%char]) with (("{"%char :: t) ++ ["}"%char]).
  apply trimEnd_keep. reflexivity.
Qed.

Lemma find_end_marker (i : IndexStructure) (g : KnowledgeGraph) :
  find INDEX_MARKER_END (fileContent i g)
  = Some (length INDEX_MARKER_START + 1
          + match find INDEX_MARKER_END (payload i) with
            | Some j => j
            | None => length (payload i) + 1
            end).
Proof.
  rewrite fileContent_eq.
  rewrite find_line by (exact one_line_end_marker || discriminate).
  change (find INDEX_MARKER_END INDEX_MARKER_START) with (@None nat).
  cbv iota.
  rewrite find_line by (exact one_line_end_marker || discriminate).
  destruct (find INDEX_MARKER_END (payload i)) as [j|]; [reflexivity|].
  rewrite find_head. cbn [option_map]. rewrite Nat.add_0_r. reflexivity.
Qed.

Lemma find_start_marker (i : IndexStructure) (g : KnowledgeGraph) :
  find INDEX_MARKER_START (fileContent i g) = Some 0.
Proof. rewrite fileContent_eq. apply find_head. Qed.

Lemma start_marker_saved (i : IndexStructure) (g : KnowledgeGraph) :
  includes (fileContent i g) INDEX_MARKER_START = true.
Proof. unfold includes. rewrite find_start_marker. reflexivity. Qed.

Lemma end_after_start (i : IndexStructure) (g : KnowledgeGraph) :
  (indexOf (fileContent i g) INDEX_MARKER_END =? -1)%Z
  || (indexOf (fileContent i g) INDEX_MARKER_END
      <=? indexOf (fileContent i g) INDEX_MARKER_START
          + Z.of_nat (length INDEX_MARKER_START))%Z = false.
Proof.
  unfold indexOf. rewrite find_end_marker, find_start_marker.
  apply orb_false_iff. split; [apply Z.eqb_neq|apply Z.leb_gt]; lia.
Qed.

Lemma index_text_saved (i : IndexStructure) (g : KnowledgeGraph) :
  index_text (fileContent i g)
  = trim (newline ::
          firstn (match find INDEX_MARKER_END (payload i) with
                  | Some j => j
                  | None => length (payload i) + 1
                  end)
            (payload i ++ newline :: INDEX_MARKER_END
               ++ newline :: DATA_MARKER_START ++ data_text g)).
Proof.
  unfold index_text, indexOf. rewrite find_end_marker, find_start_marker.
  set (x := match find INDEX_MARKER_END (payload i) with
            | Some j => j
            | None => length (payload i) + 1
            end).
  unfold substring, slice. cbv zeta.
  replace (Z.to_nat (Z.max 0 (Z.of_nat 0
             + Z.of_nat (length INDEX_MARKER_START))))
    with (length INDEX_MARKER_START) by lia.
  replace (Z.to_nat (Z.max 0 (Z.of_nat (length INDEX_MARKER_START + 1 + x))))
    with (length INDEX_MARKER_START + 1 + x) by lia.
  replace (Nat.min (length INDEX_MARKER_START)
             (length INDEX_MARKER_START + 1 + x))
    with (length INDEX_MARKER_START + 0) by lia.
  replace (Nat.max (length INDEX_MARKER_START)
             (length INDEX_MARKER_START + 1 + x))
    with (length INDEX_MARKER_START + 1 + x) by lia.
  replace (length INDEX_MARKER_START + 1 + x - (length INDEX_MARKER_START + 0))
    with (S x) by lia.
  rewrite fileContent_eq, skipn_app_length. reflexivity.
Qed.

Lemma index_text_intact (i : IndexStructure) (g : KnowledgeGraph) :
  find INDEX_MARKER_END (payload i) = None ->
  index_text (fileContent i g) = payload i.
Proof.
  intros H. rewrite index_text_saved, H.
  rewrite firstn_app_2.
  change (firstn 1 (newline :: ?r)) with [newline].
  apply trim_payload_line.
Qed.

Lemma end_marker_not_ws : ~ all_ws INDEX_MARKER_END.
Proof. intros H. inversion H as [|? ? Hc _]. discriminate Hc. Qed.

Lemma index_text_cut (i : IndexStructure) (g : KnowledgeGraph) (j : nat) :
  find INDEX_MARKER_END (payload i) = Some j ->
  exists q, payload i = index_text (fileContent i g) ++ q
            /\ ~ all_ws q
            /\ hd " "%char (index_text (fileContent i g)) = "{"%char.
Proof.
  intros H. rewrite index_text_saved, H.
  destruct (find_Some _ _ _ H) as (pre & E & Hlen).
  set (rest := skipn (j + length INDEX_MARKER_END) (payload i)) in *.
  assert (Ht : forall X, firstn j (payload i ++ X) = pre).
  { intros X. rewrite E, <- app_assoc. subst j.
    rewrite <- (Nat.add_0_r (length pre)), firstn_app_2.
    cbn [firstn]. apply app_nil_r. }
  rewrite Ht.
  destruct (payload_braces i) as (t & Et).
  destruct pre as [|c pre].
  - exfalso. rewrite Et in E. cbn [app] in E. discriminate E.
  - assert (c = "{"%char) by (rewrite Et in E; cbn [app] in E; congruence).
    subst c. unfold trim. cbn [trimStart].
    change (is_space newline) with true. cbv iota.
    change (is_space "{"%char) with false. cbv iota.
    destruct (trimEnd_prefix ("{"%char :: pre)) as (sp & Ep & Hsp).
    destruct (trimEnd_head "{"%char pre eq_refl) as (z & Ez).
    exists (sp ++ INDEX_MARKER_END ++ rest). split; [|split].
    + rewrite app_assoc, <- Ep. exact E.
    + intros Hq. apply Forall_app in Hq. destruct Hq as [_ Hq].
      apply Forall_app in Hq. destruct Hq as [Hq _].
      exact (end_marker_not_ws Hq).
    + rewrite Ez. reflexivity.
Qed.

Lemma parse_index_text_cut (i : IndexStructure) (g : KnowledgeGraph) (j : nat) :
  find INDEX_MARKER_END (payload i) = Some j ->
  Json.parse (index_text (fileContent i g)) = None.
Proof.
  intros H. destruct (index_text_cut i g j H) as (q & E & Hq & Hh).
  pose proof (parse_payload i) as Hp. rewrite E in Hp.
  unfold serializableIndex in Hp.
  exact (parse_prefix_free _ _ _ Hp Hq Hh).
Qed.

(** *** loadIndex on a saved file *)

Lemma loadIndex_saved_intact (w : World) (i : IndexStructure)
  (g : KnowledgeGraph) :
  isIndexLoaded (this w) = false -> file_of w = Some (fileContent i g) ->
  find INDEX_MARKER_END (payload i) = None ->
  loadIndex w
  = (Ok (reread i), set_isIndexLoaded true (set_indexStructure (reread i) w)).
Proof.
  intros Hl Hf He.
  rewrite (loadIndex_existing w _ Hl Hf (start_marker_saved i g)).
  apply try_ok. unfold read_index. cbv zeta.
  rewrite end_after_start, (index_text_intact i g He), parse_payload.
  rewrite reconstruct_serializable, as_IndexStructure_serializable.
  reflexivity.
Qed.

Lemma loadIndex_saved_cut (w : World) (i : IndexStructure)
  (g : KnowledgeGraph) (j : nat) :
  isIndexLoaded (this w) = false -> file_of w = Some (fileContent i g) ->
  find INDEX_MARKER_END (payload i) = Some j ->
  loadIndex w = try_catch rebuildIndex reset_index w.
Proof.
  intros Hl Hf He.
  rewrite (loadIndex_existing w _ Hl Hf (start_marker_saved i g)).
  apply try_catch_ext. unfold read_index. cbv zeta.
  rewrite end_after_start, (parse_index_text_cut i g j He). reflexivity.
Qed.

(** loadIndex on a saved file returns an index and leaves a file with the
    same data section. *)
Lemma loadIndex_saved_file (w : World) (i : IndexStructure)
  (g : KnowledgeGraph) :
  isIndexLoaded (this w) = false -> file_of w = Some (fileContent i g) ->
  exists i' w', loadIndex w = (Ok i', w') /\ holds w' g.
Proof.
  intros Hl Hf.
  assert (Hg : graph_of_file (fileContent i g) = Some g)
    by apply graph_of_fileContent.
  destruct (find INDEX_MARKER_END (payload i)) as [j|] eqn:He.
  - rewrite (loadIndex_saved_cut w i g j Hl Hf He).
    destruct (writable (disk w)) eqn:Hw.
    + rewrite (try_ok _ _ _ _ _ (rebuildIndex_writable w _ g Hf Hg Hw)).
      rewrite includes_data_marker.
      eexists. eexists. split; [reflexivity|].
      exists (fileContent (index_of_graph g (now w)) g). split.
      * unfold file_of, saved, set_isIndexLoaded.
        cbn [this disk files memoryFilePath]. apply lookup_store.
      * apply graph_of_fileContent.
    + rewrite (try_throw _ _ _ _ _ (rebuildIndex_read_only w _ g Hf Hg Hw)).
      eexists. eexists. split; [reflexivity|].
      exists (fileContent i g). split; [exact Hf|exact Hg].
  - rewrite (loadIndex_saved_intact w i g Hl Hf He).
    eexists. eexists. split; [reflexivity|].
    exists (fileContent i g). split; [exact Hf|exact Hg].
Qed.

(** loadFullGraph on a saved file, whatever the manager has cached. *)
Lemma loadFullGraph_saved_file (w : World) (i : IndexStructure)
  (g : KnowledgeGraph) :
  file_of w = Some (fileContent i g) -> fst (loadFullGraph w) = Ok g.
Proof.
  intros Hf. destruct (isIndexLoaded (this w)) eqn:Hl.
  - rewrite (loadFullGraph_loaded w g); [reflexivity|].
    split; [exact Hl|]. exists (fileContent i g).
    split; [exact Hf|apply graph_of_fileContent].
  - destruct (loadIndex_saved_file w i g Hl Hf)
      as (i' & w' & Hrun & d & Hd & Hg).
    unfold loadFullGraph.
    erewrite try_ok; [reflexivity|].
    rewrite (bind_ok _ _ _ _ _ Hrun).
    exact (read_data_section w' d g Hd Hg).
Qed.
End LoadFacts.

Module TimeFacts.
Import StrDefs Str Json StrFacts.
Import GraphTypes IndexStructures Runtime StorageManager.
Import FileDefs RunDefs RunFacts DecodeDefs DecodeFacts LoadDefs LoadFacts TimeDefs.

Lemma index_entities_metadata (m : IndexMetadata) (es : list Entity) :
  forall p i,
    index_entities es p (set_metadata m i)
    = set_metadata m (index_entities es p i).
Proof.
  induction es as [|e es IH]; intros p i; [reflexivity|].
  cbn [index_entities]. cbv zeta. rewrite <- IH. f_equal.
  cbn [set_metadata set_entityIndices entityIndices typeIndices].
  destruct (negb (map_has (GraphTypes.entityType e) (typeIndices i)));
    reflexivity.
Qed.

Lemma index_relation_metadata (m : IndexMetadata) (i : IndexStructure)
  (r : Relation) :
  index_relation (set_metadata m i) r = set_metadata m (index_relation i r).
Proof.
  unfold index_relation. cbv zeta.
  cbn [set_metadata set_entityIndices entityIndices relationIndices].
  destruct (negb (map_has (relationType r) (relationIndices i)));
    reflexivity.
Qed.

Lemma index_relations_metadata (m : IndexMetadata) (rs : list Relation) :
  forall i,
    fold_left index_relation rs (set_metadata m i)
    = set_metadata m (fold_left index_relation rs i).
Proof.
  induction rs as [|r rs IH]; intros i; [reflexivity|].
  cbn [fold_left]. rewrite index_relation_metadata. apply IH.
Qed.

(** The time stamp is all that the moment of indexing leaves in the index
    of a graph. *)
Lemma index_of_graph_time (g : KnowledgeGraph) (t t' : jstring) :
  index_of_graph g t
  = set_metadata
      {| version := js "1.0.0";
         entityCount := length (entities g);
         relationCount := length (relations g);
         lastUpdated := t;
         compressionEnabled := false |}
      (index_of_graph g t').
Proof.
  unfold index_of_graph. cbv zeta.
  rewrite <- index_relations_metadata, <- index_entities_metadata.
  reflexivity.
Qed.

Lemma metadata_index_of_graph (g : KnowledgeGraph) (t : jstring) :
  metadata (index_of_graph g t)
  = {| version := js "1.0.0";
       entityCount := length (entities g);
       relationCount := length (relations g);
       lastUpdated := t;
       compressionEnabled := false |}.
Proof.
  transitivity
    (metadata (set_metadata
                 {| version := js "1.0.0";
                    entityCount := length (entities g);
                    relationCount := length (relations g);
                    lastUpdated := t;
                    compressionEnabled := false |}
                 (index_of_graph g t)));
    [f_equal; apply index_of_graph_time|reflexivity].
Qed.

Lemma maps_index_of_graph (g : KnowledgeGraph) (t t' : jstring) :
  entityIndices (index_of_graph g t) = entityIndices (index_of_graph g t')
  /\ typeIndices (index_of_graph g t) = typeIndices (index_of_graph g t')
  /\ relationIndices (index_of_graph g t)
     = relationIndices (index_of_graph g t').
Proof.
  rewrite (index_of_graph_time g t t'). repeat split; reflexivity.
Qed.
End TimeFacts.

Module FileClaims.
Import StrDefs Str Json StrFacts.
Import GraphTypes IndexStructures Runtime StorageManager.
Import FileDefs MarkerFacts RunDefs RunFacts DecodeDefs DecodeFacts.
Import LoadDefs LoadFacts TimeDefs TimeFacts Samples.
Local Open Scope monad_scope.

(** C1: when saveIndexAndData of a graph succeeds, loadFullGraph returns
    that graph, the same entities and relations in the same order, both on
    the manager that saved it and on a manager constructed afterwards on
    the same file. *)
Theorem saveIndexAndData_then_loadFullGraph (g : KnowledgeGraph)
  (w w1 : World) (t : jstring) :
  saveIndexAndData g w = (Ok tt, w1) ->
  fst (loadFullGraph w1) = Ok g
  /\ fst (loadFullGraph (reopened w1 t)) = Ok g.
Proof.
  intros H.
  assert (Hf : file_of w1 = Some (fileContent (indexStructure (this w)) g)).
  { revert H. unfold saveIndexAndData.
    cbv beta iota delta [bind gets fs_writeFile].
    destruct (writable (disk w)); [|discriminate].
    intros E. injection E as <-. unfold file_of, set_files.
    cbn [this disk files memoryFilePath]. apply lookup_store. }
  split.
  - exact (loadFullGraph_saved_file w1 _ g Hf).
  - apply (loadFullGraph_saved_file (reopened w1 t)
             (indexStructure (this w)) g).
    exact Hf.
Qed.

Lemma saveIndexAndData_then_loadFullGraph_witness :
  fst (loadFullGraph (snd (saveIndexAndData people
                             (stored path0 emptyGraph (js "T1")))))
  = Ok people
  /\ fst (loadFullGraph
            (reopened (snd (saveIndexAndData people
                              (stored path0 emptyGraph (js "T1"))))
               (js "T2")))
     = Ok people.
Proof.
  apply (saveIndexAndData_then_loadFullGraph people
           (stored path0 emptyGraph (js "T1"))).
  vm_compute. reflexivity.
Defined.

(** C2: a manager that has not loaded its index, on a disk that accepts
    writes, reads a file that holds the start marker, whose index payload
    is corrupt (no end marker, an end marker that does not come after the
    start marker, or a text between them that is not JSON) and whose data
    section reads as a graph: loadIndex raises nothing, does what
    rebuildIndex does, and returns the index of that graph. *)
Theorem loadIndex_corrupt_payload_rebuilds (w : World) (d : jstring)
  (g : KnowledgeGraph) :
  isIndexLoaded (this w) = false -> file_of w = Some d ->
  includes d INDEX_MARKER_START = true -> index_payload_corrupt d ->
  graph_of_file d = Some g -> writable (disk w) = true ->
  loadIndex w = rebuildIndex w
  /\ fst (loadIndex w) = Ok (index_of_graph g (now w)).
Proof.
  intros Hl Hf Hi Hc Hg Hw.
  pose proof (rebuildIndex_writable w d g Hf Hg Hw) as Hr.
  assert (E : loadIndex w = rebuildIndex w).
  { rewrite (loadIndex_existing w d Hl Hf Hi).
    assert (Hread : read_index d w = rebuildIndex w).
    { unfold read_index. cbv zeta.
      destruct Hc as [Hc|[Hc|Hc]].
      - rewrite Hc. reflexivity.
      - apply Z.leb_le in Hc. rewrite Hc, orb_true_r. reflexivity.
      - rewrite Hc. destruct (_ || _); reflexivity. }
    unfold try_catch. rewrite Hread, Hr. reflexivity. }
  split; [exact E|]. rewrite E, Hr. reflexivity.
Qed.

Lemma loadIndex_corrupt_payload_witness :
  loadIndex (on_disk path0 truncated_file (js "T2"))
  = rebuildIndex (on_disk path0 truncated_file (js "T2"))
  /\ fst (loadIndex (on_disk path0 truncated_file (js "T2")))
     = Ok (index_of_graph {| entities := [alice]; relations := [] |}
             (now (on_disk path0 truncated_file (js "T2")))).
Proof.
  apply (loadIndex_corrupt_payload_rebuilds
           (on_disk path0 truncated_file (js "T2")) truncated_file
           {| entities := [alice]; relations := [] |}).
  - reflexivity.
  - vm_compute. reflexivity.
  - vm_compute. reflexivity.
  - right. right. vm_compute. reflexivity.
  - vm_compute. reflexivity.
  - reflexivity.
Defined.

(** C9 (amended): a manager that has not loaded its index, on a disk that
    accepts writes, reads a file saved with the index of its graph:
    loadIndex and rebuildIndex both return an index, and the two agree on
    the three maps and on the version, the counts and the compression flag
    of the metadata. The time stamp is that of the rebuild in the index of
    rebuildIndex, and that of the save in the index that loadIndex parses
    from a payload that holds no end marker. *)
Theorem loadIndex_matches_rebuildIndex_up_to_time (w : World)
  (g : KnowledgeGraph) (t1 : jstring) :
  isIndexLoaded (this w) = false -> writable (disk w) = true ->
  file_of w = Some (fileContent (index_of_graph g t1) g) ->
  exists i1 i2,
    fst (loadIndex w) = Ok i1 /\ fst (rebuildIndex w) = Ok i2
    /\ entityIndices i1 = entityIndices i2
    /\ typeIndices i1 = typeIndices i2
    /\ relationIndices i1 = relationIndices i2
    /\ version (metadata i1) = version (metadata i2)
    /\ entityCount (metadata i1) = entityCount (metadata i2)
    /\ relationCount (metadata i1) = relationCount (metadata i2)
    /\ compressionEnabled (metadata i1) = compressionEnabled (metadata i2)
    /\ lastUpdated (metadata i2) = now w
    /\ (find INDEX_MARKER_END (payload (index_of_graph g t1)) = None ->
        lastUpdated (metadata i1) = t1).
Proof.
  intros Hl Hw Hf.
  pose proof (rebuildIndex_writable w _ g Hf
                (graph_of_fileContent _ g) Hw) as Hr.
  assert (H1 : exists t,
    fst (loadIndex w) = Ok (index_of_graph g t)
    /\ (find INDEX_MARKER_END (payload (index_of_graph g t1)) = None ->
        t = t1)).
  { destruct (find INDEX_MARKER_END (payload (index_of_graph g t1)))
      as [j|] eqn:He.
    - exists (now w). split; [|discriminate].
      rewrite (loadIndex_saved_cut w _ g j Hl Hf He).
      rewrite (try_ok _ _ _ _ _ Hr). reflexivity.
    - exists t1. split; [|reflexivity].
      rewrite (loadIndex_saved_intact w _ g Hl Hf He).
      rewrite (reread_canonical _ (canonical_index_of_graph g t1)).
      reflexivity. }
  destruct H1 as (t & H1 & Ht).
  exists (index_of_graph g t), (index_of_graph g (now w)).
  split; [exact H1|]. split; [rewrite Hr; reflexivity|].
  destruct (maps_index_of_graph g t (now w)) as (E1 & E2 & E3).
  rewrite !metadata_index_of_graph. cbn [version entityCount relationCount
    compressionEnabled lastUpdated].
  repeat (split; [assumption || reflexivity|]).
  intros He. exact (Ht He).
Qed.

Lemma loadIndex_matches_rebuildIndex_witness :
  exists i1 i2,
    fst (loadIndex (reopened (stored path0 people (js "T1")) (js "T2")))
    = Ok i1
    /\ fst (rebuildIndex (reopened (stored path0 people (js "T1")) (js "T2")))
       = Ok i2
    /\ entityIndices i1 = entityIndices i2
    /\ typeIndices i1 = typeIndices i2
    /\ relationIndices i1 = relationIndices i2
    /\ version (metadata i1) = version (metadata i2)
    /\ entityCount (metadata i1) = entityCount (metadata i2)
    /\ relationCount (metadata i1) = relationCount (metadata i2)
    /\ compressionEnabled (metadata i1) = compressionEnabled (metadata i2)
    /\ lastUpdated (metadata i2)
       = now (reopened (stored path0 people (js "T1")) (js "T2"))
    /\ (find INDEX_MARKER_END (payload (index_of_graph people (js "T1")))
        = None ->
        lastUpdated (metadata i1) = js "T1").
Proof.
  apply (loadIndex_matches_rebuildIndex_up_to_time
           (reopened (stored path0 people (js "T1")) (js "T2")) people
           (js "T1")).
  - reflexivity.
  - reflexivity.
  - vm_compute. reflexivity.
Defined.
End FileClaims.

Module StoreFacts.
Import StrDefs Str StrFacts.
Import IndexStructures Runtime StorageManager KnowledgeGraphManager GraphTypes.
Import FileDefs RunDefs RunFacts IndexFacts GraphDefs GraphFacts BatchFacts.
Import StoreDefs.
Local Open Scope monad_scope.

Lemma length_assign {A} (i : nat) (x : A) (xs : list A) :
  length (assign i x xs) = length xs.
Proof.
  revert i. induction xs as [|y xs IH]; intros [|i]; cbn [assign length];
    try reflexivity. rewrite IH. reflexivity.
Qed.

Lemma mutate_read_only (f : KnowledgeGraph -> KnowledgeGraph)
  (w : World) (g : KnowledgeGraph) :
  loaded_on w g -> writable (disk w) = false ->
  (ensureIndexLoaded ;;
   graph <- loadFullGraph ;;
   let graph := f graph in
   buildIndexFromGraph graph ;; saveIndexAndData graph) w
  = (Throw IOError, set_indexStructure (index_of_graph (f g) (now w)) w).
Proof.
  intros H Hw.
  rewrite (bind_ok _ _ _ _ _ (ensureIndexLoaded_cached w (proj1 H))).
  rewrite (bind_ok _ _ _ _ _ (loadFullGraph_loaded w g H)).
  cbv zeta. apply build_and_save_fails. exact Hw.
Qed.

Lemma has_entity_remove (n m : jstring) (g : KnowledgeGraph) :
  has_entity m (remove_entity n g)
  = negb (Str.eqb m n) && has_entity m g.
Proof.
  unfold has_entity, remove_entity. cbn [entities].
  induction (entities g) as [|x xs IH]; cbn [filter existsb].
  - rewrite andb_false_r. reflexivity.
  - destruct (Str.eqb (name x) n) eqn:E; cbn [negb existsb]; rewrite IH.
    + apply eqb_eq in E. subst n.
      destruct (Str.eqb (name x) m) eqn:E1; [|reflexivity].
      apply eqb_eq in E1. subst m. rewrite eqb_refl. reflexivity.
    + destruct (Str.eqb (name x) m) eqn:E1; [|reflexivity].
      apply eqb_eq in E1. subst m. rewrite E. reflexivity.
Qed.

(** The loop of deleteObservations on a loaded store. *)
Lemma deleteObservations_loaded (ds : list (jstring * list jstring)) :
  forall w g,
    loaded_on w g -> coherent w g -> writable (disk w) = true ->
    exists w',
      deleteObservations ds w = (Ok tt, w')
      /\ loaded_on w' (fold_left remove_observations_from ds g)
      /\ coherent w' (fold_left remove_observations_from ds g)
      /\ writable (disk w') = true.
Proof.
  unfold deleteObservations.
  induction ds as [|[n os] ds IH]; intros w g H Hc Hw.
  - exists w. split; [reflexivity|]. repeat split; try assumption.
    exact (proj1 H). exact (proj2 H).
  - cbn [forEach fold_left]. unfold remove_observations_from at 2 4.
    cbn [fst snd].
    unfold bind at 1.
    rewrite (bind_ok _ _ _ _ _ (getEntityByName_loaded n w g H Hc)).
    destruct (List.find (fun e => Str.eqb (name e) n) (entities g))
      as [e|] eqn:He.
    + rewrite (updateEntity_loaded _ w g H Hw).
      apply IH; [apply saved_loaded_on; exact (proj1 H)
                |apply saved_coherent|exact Hw].
    + unfold ret. apply IH; assumption.
Qed.

Lemma filter_all {A} (p : A -> bool) (xs : list A) :
  (forall x, p x = true) -> filter p xs = xs.
Proof.
  intros Hp. induction xs as [|x xs IH]; [reflexivity|].
  cbn [filter]. rewrite Hp, IH. reflexivity.
Qed.

Lemma filter_twice {A} (p q : A -> bool) (xs : list A) :
  filter q (filter p xs) = filter (fun x => p x && q x) xs.
Proof.
  induction xs as [|x xs IH]; [reflexivity|].
  cbn [filter]. destruct (p x); cbn [andb filter]; rewrite IH; reflexivity.
Qed.

Lemma names_remove_observations (g : KnowledgeGraph)
  (deletion : jstring * list jstring) :
  map name (entities (remove_observations_from g deletion))
  = map name (entities g).
Proof.
  unfold remove_observations_from.
  destruct (List.find _ (entities g)) as [e|] eqn:E; [|reflexivity].
  rewrite names_put_entity. cbn [name].
  replace (has_entity (name e) g) with true; [reflexivity|].
  symmetry. unfold has_entity. apply existsb_exists. apply find_some in E.
  exists e. split; [exact (proj1 E)|apply eqb_refl].
Qed.

Lemma relations_remove_observations (g : KnowledgeGraph)
  (deletion : jstring * list jstring) :
  relations (remove_observations_from g deletion) = relations g.
Proof.
  unfold remove_observations_from.
  destruct (List.find _ (entities g)) as [e|]; [|reflexivity].
  apply relations_put_entity.
Qed.

Lemma frame_fold_remove (ds : list (jstring * list jstring)) :
  forall g,
    map name (entities (fold_left remove_observations_from ds g))
    = map name (entities g)
    /\ relations (fold_left remove_observations_from ds g) = relations g.
Proof.
  induction ds as [|d ds IH]; intros g; [split; reflexivity|].
  cbn [fold_left]. destruct (IH (remove_observations_from g d)) as [H1 H2].
  rewrite H1, H2, names_remove_observations, relations_remove_observations.
  split; reflexivity.
Qed.

(** One round of the loop keeps the first entity of every name; that of
    the deletion's name loses the listed observations and nothing else. *)
Lemma remove_observations_keeps (g : KnowledgeGraph) (n : jstring)
  (os : list jstring) (m : jstring) (e : Entity) :
  List.find (fun x => Str.eqb (name x) m) (entities g) = Some e ->
  exists e',
    List.find (fun x => Str.eqb (name x) m)
      (entities (remove_observations_from g (n, os))) = Some e'
    /\ name e' = name e
    /\ entityType e' = entityType e
    /\ observations e'
       = filter (fun o => negb (Str.eqb n m && array_includes os o))
           (observations e).
Proof.
  intros He. unfold remove_observations_from. cbn [fst snd].
  destruct (List.find (fun x => Str.eqb (name x) n) (entities g))
    as [en|] eqn:En.
  - destruct (Str.eqb n m) eqn:Enm.
    + apply eqb_eq in Enm. subst m. rewrite He in En. injection En as <-.
      pose proof (find_name He) as Hn. subst n.
      eexists. split; [|split; [|split]].
      * match goal with
        | |- List.find _ (entities (put_entity ?r g)) = _ =>
            exact (find_put_entity r g)
        end.
      * reflexivity.
      * reflexivity.
      * reflexivity.
    + apply eqb_neq in Enm. exists e. split; [|split; [|split]].
      * rewrite find_put_entity_other; [exact He|].
        cbn [name]. rewrite (find_name En). exact Enm.
      * reflexivity.
      * reflexivity.
      * symmetry. apply filter_all. intros o. reflexivity.
  - exists e. split; [exact He|]. split; [reflexivity|].
    split; [reflexivity|].
    symmetry. apply filter_all. intros o.
    destruct (Str.eqb n m) eqn:Enm; [|reflexivity].
    apply eqb_eq in Enm. subst m. congruence.
Qed.

Lemma fold_remove_observations_keeps (ds : list (jstring * list jstring)) :
  forall g m e,
    List.find (fun x => Str.eqb (name x) m) (entities g) = Some e ->
    exists e',
      List.find (fun x => Str.eqb (name x) m)
        (entities (fold_left remove_observations_from ds g)) = Some e'
      /\ name e' = name e
      /\ entityType e' = entityType e
      /\ observations e'
         = filter (fun o =>
                     negb (existsb (fun d => Str.eqb (fst d) m
                                             && array_includes (snd d) o) ds))
             (observations e).
Proof.
  induction ds as [|[n os] ds IH]; intros g m e He.
  - exists e. split; [exact He|]. split; [reflexivity|].
    split; [reflexivity|]. symmetry. apply filter_all. intros o. reflexivity.
  - cbn [fold_left].
    destruct (remove_observations_keeps g n os m e He)
      as (e1 & H1 & Hn1 & Ht1 & Ho1).
    destruct (IH _ m e1 H1) as (e' & H' & Hn' & Ht' & Ho').
    exists e'. split; [exact H'|]. split; [congruence|].
    split; [congruence|].
    rewrite Ho', Ho1, filter_twice. apply filter_ext. intros o.
    cbn [existsb fst snd]. rewrite negb_orb. reflexivity.
Qed.

(** An observation passes every deletion of a name exactly when no
    deletion of that name lists it. *)
Lemma not_deleted_iff (ds : list (jstring * list jstring)) (m o : jstring) :
  negb (existsb (fun d => Str.eqb (fst d) m && array_includes (snd d) o) ds)
  = true
  <-> forall os, In (m, os) ds -> ~ In o os.
Proof.
  rewrite negb_true_iff. split.
  - intros H os Hin Ho.
    assert (E : existsb (fun d => Str.eqb (fst d) m
                                  && array_includes (snd d) o) ds = true).
    { apply existsb_exists. exists (m, os). split; [exact Hin|].
      cbn [fst snd]. rewrite eqb_refl.
      apply array_includes_In. exact Ho. }
    congruence.
  - intros H.
    destruct (existsb _ ds) eqn:E; [|reflexivity].
    apply existsb_exists in E. destruct E as ([n os] & Hin & E).
    cbn [fst snd] in E. apply andb_true_iff in E. destruct E as [En Eo].
    apply eqb_eq in En. subst n. apply array_includes_In in Eo.
    destruct (H os Hin Eo).
Qed.

End StoreFacts.

Module StoreProperties.
Import StrDefs Str StrFacts.
Import IndexStructures Runtime StorageManager KnowledgeGraphManager GraphTypes.
Import FileDefs RunDefs RunFacts IndexFacts GraphDefs GraphFacts BatchFacts.
Import StoreDefs StoreFacts Samples.
Local Open Scope monad_scope.

(** On a loaded store whose disk rejects writes, each of updateEntity,
    deleteEntity, deleteRelation and updateRelation of a relation that is
    not stored yet throws the I/O error, leaves the disk as it was, and
    leaves in the cache the index of the graph that it failed to write. *)
Theorem mutation_failed_write_caches_unwritten_index (w : World)
  (g : KnowledgeGraph) (e : Entity) (n : jstring) (r : Relation) :
  loaded_on w g -> writable (disk w) = false ->
  updateEntity e w
  = (Throw IOError,
     set_indexStructure (index_of_graph (put_entity e g) (now w)) w)
  /\ deleteEntity n w
     = (Throw IOError,
        set_indexStructure (index_of_graph (remove_entity n g) (now w)) w)
  /\ deleteRelation r w
     = (Throw IOError,
        set_indexStructure (index_of_graph (remove_relation r g) (now w)) w)
  /\ (existsb (same_relation r) (relations g) = false ->
      updateRelation r w
      = (Throw IOError,
         set_indexStructure (index_of_graph (add_relation r g) (now w)) w)).
Proof.
  intros H Hw. split; [|split; [|split]].
  - apply (mutate_read_only (put_entity e)); assumption.
  - apply (mutate_read_only (remove_entity n)); assumption.
  - apply (mutate_read_only (remove_relation r)); assumption.
  - intros Hr. unfold updateRelation.
    rewrite (bind_ok _ _ _ _ _ (ensureIndexLoaded_cached w (proj1 H))).
    rewrite (bind_ok _ _ _ _ _ (loadFullGraph_loaded w g H)).
    cbv zeta. rewrite (proj1 (findIndex_existsb _ _)), Hr.
    apply build_and_save_fails. exact Hw.
Qed.

Lemma mutation_failed_write_witness :
  updateEntity alice (read_only (stored path0 people (js "T1")))
  = (Throw IOError,
     set_indexStructure
       (index_of_graph (put_entity alice people)
          (now (read_only (stored path0 people (js "T1")))))
       (read_only (stored path0 people (js "T1"))))
  /\ deleteEntity (js "Bob") (read_only (stored path0 people (js "T1")))
     = (Throw IOError,
        set_indexStructure
          (index_of_graph (remove_entity (js "Bob") people)
             (now (read_only (stored path0 people (js "T1")))))
          (read_only (stored path0 people (js "T1"))))
  /\ deleteRelation haunts (read_only (stored path0 people (js "T1")))
     = (Throw IOError,
        set_indexStructure
          (index_of_graph (remove_relation haunts people)
             (now (read_only (stored path0 people (js "T1")))))
          (read_only (stored path0 people (js "T1"))))
  /\ (existsb (same_relation haunts) (relations people) = false ->
      updateRelation haunts (read_only (stored path0 people (js "T1")))
      = (Throw IOError,
         set_indexStructure
           (index_of_graph (add_relation haunts people)
              (now (read_only (stored path0 people (js "T1")))))
           (read_only (stored path0 people (js "T1"))))).
Proof.
  apply (mutation_failed_write_caches_unwritten_index
           (read_only (stored path0 people (js "T1"))) people
           alice (js "Bob") haunts).
  - split; [reflexivity|].
    exists (fileContent (index_of_graph people (js "T1")) people).
    split; vm_compute; reflexivity.
  - reflexivity.
Defined.

(** deleteEntity on a loaded store that accepts writes leaves the graph
    without the entities of that name and without the relations from or to
    that name; every other entity and relation stays. *)
Theorem deleteEntity_cascades (w : World) (g : KnowledgeGraph) (n : jstring) :
  loaded_on w g -> writable (disk w) = true ->
  exists w',
    deleteEntity n w = (Ok tt, w')
    /\ loadFullGraph w' = (Ok (remove_entity n g), w')
    /\ (forall e, In e (entities (remove_entity n g))
                  <-> In e (entities g) /\ name e <> n)
    /\ (forall r, In r (relations (remove_entity n g))
                  <-> In r (relations g) /\ from r <> n /\ to r <> n).
Proof.
  intros H Hw. exists (saved (remove_entity n g) w).
  split; [apply deleteEntity_loaded; assumption|].
  split; [apply loadFullGraph_loaded, saved_loaded_on; exact (proj1 H)|].
  unfold remove_entity. cbn [entities relations]. split.
  - intros e. rewrite filter_In, negb_true_iff, eqb_neq. reflexivity.
  - intros r. rewrite filter_In, andb_true_iff, !negb_true_iff, !eqb_neq.
    reflexivity.
Qed.

Lemma deleteEntity_cascades_witness :
  exists w',
    deleteEntity (js "Bob") (stored path0 people (js "T1")) = (Ok tt, w')
    /\ loadFullGraph w' = (Ok (remove_entity (js "Bob") people), w')
    /\ (forall e, In e (entities (remove_entity (js "Bob") people))
                  <-> In e (entities people) /\ name e <> js "Bob")
    /\ (forall r, In r (relations (remove_entity (js "Bob") people))
                  <-> In r (relations people)
                      /\ from r <> js "Bob" /\ to r <> js "Bob").
Proof.
  apply (deleteEntity_cascades (stored path0 people (js "T1")) people
           (js "Bob")).
  - split; [reflexivity|].
    exists (fileContent (index_of_graph people (js "T1")) people).
    split; vm_compute; reflexivity.
  - reflexivity.
Defined.

(** updateRelation on a loaded store that accepts writes: a relation whose
    triple is stored already leaves the store as it was, file and cache;
    any other relation is appended to the relations, and the entities are
    not touched. *)
Theorem updateRelation_appends_new_triples_only (w : World)
  (g : KnowledgeGraph) (r : Relation) :
  loaded_on w g -> writable (disk w) = true ->
  exists w',
    updateRelation r w = (Ok tt, w')
    /\ loadFullGraph w' = (Ok (put_relation r g), w')
    /\ (In r (relations g) -> w' = w /\ put_relation r g = g)
    /\ (~ In r (relations g) ->
        relations (put_relation r g) = relations g ++ [r])
    /\ entities (put_relation r g) = entities g.
Proof.
  intros H Hw.
  assert (Hin : existsb (same_relation r) (relations g) = true
                <-> In r (relations g)).
  { rewrite existsb_exists. split.
    - intros (x & Hx & Hs). apply same_relation_eq in Hs. subst. exact Hx.
    - intros Hx. exists r. split; [exact Hx|apply same_relation_refl]. }
  rewrite (updateRelation_loaded r w g H Hw). unfold put_relation.
  destruct (existsb (same_relation r) (relations g)) eqn:E.
  - exists w. split; [reflexivity|].
    split; [apply loadFullGraph_loaded; exact H|].
    split; [intros _; split; reflexivity|].
    split; [|reflexivity]. intros Hn. exfalso. apply Hn, Hin. reflexivity.
  - eexists. split; [reflexivity|].
    split; [apply loadFullGraph_loaded, (saved_loaded_on (add_relation r g));
            exact (proj1 H)|].
    split; [|split; reflexivity].
    intros Hr. apply Hin in Hr. discriminate Hr.
Qed.

Lemma updateRelation_appends_witness :
  exists w',
    updateRelation knows (stored path0 people (js "T1")) = (Ok tt, w')
    /\ loadFullGraph w' = (Ok (put_relation knows people), w')
    /\ (In knows (relations people) ->
        w' = stored path0 people (js "T1") /\ put_relation knows people = people)
    /\ (~ In knows (relations people) ->
        relations (put_relation knows people) = relations people ++ [knows])
    /\ entities (put_relation knows people) = entities people.
Proof.
  apply (updateRelation_appends_new_triples_only
           (stored path0 people (js "T1")) people knows).
  - split; [reflexivity|].
    exists (fileContent (index_of_graph people (js "T1")) people).
    split; vm_compute; reflexivity.
  - reflexivity.
Defined.



(** getEntityByName on a loaded store whose cached index describes the
    file returns the first entity of that name, and null exactly when no
    entity has the name; it changes nothing. *)
Theorem getEntityByName_returns_first_of_name (w : World)
  (g : KnowledgeGraph) (n : jstring) :
  loaded_on w g -> coherent w g ->
  exists found,
    getEntityByName n w = (Ok found, w)
    /\ found = List.find (fun e => Str.eqb (name e) n) (entities g)
    /\ (found = None <-> has_entity n g = false)
    /\ (forall e, found = Some e -> In e (entities g) /\ name e = n).
Proof.
  intros H Hc. eexists.
  split; [exact (getEntityByName_loaded n w g H Hc)|].
  split; [reflexivity|]. split.
  - split.
    + intros Hf. unfold has_entity.
      destruct (existsb _ (entities g)) eqn:E; [|reflexivity].
      destruct (existsb_find _ _ E) as (x & Hx & _). congruence.
    + apply find_existsb.
  - intros e He. apply find_some in He. destruct He as [Hin He].
    split; [exact Hin|apply eqb_eq; exact He].
Qed.

Lemma getEntityByName_returns_first_witness :
  exists found,
    getEntityByName (js "Bob") (stored path0 people (js "T1"))
    = (Ok found, stored path0 people (js "T1"))
    /\ found = List.find (fun e => Str.eqb (name e) (js "Bob"))
                 (entities people)
    /\ (found = None <-> has_entity (js "Bob") people = false)
    /\ (forall e, found = Some e ->
                  In e (entities people) /\ name e = js "Bob").
Proof.
  apply (getEntityByName_returns_first_of_name
           (stored path0 people (js "T1")) people (js "Bob")).
  - split; [reflexivity|].
    exists (fileContent (index_of_graph people (js "T1")) people).
    split; vm_compute; reflexivity.
  - exists (js "T1"). reflexivity.
Defined.

(** deleteObservations on a loaded store that accepts writes and whose
    cached index describes the file never throws. The graph read back
    afterwards has the entity names, in their order, and the relations it
    had; the first entity of each name keeps its name and type, and its
    observations are those it had, in their order, less the ones listed by
    some deletion of that name. A deletion that names no entity is skipped,
    leaving the store as it was. *)
Theorem deleteObservations_skips_unknown_entities (w : World)
  (g : KnowledgeGraph) (ds : list (jstring * list jstring)) (n : jstring)
  (os : list jstring) :
  loaded_on w g -> coherent w g -> writable (disk w) = true ->
  (exists w' g',
     deleteObservations ds w = (Ok tt, w')
     /\ loadFullGraph w' = (Ok g', w')
     /\ g' = fold_left remove_observations_from ds g
     /\ map name (entities g') = map name (entities g)
     /\ relations g' = relations g
     /\ forall m e,
          List.find (fun x => Str.eqb (name x) m) (entities g) = Some e ->
          exists e',
            getEntityByName m w' = (Ok (Some e'), w')
            /\ name e' = name e
            /\ entityType e' = entityType e
            /\ observations e'
               = filter (fun o =>
                           negb (existsb
                                   (fun d => Str.eqb (fst d) m
                                             && array_includes (snd d) o) ds))
                   (observations e)
            /\ forall o,
                 In o (observations e')
                 <-> In o (observations e)
                     /\ forall os', In (m, os') ds -> ~ In o os')
  /\ (has_entity n g = false -> deleteObservations [(n, os)] w = (Ok tt, w)).
Proof.
  intros H Hc Hw. split.
  - destruct (deleteObservations_loaded ds w g H Hc Hw)
      as (w' & Hrun & H' & Hc' & _).
    exists w', (fold_left remove_observations_from ds g).
    split; [exact Hrun|]. split; [apply loadFullGraph_loaded; exact H'|].
    split; [reflexivity|].
    split; [exact (proj1 (frame_fold_remove ds g))|].
    split; [exact (proj2 (frame_fold_remove ds g))|].
    intros m e He.
    destruct (fold_remove_observations_keeps ds g m e He)
      as (e' & Hf & Hn' & Ht' & Ho').
    exists e'. rewrite (getEntityByName_loaded m w' _ H' Hc'), Hf.
    split; [reflexivity|]. split; [exact Hn'|]. split; [exact Ht'|].
    split; [exact Ho'|].
    intros o. rewrite Ho', filter_In, not_deleted_iff. reflexivity.
  - intros Hn. unfold deleteObservations. cbn [forEach fst snd].
    unfold bind at 1.
    rewrite (bind_ok _ _ _ _ _ (getEntityByName_loaded n w g H Hc)).
    rewrite (find_existsb _ _ Hn). reflexivity.
Qed.

Lemma deleteObservations_skips_witness :
  (exists w' g',
     deleteObservations [(js "Alice", [js "likes tea"])]
       (stored path0 people (js "T1")) = (Ok tt, w')
     /\ loadFullGraph w' = (Ok g', w')
     /\ g' = fold_left remove_observations_from
               [(js "Alice", [js "likes tea"])] people
     /\ map name (entities g') = map name (entities people)
     /\ relations g' = relations people
     /\ forall m e,
          List.find (fun x => Str.eqb (name x) m) (entities people) = Some e ->
          exists e',
            getEntityByName m w' = (Ok (Some e'), w')
            /\ name e' = name e
            /\ entityType e' = entityType e
            /\ observations e'
               = filter (fun o =>
                           negb (existsb
                                   (fun d => Str.eqb (fst d) m
                                             && array_includes (snd d) o)
                                   [(js "Alice", [js "likes tea"])]))
                   (observations e)
            /\ forall o,
                 In o (observations e')
                 <-> In o (observations e)
                     /\ forall os',
                          In (m, os') [(js "Alice", [js "likes tea"])] ->
                          ~ In o os')
  /\ (has_entity (js "Ghost") people = false ->
      deleteObservations [(js "Ghost", [js "pale"])]
        (stored path0 people (js "T1"))
      = (Ok tt, stored path0 people (js "T1"))).
Proof.
  apply (deleteObservations_skips_unknown_entities
           (stored path0 people (js "T1")) people
           [(js "Alice", [js "likes tea"])] (js "Ghost") [js "pale"]).
  - split; [reflexivity|].
    exists (fileContent (index_of_graph people (js "T1")) people).
    split; vm_compute; reflexivity.
  - exists (js "T1"). reflexivity.
  - reflexivity.
Defined.


End StoreProperties.

Module LookupFacts.
Import StrDefs Str StrFacts.
Import IndexStructures Runtime StorageManager KnowledgeGraphManager GraphTypes.
Import FileDefs RunDefs RunFacts IndexFacts GraphDefs GraphFacts BatchFacts.
Import DecodeDefs DecodeFacts LookupDefs.
Local Open Scope monad_scope.

Lemma map_get_update {V} (k k' : jstring) (f : V -> V) (m : Map V) :
  map_get k (map_update k' f m)
  = if Str.eqb k k' then option_map f (map_get k m) else map_get k m.
Proof.
  unfold map_update. destruct (map_get k' m) as [v|] eqn:E.
  - rewrite map_get_set. destruct (Str.eqb k k') eqn:E1; [|reflexivity].
    apply eqb_eq in E1. subst k'. rewrite E. reflexivity.
  - destruct (Str.eqb k k') eqn:E1; [|reflexivity].
    apply eqb_eq in E1. subst k'. rewrite E. reflexivity.
Qed.

(** *** The type index *)

Lemma typeIndices_index_entities (T : jstring) (es : list Entity) :
  forall p i,
    map_get T (typeIndices (index_entities es p i))
    = types_after T es (map_get T (typeIndices i)).
Proof.
  induction es as [|e es IH]; intros p i; [reflexivity|].
  cbn [index_entities]. cbv zeta. rewrite IH.
  unfold types_after. cbn [fold_left]. f_equal.
  cbn [set_entityIndices typeIndices].
  unfold map_has.
  destruct (map_get (entityType e) (typeIndices i)) as [s|] eqn:E;
    cbn [negb set_typeIndices set_entityIndices typeIndices];
    rewrite map_get_update, ?map_get_set, (eqb_sym T);
    destruct (Str.eqb (entityType e) T) eqn:E1; try reflexivity.
  - apply eqb_eq in E1. subst T. rewrite E. reflexivity.
  - apply eqb_eq in E1. subst T. rewrite E. reflexivity.
Qed.

Lemma typeIndices_index_relation (i : IndexStructure) (r : Relation) :
  typeIndices (index_relation i r) = typeIndices i.
Proof.
  unfold index_relation. cbv zeta.
  destruct (negb _); reflexivity.
Qed.

Lemma typeIndices_index_relations (rs : list Relation) :
  forall i, typeIndices (fold_left index_relation rs i) = typeIndices i.
Proof.
  induction rs as [|r rs IH]; intros i; [reflexivity|].
  cbn [fold_left]. rewrite IH. apply typeIndices_index_relation.
Qed.

Lemma types_after_names (T : jstring) (es : list Entity) :
  forall entry,
    types_after T es entry
    = match names_of_type T es with
      | [] => entry
      | ns => Some (fold_left (fun s x => set_add x s) ns
                      (match entry with Some s => s | None => [] end))
      end.
Proof.
  unfold types_after, names_of_type.
  induction es as [|e es IH]; intros entry; [reflexivity|].
  cbn [fold_left filter]. rewrite IH.
  destruct (Str.eqb (entityType e) T); [|reflexivity].
  cbn [map fold_left].
  destruct (map name (filter (fun e0 => Str.eqb (entityType e0) T) es));
    reflexivity.
Qed.

(** The type index of a graph: a type that some entity has is mapped to
    the set of the names of the entities of that type, and no other type
    has an entry. *)
Lemma type_index_of_graph (g : KnowledgeGraph) (t T : jstring) :
  map_get T (typeIndices (index_of_graph g t))
  = match names_of_type T (entities g) with
    | [] => None
    | ns => Some (set_of_list ns)
    end.
Proof.
  unfold index_of_graph. cbv zeta.
  rewrite typeIndices_index_relations, typeIndices_index_entities.
  rewrite types_after_names. reflexivity.
Qed.

(** *** The relation index *)

Lemma relationIndices_index_entities (es : list Entity) :
  forall p i, relationIndices (index_entities es p i) = relationIndices i.
Proof.
  induction es as [|e es IH]; intros p i; [reflexivity|].
  cbn [index_entities]. cbv zeta. rewrite IH.
  destruct (negb _); reflexivity.
Qed.

Lemma relationIndices_index_relation (T : jstring) (i : IndexStructure)
  (r : Relation) :
  map_get T (relationIndices (index_relation i r))
  = if Str.eqb (relationType r) T
    then Some ((match map_get T (relationIndices i) with
                | Some s => s | None => [] end) ++ [(from r, to r)])
    else map_get T (relationIndices i).
Proof.
  unfold index_relation. cbv zeta.
  cbn [set_entityIndices relationIndices]. unfold map_has.
  destruct (map_get (relationType r) (relationIndices i)) as [s|] eqn:E;
    cbn [negb set_relationIndices set_entityIndices relationIndices];
    rewrite map_get_update, ?map_get_set, (eqb_sym T);
    destruct (Str.eqb (relationType r) T) eqn:E1; try reflexivity.
  - apply eqb_eq in E1. subst T. rewrite E. reflexivity.
  - apply eqb_eq in E1. subst T. rewrite E. reflexivity.
Qed.

Lemma relationIndices_index_relations (T : jstring) (rs : list Relation) :
  forall i,
    map_get T (relationIndices (fold_left index_relation rs i))
    = ends_after T rs (map_get T (relationIndices i)).
Proof.
  unfold ends_after.
  induction rs as [|r rs IH]; intros i; [reflexivity|].
  cbn [fold_left]. rewrite IH, relationIndices_index_relation. reflexivity.
Qed.

Lemma ends_after_ends (T : jstring) (rs : list Relation) :
  forall entry,
    ends_after T rs entry
    = match ends_of_type T rs with
      | [] => entry
      | ps => Some ((match entry with Some s => s | None => [] end) ++ ps)
      end.
Proof.
  unfold ends_after, ends_of_type.
  induction rs as [|r rs IH]; intros entry; [reflexivity|].
  cbn [fold_left filter]. rewrite IH.
  destruct (Str.eqb (relationType r) T); [|reflexivity].
  cbn [map].
  destruct (map (fun r0 => (from r0, to r0))
              (filter (fun r0 => Str.eqb (relationType r0) T) rs)).
  - reflexivity.
  - rewrite <- app_assoc. reflexivity.
Qed.

(** The relation index of a graph: a relation type that some relation has
    is mapped to the ends of the relations of that type, and no other type
    has an entry. *)
Lemma relation_index_of_graph (g : KnowledgeGraph) (t T : jstring) :
  map_get T (relationIndices (index_of_graph g t))
  = match ends_of_type T (relations g) with
    | [] => None
    | ps => Some ps
    end.
Proof.
  unfold index_of_graph. cbv zeta.
  rewrite relationIndices_index_relations, relationIndices_index_entities.
  rewrite ends_after_ends. reflexivity.
Qed.

(** *** Sets of names *)

Lemma set_has_add (x y : jstring) (s : StrSet) :
  set_has x (set_add y s) = Str.eqb x y || set_has x s.
Proof.
  unfold set_add. destruct (set_has y s) eqn:E.
  - destruct (Str.eqb x y) eqn:E1; [|reflexivity].
    apply eqb_eq in E1. subst y. rewrite E. reflexivity.
  - unfold set_has. rewrite existsb_app. cbn [existsb].
    rewrite orb_false_r. apply orb_comm.
Qed.

Lemma set_has_fold_add (x : jstring) (ys : list jstring) :
  forall s,
    set_has x (fold_left (fun s y => set_add y s) ys s)
    = existsb (Str.eqb x) ys || set_has x s.
Proof.
  induction ys as [|y ys IH]; intros s; [reflexivity|].
  cbn [fold_left existsb]. rewrite IH, set_has_add.
  destruct (Str.eqb x y), (existsb (Str.eqb x) ys); reflexivity.
Qed.

Lemma set_has_of_list (x : jstring) (ys : list jstring) :
  set_has x (set_of_list ys) = existsb (Str.eqb x) ys.
Proof.
  unfold set_of_list. rewrite set_has_fold_add. apply orb_false_r.
Qed.

Lemma length_fold_add (ys : list jstring) :
  forall s, length s <= length (fold_left (fun s y => set_add y s) ys s).
Proof.
  induction ys as [|y ys IH]; intros s; [apply Nat.le_refl|].
  cbn [fold_left]. eapply Nat.le_trans; [|apply IH].
  unfold set_add. destruct (set_has y s); [apply Nat.le_refl|].
  rewrite length_app. lia.
Qed.

Lemma set_of_list_nonempty (y : jstring) (ys : list jstring) :
  (length (set_of_list (y :: ys)) =? 0) = false.
Proof.
  unfold set_of_list. cbn [fold_left]. change (set_add y []) with [y].
  pose proof (length_fold_add ys [y]) as H. cbn [length] in H.
  apply Nat.eqb_neq. lia.
Qed.

Lemma NoDup_map_inj {A B} (f : A -> B) (xs : list A) (x y : A) :
  NoDup (map f xs) -> In x xs -> In y xs -> f x = f y -> x = y.
Proof.
  induction xs as [|z xs IH]; [contradiction|].
  cbn [map]. intros H Hx Hy E. inversion H as [|? ? Hz H']; subst.
  destruct Hx as [->|Hx], Hy as [->|Hy]; [reflexivity| | |auto].
  - exfalso. apply Hz. rewrite E. apply in_map. exact Hy.
  - exfalso. apply Hz. rewrite <- E. apply in_map. exact Hx.
Qed.

(** *** Lookups by type *)

Lemma getEntitiesByType_loaded (T : jstring) (w : World)
  (g : KnowledgeGraph) :
  loaded_on w g -> coherent w g ->
  getEntitiesByType T w
  = (Ok (filter (fun e => existsb (Str.eqb (name e))
                            (names_of_type T (entities g)))
           (entities g)), w).
Proof.
  intros H [t Ht]. unfold getEntitiesByType.
  rewrite (bind_ok _ _ _ _ _ (ensureIndexLoaded_cached w (proj1 H))).
  unfold bind at 1. unfold gets at 1. rewrite Ht, type_index_of_graph.
  destruct (names_of_type T (entities g)) as [|n ns] eqn:E.
  - unfold ret. f_equal. f_equal. symmetry. apply filter_none.
    intros; reflexivity.
  - rewrite set_of_list_nonempty.
    rewrite (bind_ok _ _ _ _ _ (loadFullGraph_loaded w g H)).
    unfold ret. f_equal. f_equal. apply filter_ext.
    intros e. apply set_has_of_list.
Qed.

Lemma names_of_type_unique (T : jstring) (es : list Entity) (e : Entity) :
  NoDup (map name es) -> In e es ->
  existsb (Str.eqb (name e)) (names_of_type T es) = Str.eqb (entityType e) T.
Proof.
  intros Hn He. unfold names_of_type.
  destruct (Str.eqb (entityType e) T) eqn:E.
  - apply existsb_exists. exists (name e). split; [|apply eqb_refl].
    apply in_map. apply filter_In. split; assumption.
  - destruct (existsb _ _) eqn:Ex; [|reflexivity].
    apply existsb_exists in Ex. destruct Ex as (n & Hin & En).
    apply eqb_eq in En. subst n. apply in_map_iff in Hin.
    destruct Hin as (e' & En & Hin). apply filter_In in Hin.
    destruct Hin as [Hin Et].
    rewrite (NoDup_map_inj name es e' e Hn Hin He En) in Et. congruence.
Qed.

Lemma getRelationsByType_loaded (T : jstring) (w : World)
  (g : KnowledgeGraph) :
  loaded_on w g -> coherent w g ->
  getRelationsByType T w
  = (Ok (filter (fun r => Str.eqb (relationType r) T) (relations g)), w).
Proof.
  intros H [t Ht]. unfold getRelationsByType.
  rewrite (bind_ok _ _ _ _ _ (ensureIndexLoaded_cached w (proj1 H))).
  unfold bind at 1. unfold gets at 1. rewrite Ht, relation_index_of_graph.
  destruct (ends_of_type T (relations g)) as [|p ps] eqn:E.
  - unfold ret. f_equal. f_equal. unfold ends_of_type in E.
    apply map_eq_nil in E. symmetry. exact E.
  - cbn [length Nat.eqb].
    rewrite (bind_ok _ _ _ _ _ (loadFullGraph_loaded w g H)).
    unfold ret. f_equal. f_equal. apply filter_ext_in.
    intros r Hr. destruct (Str.eqb (relationType r) T) eqn:E1;
      [|reflexivity].
    cbn [andb]. rewrite <- E. apply existsb_exists.
    exists (from r, to r). split.
    + unfold ends_of_type. apply in_map_iff. exists r.
      split; [reflexivity|]. apply filter_In. split; assumption.
    + cbn [fst snd]. rewrite !eqb_refl. reflexivity.
Qed.

(** *** Search by name *)


End LookupFacts.

Module SearchFacts.
Import StrDefs Str StrFacts.
Import IndexStructures Runtime StorageManager KnowledgeGraphManager GraphTypes.
Import FileDefs RunDefs RunFacts IndexFacts GraphDefs GraphFacts BatchFacts.
Import DecodeDefs DecodeFacts LookupDefs LookupFacts SearchDefs.
Local Open Scope monad_scope.

Lemma searchNodes_keyword (q : jstring) (w : World) (g : KnowledgeGraph) :
  loaded_on w g ->
  is_some (match_kw (js "relations") q) || is_some (match_kw (js "from") q)
  || is_some (match_kw (js "to") q) || is_some (match_kw (js "type") q)
  = true ->
  searchNodes q w = (Ok (relation_first q g), w).
Proof.
  intros H Hk. unfold searchNodes.
  rewrite (bind_ok _ _ _ _ _ (loadIndex_cached w (proj1 H))).
  cbv zeta. rewrite Hk.
  rewrite (bind_ok _ _ _ _ _ (loadFullGraph_loaded w g H)).
  reflexivity.
Qed.

Lemma lower_is_t (c : ascii) :
  Ascii.eqb "t" (lower_char c) = true ->
  (code c <? 128) && Ascii.eqb (lower_char c) (lower_char "t") = true.
Proof.
  destruct c as [[] [] [] [] [] [] [] []]; intros H;
    try discriminate H; reflexivity.
Qed.

Lemma lower_is_y (c : ascii) :
  Ascii.eqb "y" (lower_char c) = true ->
  (code c <? 128) && Ascii.eqb (lower_char c) (lower_char "y") = true.
Proof.
  destruct c as [[] [] [] [] [] [] [] []]; intros H;
    try discriminate H; reflexivity.
Qed.

Lemma lower_is_p (c : ascii) :
  Ascii.eqb "p" (lower_char c) = true ->
  (code c <? 128) && Ascii.eqb (lower_char c) (lower_char "p") = true.
Proof.
  destruct c as [[] [] [] [] [] [] [] []]; intros H;
    try discriminate H; reflexivity.
Qed.

Lemma lower_is_e (c : ascii) :
  Ascii.eqb "e" (lower_char c) = true ->
  (code c <? 128) && Ascii.eqb (lower_char c) (lower_char "e") = true.
Proof.
  destruct c as [[] [] [] [] [] [] [] []]; intros H;
    try discriminate H; reflexivity.
Qed.

Lemma lower_is_space (c : ascii) :
  Ascii.eqb " " (lower_char c) = true -> is_space c = true.
Proof.
  destruct c as [[] [] [] [] [] [] [] []]; intros H;
    try discriminate H; reflexivity.
Qed.

Lemma span_space_trimStart (s : jstring) :
  snd (span is_space s) = trimStart s.
Proof.
  induction s as [|c s IH]; [reflexivity|].
  cbn [span trimStart]. destruct (is_space c); [|reflexivity].
  destruct (span is_space s). exact IH.
Qed.

Lemma span_first (p : ascii -> bool) (c : ascii) (s : jstring) :
  p c = true -> exists a b, span p (c :: s) = (c :: a, b).
Proof.
  intros H. cbn [span]. rewrite H. destruct (span p s) as [a b].
  exists a, b. reflexivity.
Qed.

(** The pattern of the relation type matches every query that begins with
    type, a space, and then, after any further spaces, a word. *)
Lemma type_prefix_matches (q : jstring) (c : ascii) (r : jstring) :
  startsWith (toLowerCase q) (js "type ") = true ->
  trimStart (skipn 5 q) = c :: r -> is_word c = true ->
  is_some (match_kw (js "type") q) = true.
Proof.
  intros Hs Ht Hc.
  unfold toLowerCase, js in Hs.
  destruct q as [|c1 [|c2 [|c3 [|c4 [|c5 rest]]]]];
    cbn [map String.list_ascii_of_string startsWith] in Hs;
    rewrite ?andb_false_r in Hs; try discriminate Hs.
  apply andb_true_iff in Hs. destruct Hs as [H1 Hs].
  apply andb_true_iff in Hs. destruct Hs as [H2 Hs].
  apply andb_true_iff in Hs. destruct Hs as [H3 Hs].
  apply andb_true_iff in Hs. destruct Hs as [H4 Hs].
  apply andb_true_iff in Hs. destruct Hs as [H5 _].
  cbn [skipn] in Ht.
  assert (E : match_kw_here (js "type") (c1 :: c2 :: c3 :: c4 :: c5 :: rest)
              <> None).
  { unfold match_kw_here, js.
    cbn [String.list_ascii_of_string startsWith_ci].
    rewrite (lower_is_t c1 H1), (lower_is_y c2 H2), (lower_is_p c3 H3),
      (lower_is_e c4 H4).
    destruct (span_first is_space c5 rest (lower_is_space c5 H5))
      as (a & b & Es).
    pose proof (span_space_trimStart (c5 :: rest)) as Eb.
    rewrite Es in Eb. cbn [snd] in Eb. rewrite Es.
    cbn [trimStart] in Eb. rewrite (lower_is_space c5 H5), Ht in Eb.
    subst b. destruct (span_first is_word c r Hc) as (a' & b' & Ew).
    rewrite Ew. discriminate. }
  cbn [match_kw].
  destruct (match_kw_here (js "type") (c1 :: c2 :: c3 :: c4 :: c5 :: rest));
    [reflexivity|contradiction].
Qed.

Lemma in_fold_ends (rs : list Relation) (n : jstring) :
  forall s,
    set_has n (fold_left (fun s r => set_add (to r) (set_add (from r) s)) rs s)
    = true ->
    set_has n s = true
    \/ exists r, In r rs /\ (from r = n \/ to r = n).
Proof.
  induction rs as [|r rs IH]; intros s H; [left; exact H|].
  cbn [fold_left] in H. destruct (IH _ H) as [Hs|(r' & Hr & Hn)].
  - rewrite !set_has_add in Hs.
    apply orb_true_iff in Hs. destruct Hs as [Hs|Hs].
    + right. exists r. split; [left; reflexivity|].
      right. symmetry. apply eqb_eq. exact Hs.
    + apply orb_true_iff in Hs. destruct Hs as [Hs|Hs]; [|left; exact Hs].
      right. exists r. split; [left; reflexivity|].
      left. symmetry. apply eqb_eq. exact Hs.
  - right. exists r'. split; [right; exact Hr|exact Hn].
Qed.

Lemma filter_if_In {A B} (m : option B) (p : B -> A -> bool) (xs : list A)
  (x : A) :
  In x (filter_if m p xs) ->
  In x xs /\ forall b, m = Some b -> p b x = true.
Proof.
  destruct m as [b|]; cbn [filter_if].
  - intros H. apply filter_In in H. destruct H as [H Hp].
    split; [exact H|]. intros b' E. injection E as <-. exact Hp.
  - intros H. split; [exact H|]. discriminate.
Qed.
End SearchFacts.

Module LookupProperties.
Import StrDefs Str StrFacts.
Import IndexStructures Runtime StorageManager KnowledgeGraphManager GraphTypes.
Import FileDefs RunDefs RunFacts IndexFacts GraphDefs GraphFacts BatchFacts.
Import DecodeDefs DecodeFacts TimeDefs TimeFacts.
Import LookupDefs LookupFacts SearchDefs SearchFacts Samples.
Local Open Scope monad_scope.

(** buildIndexFromGraph replaces the cached index by one that describes
    the graph: the metadata hold the two counts and the time of the call;
    the entity index has an entry for a name exactly when an entity has
    that name; the type index maps each type that occurs to the set of the
    names of its entities, and the relation index each relation type that
    occurs to the ends of its relations, in the order of the graph; no
    key occurs twice. Nothing else of the world changes. *)
Theorem buildIndexFromGraph_describes_graph (g : KnowledgeGraph) (w : World) :
  exists i,
    buildIndexFromGraph g w = (Ok tt, set_indexStructure i w)
    /\ metadata i
       = {| version := js "1.0.0";
            entityCount := length (entities g);
            relationCount := length (relations g);
            lastUpdated := now w;
            compressionEnabled := false |}
    /\ (forall n, map_has n (entityIndices i) = has_entity n g)
    /\ (forall T, map_get T (typeIndices i)
                  = match names_of_type T (entities g) with
                    | [] => None
                    | ns => Some (set_of_list ns)
                    end)
    /\ (forall T, map_get T (relationIndices i)
                  = match ends_of_type T (relations g) with
                    | [] => None
                    | ps => Some ps
                    end)
    /\ canonical i.
Proof.
  exists (index_of_graph g (now w)). split; [reflexivity|].
  split; [apply metadata_index_of_graph|].
  split; [intros n; apply index_has_entity|].
  split; [intros T; apply type_index_of_graph|].
  split; [intros T; apply relation_index_of_graph|].
  apply canonical_index_of_graph.
Qed.

(** getEntitiesByType on a loaded store whose cached index describes the
    file, when no two entities share a name: the entities of exactly that
    type, in the order of the graph; nothing changes. *)
Theorem getEntitiesByType_returns_entities_of_type (w : World)
  (g : KnowledgeGraph) (T : jstring) :
  loaded_on w g -> coherent w g -> NoDup (map name (entities g)) ->
  getEntitiesByType T w
  = (Ok (filter (fun e => Str.eqb (entityType e) T) (entities g)), w).
Proof.
  intros H Hc Hn. rewrite (getEntitiesByType_loaded T w g H Hc).
  f_equal. f_equal. apply filter_ext_in. intros e He.
  apply names_of_type_unique; assumption.
Qed.

Lemma getEntitiesByType_returns_witness :
  getEntitiesByType (js "person") (stored path0 people (js "T1"))
  = (Ok (filter (fun e => Str.eqb (entityType e) (js "person"))
           (entities people)), stored path0 people (js "T1")).
Proof.
  apply (getEntitiesByType_returns_entities_of_type
           (stored path0 people (js "T1")) people (js "person")).
  - split; [reflexivity|].
    exists (fileContent (index_of_graph people (js "T1")) people).
    split; vm_compute; reflexivity.
  - exists (js "T1"). reflexivity.
  - simpl. constructor; [simpl; intros [H|[]]; discriminate H|].
    constructor; [simpl; intros []|constructor].
Defined.

(** getRelationsByType on a loaded store whose cached index describes the
    file: the relations of exactly that relation type, in the order of the
    graph; nothing changes. *)
Theorem getRelationsByType_returns_relations_of_type (w : World)
  (g : KnowledgeGraph) (T : jstring) :
  loaded_on w g -> coherent w g ->
  getRelationsByType T w
  = (Ok (filter (fun r => Str.eqb (relationType r) T) (relations g)), w).
Proof. apply getRelationsByType_loaded. Qed.

Lemma getRelationsByType_returns_witness :
  getRelationsByType (js "knows") (stored path0 people (js "T1"))
  = (Ok (filter (fun r => Str.eqb (relationType r) (js "knows"))
           (relations people)), stored path0 people (js "T1")).
Proof.
  apply (getRelationsByType_returns_relations_of_type
           (stored path0 people (js "T1")) people (js "knows")).
  - split; [reflexivity|].
    exists (fileContent (index_of_graph people (js "T1")) people).
    split; vm_compute; reflexivity.
  - exists (js "T1"). reflexivity.
Defined.



(** searchNodes with a query that begins with type, a space and, after
    any further spaces, a word, on a loaded store: the pattern of the
    relation type matches the query, so the relation-first branch answers
    it. Every relation returned is a stored relation whose relation type
    holds the word, and every entity returned is at an end of a relation
    returned; the branch that looks the type up in the type index is not
    reached. *)
Theorem searchNodes_type_prefix_filters_relations (w : World)
  (g : KnowledgeGraph) (q : jstring) (c : ascii) (r : jstring) :
  loaded_on w g ->
  startsWith (toLowerCase q) (js "type ") = true ->
  trimStart (skipn 5 q) = c :: r -> is_word c = true ->
  searchNodes q w = (Ok (relation_first q g), w)
  /\ (exists T, match_kw (js "type") q = Some T
        /\ forall x, In x (relations (relation_first q g)) ->
             In x (relations g)
             /\ includes (toLowerCase (relationType x)) (toLowerCase T)
                = true)
  /\ (forall e, In e (entities (relation_first q g)) ->
        In e (entities g)
        /\ exists x, In x (relations (relation_first q g))
                     /\ (from x = name e \/ to x = name e)).
Proof.
  intros H Hs Ht Hc.
  pose proof (type_prefix_matches q c r Hs Ht Hc) as Hm.
  split; [|split].
  - apply searchNodes_keyword; [exact H|]. rewrite Hm. apply orb_true_r.
  - destruct (match_kw (js "type") q) as [T|] eqn:E; [|discriminate Hm].
    exists T. split; [reflexivity|]. intros x Hx.
    unfold relation_first in Hx. cbv zeta in Hx. cbn [relations] in Hx.
    rewrite E in Hx. cbn [filter_if] in Hx. apply filter_In in Hx.
    destruct Hx as [Hx Hp]. split; [|exact Hp].
    apply filter_if_In in Hx. destruct Hx as [Hx _].
    apply filter_if_In in Hx. destruct Hx as [Hx _].
    apply filter_if_In in Hx. destruct Hx as [Hx _]. exact Hx.
  - intros e He. unfold relation_first in He. cbv zeta in He.
    cbn [entities] in He. apply filter_In in He. destruct He as [He Hn].
    split; [exact He|].
    destruct (in_fold_ends _ _ _ Hn) as [Hs0|(x & Hx & Hn')];
      [discriminate Hs0|].
    exists x. split; [exact Hx|exact Hn'].
Qed.

Lemma searchNodes_type_prefix_witness :
  searchNodes (js "type person") (stored path0 people (js "T1"))
  = (Ok (relation_first (js "type person") people),
     stored path0 people (js "T1"))
  /\ (exists T, match_kw (js "type") (js "type person") = Some T
        /\ forall x,
             In x (relations (relation_first (js "type person") people)) ->
             In x (relations people)
             /\ includes (toLowerCase (relationType x)) (toLowerCase T)
                = true)
  /\ (forall e, In e (entities (relation_first (js "type person") people)) ->
        In e (entities people)
        /\ exists x,
             In x (relations (relation_first (js "type person") people))
             /\ (from x = name e \/ to x = name e)).
Proof.
  apply (searchNodes_type_prefix_filters_relations
           (stored path0 people (js "T1")) people (js "type person")
           "p"%char (js "erson")).
  - split; [reflexivity|].
    exists (fileContent (index_of_graph people (js "T1")) people).
    split; vm_compute; reflexivity.
  - reflexivity.
  - reflexivity.
  - reflexivity.
Defined.
End LookupProperties.

Module PathFacts.
Import StrDefs CodecDefs Str Json JsonDefs StrFacts JsonFacts CodecFacts.
Import GraphTypes IndexStructures Runtime StorageManager.
Import FileDefs FileFacts MarkerFacts RunDefs RunFacts DecodeDefs DecodeFacts.
Import LoadDefs LoadFacts TimeDefs TimeFacts PathDefs.
Local Open Scope monad_scope.

Lemma try_catch_total {W A} (m : M W A) (h : error -> M W A) (w : W) :
  (forall e w', exists a w'', h e w' = (Ok a, w'')) ->
  forall e, fst (try_catch m h w) <> Throw e.
Proof.
  intros Hh e. unfold try_catch. destruct (m w) as [[a|e'|] w'].
  - discriminate.
  - destruct (Hh e' w') as (a & w'' & ->). discriminate.
  - discriminate.
Qed.

Lemma loadIndex_missing (w : World) :
  isIndexLoaded (this w) = false -> file_of w = None ->
  writable (disk w) = true ->
  loadIndex w = (Ok (indexStructure (this w)), created w).
Proof.
  intros Hl Hf Hw. unfold loadIndex. unfold bind at 1. unfold gets at 1.
  rewrite Hl. apply try_ok.
  unfold bind at 1. unfold gets at 1.
  unfold bind at 1. unfold try_catch at 1. unfold bind at 1.
  unfold fs_access at 1. unfold file_of in Hf. rewrite Hf.
  cbv beta iota delta [ret bind modify saveIndexAndEmptyData
    saveIndexAndData gets fs_writeFile].
  rewrite Hw. reflexivity.
Qed.

Lemma loadIndex_missing_read_only (w : World) :
  isIndexLoaded (this w) = false -> file_of w = None ->
  writable (disk w) = false ->
  loadIndex w
  = (Ok (createEmptyIndex (now w)),
     set_indexStructure (createEmptyIndex (now w)) w).
Proof.
  intros Hl Hf Hw. unfold loadIndex. unfold bind at 1. unfold gets at 1.
  rewrite Hl. erewrite try_throw.
  2:{ unfold bind at 1. unfold gets at 1.
      unfold bind at 1. unfold try_catch at 1. unfold bind at 1.
      unfold fs_access at 1. unfold file_of in Hf. rewrite Hf.
      cbv beta iota delta [ret bind modify saveIndexAndEmptyData
        saveIndexAndData gets fs_writeFile].
      rewrite Hw. reflexivity. }
  reflexivity.
Qed.

Lemma created_loaded_on (w : World) : loaded_on (created w) emptyGraph.
Proof.
  split; [reflexivity|].
  exists (fileContent (indexStructure (this w)) emptyGraph). split.
  - unfold file_of, created, set_isIndexLoaded, set_files.
    cbn [this disk files memoryFilePath]. apply lookup_store.
  - apply graph_of_fileContent.
Qed.

Lemma lookup_store_other (p q c : jstring) fs :
  p <> q -> lookup p (store q c fs) = lookup p fs.
Proof.
  intros H. induction fs as [|[p' c'] fs IH]; cbn [store lookup].
  - rewrite (proj2 (eqb_neq p q) H). reflexivity.
  - destruct (Str.eqb q p') eqn:E; cbn [lookup].
    + apply eqb_eq in E. subst p'. rewrite (proj2 (eqb_neq p q) H).
      reflexivity.
    + destruct (Str.eqb p p'); [reflexivity|exact IH].
Qed.

Lemma loadIndex_legacy (w : World) (d : jstring) (g : KnowledgeGraph) :
  isIndexLoaded (this w) = false -> file_of w = Some d ->
  includes d INDEX_MARKER_START = false -> parseLegacyFormat d = Some g ->
  writable (disk w) = true ->
  loadIndex w
  = (Ok (index_of_graph g (now w)), set_isIndexLoaded true (saved g w)).
Proof.
  intros Hl Hf Hi Hg Hw. unfold loadIndex. unfold bind at 1.
  unfold gets at 1. rewrite Hl. apply try_ok.
  unfold bind at 1. unfold gets at 1.
  unfold bind at 1. unfold try_catch at 1. unfold bind at 1.
  unfold fs_access at 1. unfold file_of in Hf. rewrite Hf.
  unfold ret at 1. unfold bind at 1. unfold fs_readFile at 1. rewrite Hf.
  rewrite Hi. cbn [negb]. unfold migrateFromLegacyFormat. rewrite Hg.
  cbv beta iota delta [typed ret bind buildIndexFromGraph modify
    saveIndexAndData gets fs_writeFile].
  cbn [set_indexStructure disk writable this].
  rewrite Hw. reflexivity.
Qed.

Lemma parseLegacyFormat_lines (g : KnowledgeGraph) :
  parseLegacyFormat (join [newline] (dataLines g)) = Some g.
Proof.
  destruct (dataLines g) as [|l ls] eqn:E.
  - rewrite (dataLines_nil g E). reflexivity.
  - unfold parseLegacyFormat. cbv zeta. rewrite <- E.
    pose proof (dataLines_are_data_lines g) as Hd.
    rewrite split_lines_join.
    + rewrite (filter_data_lines _ Hd). apply fold_push_dataLines.
    + rewrite E. discriminate.
    + eapply Forall_impl; [|exact Hd]. intros x Hx. exact (proj1 Hx).
Qed.

Lemma read_index_rebuilds (w : World) (d : jstring) :
  isIndexLoaded (this w) = false -> file_of w = Some d ->
  includes d INDEX_MARKER_START = true ->
  read_index d w = rebuildIndex w ->
  forall i w', rebuildIndex w = (Ok i, w') -> loadIndex w = (Ok i, w').
Proof.
  intros Hl Hf Hi Hread i w' Hr.
  rewrite (loadIndex_existing w d Hl Hf Hi).
  apply try_ok. rewrite Hread. exact Hr.
Qed.
End PathFacts.

Module PathProperties.
Import StrDefs CodecDefs Str Json JsonDefs StrFacts JsonFacts CodecFacts.
Import GraphTypes IndexStructures Runtime StorageManager.
Import FileDefs FileFacts MarkerFacts RunDefs RunFacts DecodeDefs DecodeFacts.
Import LoadDefs LoadFacts TimeDefs TimeFacts PathDefs PathFacts Samples.
Local Open Scope monad_scope.

(** Neither loadIndex nor loadFullGraph throws, whatever the manager and
    the disk: their catch blocks turn every error into an empty index and
    an empty graph. *)
Theorem loadIndex_and_loadFullGraph_never_throw (w : World) (e : error) :
  fst (loadIndex w) <> Throw e /\ fst (loadFullGraph w) <> Throw e.
Proof.
  split.
  - unfold loadIndex. unfold bind at 1. unfold gets at 1.
    destruct (isIndexLoaded (this w)); [discriminate|].
    apply try_catch_total. intros e' w'. eexists. eexists. reflexivity.
  - unfold loadFullGraph. apply try_catch_total.
    intros e' w'. eexists. eexists. reflexivity.
Qed.

(** The payload that saveIndexAndData writes for the index of a graph is
    JSON that parses back to the value written; the reconstruction of
    loadIndex raises no type error on it and yields that very index. *)
Theorem index_payload_reads_back (g : KnowledgeGraph) (t : jstring) :
  Json.parse (Json.stringify_indent2 (serializableIndex (index_of_graph g t)))
  = Some (serializableIndex (index_of_graph g t))
  /\ reconstruct_throws (serializableIndex (index_of_graph g t)) = false
  /\ as_IndexStructure (serializableIndex (index_of_graph g t))
     = Some (index_of_graph g t).
Proof.
  split; [apply (parse_payload (index_of_graph g t))|].
  split; [apply reconstruct_serializable|].
  apply as_IndexStructure_index_of_graph.
Qed.

(** A file in the legacy format, the records alone one per line, reads
    back as the graph whose records they are. *)
Theorem parseLegacyFormat_reads_data_lines (g : KnowledgeGraph) :
  parseLegacyFormat (join [newline] (dataLines g)) = Some g.
Proof. apply parseLegacyFormat_lines. Qed.

(** loadIndex of a manager that has not loaded its index, when the memory
    file does not exist: on a disk that accepts writes it creates the file
    with the cached index and no record, marks the index loaded and
    returns the cached index; on a disk that rejects writes the error of
    the write is caught, and loadIndex returns a new empty index without
    marking it loaded. *)
Theorem loadIndex_creates_missing_file (w : World) :
  isIndexLoaded (this w) = false -> file_of w = None ->
  (writable (disk w) = true ->
   loadIndex w = (Ok (indexStructure (this w)), created w)
   /\ loadFullGraph (created w) = (Ok emptyGraph, created w))
  /\ (writable (disk w) = false ->
      loadIndex w
      = (Ok (createEmptyIndex (now w)),
         set_indexStructure (createEmptyIndex (now w)) w)).
Proof.
  intros Hl Hf. split; intros Hw.
  - split; [apply loadIndex_missing; assumption|].
    apply loadFullGraph_loaded, created_loaded_on.
  - apply loadIndex_missing_read_only; assumption.
Qed.

Lemma loadIndex_creates_missing_file_witness :
  (writable (disk (on_disk (js "other.json") [] (js "T1"))) = true ->
   loadIndex {| this := constructor path0 (js "T1");
                disk := disk (on_disk (js "other.json") [] (js "T1"));
                now := js "T1" |}
   = (Ok (indexStructure (constructor path0 (js "T1"))),
      created {| this := constructor path0 (js "T1");
                 disk := disk (on_disk (js "other.json") [] (js "T1"));
                 now := js "T1" |})
   /\ loadFullGraph
        (created {| this := constructor path0 (js "T1");
                    disk := disk (on_disk (js "other.json") [] (js "T1"));
                    now := js "T1" |})
      = (Ok emptyGraph,
         created {| this := constructor path0 (js "T1");
                    disk := disk (on_disk (js "other.json") [] (js "T1"));
                    now := js "T1" |}))
  /\ (writable (disk (on_disk (js "other.json") [] (js "T1"))) = false ->
      loadIndex {| this := constructor path0 (js "T1");
                   disk := disk (on_disk (js "other.json") [] (js "T1"));
                   now := js "T1" |}
      = (Ok (createEmptyIndex (js "T1")),
         set_indexStructure (createEmptyIndex (js "T1"))
           {| this := constructor path0 (js "T1");
              disk := disk (on_disk (js "other.json") [] (js "T1"));
              now := js "T1" |})).
Proof.
  apply (loadIndex_creates_missing_file
           {| this := constructor path0 (js "T1");
              disk := disk (on_disk (js "other.json") [] (js "T1"));
              now := js "T1" |}).
  - reflexivity.
  - reflexivity.
Defined.

(** setMemoryFilePath keeps the cached index and only marks it as not
    loaded: when the new path holds no file and the disk accepts writes,
    the next loadIndex returns the index of the previous file and writes
    it, with no record, to the new file; the graph read back is empty. *)
Theorem setMemoryFilePath_keeps_previous_index (w : World)
  (newPath : jstring) :
  lookup newPath (files (disk w)) = None -> writable (disk w) = true ->
  exists w',
    (setMemoryFilePath newPath ;; loadIndex) w
    = (Ok (indexStructure (this w)), w')
    /\ memoryFilePath (this w') = newPath
    /\ indexStructure (this w') = indexStructure (this w)
    /\ file_of w' = Some (fileContent (indexStructure (this w)) emptyGraph)
    /\ loadFullGraph w' = (Ok emptyGraph, w').
Proof.
  intros Hf Hw.
  set (w0 := {| this := {| indexStructure := indexStructure (this w);
                           memoryFilePath := newPath;
                           isIndexLoaded := false |};
                disk := disk w; now := now w |}).
  exists (created w0).
  split; [|split; [reflexivity|split; [reflexivity|split]]].
  - unfold bind at 1. unfold setMemoryFilePath, modify. fold w0.
    apply (loadIndex_missing w0); [reflexivity|exact Hf|exact Hw].
  - unfold file_of, created, set_isIndexLoaded, set_files.
    cbn [this disk files memoryFilePath]. apply lookup_store.
  - apply loadFullGraph_loaded, created_loaded_on.
Qed.

Lemma setMemoryFilePath_keeps_previous_index_witness :
  exists w',
    (setMemoryFilePath (js "other.json") ;; loadIndex)
      (stored path0 people (js "T1"))
    = (Ok (indexStructure (this (stored path0 people (js "T1")))), w')
    /\ memoryFilePath (this w') = js "other.json"
    /\ indexStructure (this w')
       = indexStructure (this (stored path0 people (js "T1")))
    /\ file_of w'
       = Some (fileContent
                 (indexStructure (this (stored path0 people (js "T1"))))
                 emptyGraph)
    /\ loadFullGraph w' = (Ok emptyGraph, w').
Proof.
  apply (setMemoryFilePath_keeps_previous_index
           (stored path0 people (js "T1")) (js "other.json")).
  - reflexivity.
  - reflexivity.
Defined.

(** loadIndex of a manager that has not loaded its index migrates a file
    in the legacy format (no start marker, and no escape beyond the
    character model) on a disk that accepts writes: it returns, and
    caches, the index of the graph that the records read as, stamped with
    the time of the call, and marks the index loaded. The memory file is
    rewritten in the indexed format, with its start marker, and reads back
    as that graph; the other files and the path are as they were, and
    loadFullGraph then returns that graph. *)
Theorem loadIndex_migrates_legacy_file (w : World) (d : jstring)
  (g : KnowledgeGraph) :
  isIndexLoaded (this w) = false -> file_of w = Some d ->
  includes d INDEX_MARKER_START = false -> narrow_escapes d = true ->
  parseLegacyFormat d = Some g ->
  writable (disk w) = true ->
  exists w' d',
    loadIndex w = (Ok (index_of_graph g (now w)), w')
    /\ isIndexLoaded (this w') = true
    /\ indexStructure (this w') = index_of_graph g (now w)
    /\ memoryFilePath (this w') = memoryFilePath (this w)
    /\ file_of w' = Some d'
    /\ includes d' INDEX_MARKER_START = true
    /\ graph_of_file d' = Some g
    /\ (forall p, p <> memoryFilePath (this w) ->
                  lookup p (files (disk w')) = lookup p (files (disk w)))
    /\ loadFullGraph w' = (Ok g, w').
Proof.
  intros Hl Hf Hi _ Hg Hw.
  assert (Hfile : file_of (set_isIndexLoaded true (saved g w))
                  = Some (fileContent (index_of_graph g (now w)) g)).
  { unfold file_of, saved, set_isIndexLoaded.
    cbn [this disk files memoryFilePath]. apply lookup_store. }
  exists (set_isIndexLoaded true (saved g w)),
         (fileContent (index_of_graph g (now w)) g).
  split; [apply (loadIndex_legacy w d g); assumption|].
  split; [reflexivity|]. split; [reflexivity|]. split; [reflexivity|].
  split; [exact Hfile|]. split; [apply start_marker_saved|].
  split; [apply graph_of_fileContent|]. split.
  - intros p Hp. unfold saved, set_isIndexLoaded. cbn [disk files].
    apply lookup_store_other. exact Hp.
  - apply loadFullGraph_loaded. split; [reflexivity|].
    exists (fileContent (index_of_graph g (now w)) g).
    split; [exact Hfile|apply graph_of_fileContent].
Qed.

Lemma loadIndex_migrates_legacy_file_witness :
  exists w' d',
    loadIndex (on_disk path0 (join [newline] (dataLines people)) (js "T2"))
    = (Ok (index_of_graph people
             (now (on_disk path0 (join [newline] (dataLines people))
                     (js "T2")))), w')
    /\ isIndexLoaded (this w') = true
    /\ indexStructure (this w')
       = index_of_graph people
           (now (on_disk path0 (join [newline] (dataLines people))
                   (js "T2")))
    /\ memoryFilePath (this w')
       = memoryFilePath
           (this (on_disk path0 (join [newline] (dataLines people))
                    (js "T2")))
    /\ file_of w' = Some d'
    /\ includes d' INDEX_MARKER_START = true
    /\ graph_of_file d' = Some people
    /\ (forall p,
          p <> memoryFilePath
                 (this (on_disk path0 (join [newline] (dataLines people))
                          (js "T2"))) ->
          lookup p (files (disk w'))
          = lookup p
              (files (disk (on_disk path0
                              (join [newline] (dataLines people))
                              (js "T2")))))
    /\ loadFullGraph w' = (Ok people, w').
Proof.
  apply (loadIndex_migrates_legacy_file
           (on_disk path0 (join [newline] (dataLines people)) (js "T2"))
           (join [newline] (dataLines people)) people).
  - reflexivity.
  - vm_compute. reflexivity.
  - vm_compute. reflexivity.
  - vm_compute. reflexivity.
  - vm_compute. reflexivity.
  - reflexivity.
Defined.

(** An index payload that is JSON of the wrong shape, so that the
    reconstruction of the maps raises a type error, is recovered from like
    one that is not JSON: loadIndex does what rebuildIndex does and
    returns the index of the graph of the data section. *)
Theorem loadIndex_rebuilds_on_type_error (w : World) (d : jstring)
  (v : json) (g : KnowledgeGraph) :
  isIndexLoaded (this w) = false -> file_of w = Some d ->
  includes d INDEX_MARKER_START = true ->
  Json.parse (index_text d) = Some v -> reconstruct_throws v = true ->
  graph_of_file d = Some g -> writable (disk w) = true ->
  loadIndex w = rebuildIndex w
  /\ fst (loadIndex w) = Ok (index_of_graph g (now w)).
Proof.
  intros Hl Hf Hi Hp Ht Hg Hw.
  pose proof (rebuildIndex_writable w d g Hf Hg Hw) as Hr.
  assert (Hread : read_index d w = rebuildIndex w).
  { unfold read_index. cbv zeta. rewrite Hp, Ht.
    destruct (_ || _); reflexivity. }
  rewrite (read_index_rebuilds w d Hl Hf Hi Hread _ _ Hr), Hr.
  split; reflexivity.
Qed.

Lemma loadIndex_rebuilds_on_type_error_witness :
  loadIndex (on_disk path0 null_index_file (js "T2"))
  = rebuildIndex (on_disk path0 null_index_file (js "T2"))
  /\ fst (loadIndex (on_disk path0 null_index_file (js "T2")))
     = Ok (index_of_graph {| entities := [alice]; relations := [] |}
             (now (on_disk path0 null_index_file (js "T2")))).
Proof.
  apply (loadIndex_rebuilds_on_type_error
           (on_disk path0 null_index_file (js "T2")) null_index_file
           JNull {| entities := [alice]; relations := [] |}).
  - reflexivity.
  - vm_compute. reflexivity.
  - vm_compute. reflexivity.
  - vm_compute. reflexivity.
  - reflexivity.
  - vm_compute. reflexivity.
  - reflexivity.
Defined.

(** When an entity name, a type or a relation end holds the text of the
    end marker, the payload that saveIndexAndData writes holds it too, and
    loadIndex cuts the payload short there: the text it parses is not
    JSON, and it falls back on rebuildIndex, which returns the index of
    the graph stamped with the time of the call. *)
Theorem loadIndex_rebuilds_when_payload_holds_end_marker (w : World)
  (i : IndexStructure) (g : KnowledgeGraph) :
  isIndexLoaded (this w) = false -> file_of w = Some (fileContent i g) ->
  includes (payload i) INDEX_MARKER_END = true ->
  writable (disk w) = true ->
  Json.parse (index_text (fileContent i g)) = None
  /\ loadIndex w = rebuildIndex w
  /\ fst (loadIndex w) = Ok (index_of_graph g (now w)).
Proof.
  intros Hl Hf Hi Hw. unfold includes in Hi.
  destruct (find INDEX_MARKER_END (payload i)) as [j|] eqn:He;
    [|discriminate Hi].
  pose proof (rebuildIndex_writable w _ g Hf (graph_of_fileContent i g) Hw)
    as Hr.
  split; [exact (parse_index_text_cut i g j He)|].
  rewrite (loadIndex_saved_cut w i g j Hl Hf He).
  rewrite (try_ok _ _ _ _ _ Hr), Hr. split; reflexivity.
Qed.

Lemma loadIndex_rebuilds_when_payload_holds_end_marker_witness :
  Json.parse (index_text (fileContent (index_of_graph marked (js "T1")) marked))
  = None
  /\ loadIndex (reopened (stored path0 marked (js "T1")) (js "T2"))
     = rebuildIndex (reopened (stored path0 marked (js "T1")) (js "T2"))
  /\ fst (loadIndex (reopened (stored path0 marked (js "T1")) (js "T2")))
     = Ok (index_of_graph marked
             (now (reopened (stored path0 marked (js "T1")) (js "T2")))).
Proof.
  apply (loadIndex_rebuilds_when_payload_holds_end_marker
           (reopened (stored path0 marked (js "T1")) (js "T2"))
           (index_of_graph marked (js "T1")) marked).
  - reflexivity.
  - vm_compute. reflexivity.
  - vm_compute. reflexivity.
  - reflexivity.
Defined.

(** On a disk that rejects writes rebuildIndex throws, even when the data
    section reads as a graph: the save fails, the catch block resets the
    cache to an empty index, and its own save fails in turn. loadIndex
    catches that error and returns the empty index, without marking it
    loaded and although the file holds records. *)
Theorem rebuildIndex_throws_on_read_only_disk (w : World) (d : jstring)
  (g : KnowledgeGraph) :
  file_of w = Some d -> graph_of_file d = Some g ->
  writable (disk w) = false ->
  rebuildIndex w
  = (Throw IOError, set_indexStructure (createEmptyIndex (now w)) w)
  /\ (isIndexLoaded (this w) = false ->
      includes d INDEX_MARKER_START = true -> index_payload_corrupt d ->
      loadIndex w
      = (Ok (createEmptyIndex (now w)),
         set_indexStructure (createEmptyIndex (now w)) w)).
Proof.
  intros Hf Hg Hw.
  pose proof (rebuildIndex_read_only w d g Hf Hg Hw) as Hr.
  split; [exact Hr|]. intros Hl Hi Hc.
  rewrite (loadIndex_existing w d Hl Hf Hi).
  assert (Hread : read_index d w = rebuildIndex w).
  { unfold read_index. cbv zeta. destruct Hc as [Hc|[Hc|Hc]].
    - rewrite Hc. reflexivity.
    - apply Z.leb_le in Hc. rewrite Hc, orb_true_r. reflexivity.
    - fold (index_text d). rewrite Hc. destruct (_ || _); reflexivity. }
  erewrite try_throw; [|rewrite Hread; exact Hr]. reflexivity.
Qed.

Lemma rebuildIndex_throws_on_read_only_disk_witness :
  rebuildIndex (read_only (on_disk path0 truncated_file (js "T2")))
  = (Throw IOError,
     set_indexStructure
       (createEmptyIndex
          (now (read_only (on_disk path0 truncated_file (js "T2")))))
       (read_only (on_disk path0 truncated_file (js "T2"))))
  /\ (isIndexLoaded
        (this (read_only (on_disk path0 truncated_file (js "T2")))) = false ->
      includes truncated_file INDEX_MARKER_START = true ->
      index_payload_corrupt truncated_file ->
      loadIndex (read_only (on_disk path0 truncated_file (js "T2")))
      = (Ok (createEmptyIndex
               (now (read_only (on_disk path0 truncated_file (js "T2"))))),
         set_indexStructure
           (createEmptyIndex
              (now (read_only (on_disk path0 truncated_file (js "T2")))))
           (read_only (on_disk path0 truncated_file (js "T2"))))).
Proof.
  apply (rebuildIndex_throws_on_read_only_disk
           (read_only (on_disk path0 truncated_file (js "T2")))
           truncated_file {| entities := [alice]; relations := [] |}).
  - vm_compute. reflexivity.
  - vm_compute. reflexivity.
  - reflexivity.
Defined.
End PathProperties.

Module MigrateFacts.
Import StrDefs Str Json StrFacts.
Import GraphTypes IndexStructures Runtime StorageManager.
Import FileDefs MarkerFacts RunDefs RunFacts DecodeDefs DecodeFacts.
Import LoadDefs LoadFacts TimeDefs TimeFacts MigrateDefs.
Local Open Scope monad_scope.

Lemma migrate_index (g : KnowledgeGraph) (t : jstring) :
  Migrate.buildIndexFromGraph g t
  = set_metadata
      {| version := js "2.0.0";
         entityCount := length (entities g);
         relationCount := length (relations g);
         lastUpdated := t;
         compressionEnabled := false |}
      (index_of_graph g t).
Proof.
  unfold Migrate.buildIndexFromGraph, index_of_graph. cbv zeta.
  rewrite <- index_relations_metadata, <- index_entities_metadata.
  reflexivity.
Qed.

Lemma migrateFile_legacy (env : Migrate.Env) (src dst d : jstring)
  (g : KnowledgeGraph) :
  lookup src (files (Migrate.fs env)) = Some d ->
  includes d INDEX_MARKER_START = false ->
  Migrate.parseLegacyFormat d = Some g ->
  writable (Migrate.fs env) = true ->
  Migrate.migrateFile src dst env
  = (Ok tt,
     {| Migrate.fs :=
          {| files :=
               store dst
                 (fileContent
                    (Migrate.buildIndexFromGraph g (Migrate.clock env)) g)
                 (files (Migrate.fs env));
             writable := writable (Migrate.fs env) |};
        Migrate.clock := Migrate.clock env |}).
Proof.
  intros Hs Hi Hg Hw. unfold Migrate.migrateFile.
  unfold bind at 1. unfold Migrate.readFile at 1. rewrite Hs, Hi, Hg.
  cbv beta iota delta [Migrate.typed ret bind gets
    Migrate.writeIndexedFormat Migrate.writeFile].
  rewrite Hw. reflexivity.
Qed.

Lemma main_cases (env : Migrate.Env) (sourcePath targetAnswer confirm : jstring) :
  Migrate.main sourcePath targetAnswer confirm env
  = match lookup sourcePath (files (Migrate.fs env)) with
    | None => (Ok tt, env)
    | Some _ =>
        match lookup (match targetAnswer with
                      | [] => sourcePath ++ js ".indexed"
                      | _ :: _ => targetAnswer
                      end) (files (Migrate.fs env)) with
        | Some _ =>
            if Str.eqb (toLowerCase confirm) (js "y")
            then try_catch
                   (Migrate.migrateFile sourcePath
                      (match targetAnswer with
                       | [] => sourcePath ++ js ".indexed"
                       | _ :: _ => targetAnswer
                       end)) (fun _ => ret tt) env
            else (Ok tt, env)
        | None =>
            try_catch
              (Migrate.migrateFile sourcePath
                 (match targetAnswer with
                  | [] => sourcePath ++ js ".indexed"
                  | _ :: _ => targetAnswer
                  end)) (fun _ => ret tt) env
        end
    end.
Proof.
  unfold Migrate.main. unfold bind at 1. unfold try_catch at 1.
  unfold bind at 1. unfold Migrate.access at 1.
  destruct (lookup sourcePath (files (Migrate.fs env))) as [d|] eqn:Hs;
    [|reflexivity].
  unfold ret at 1. cbn [negb]. cbv zeta.
  set (targetPath := match targetAnswer with
                     | [] => sourcePath ++ js ".indexed"
                     | _ :: _ => targetAnswer
                     end).
  unfold bind at 1. unfold try_catch at 1.
  unfold bind at 1. unfold Migrate.access at 1.
  destruct (lookup targetPath (files (Migrate.fs env))) as [d'|] eqn:Ht.
  - unfold ret at 1. cbn [andb].
    destruct (Str.eqb (toLowerCase confirm) (js "y")); reflexivity.
  - reflexivity.
Qed.
End MigrateFacts.

Module MigrateProperties.
Import StrDefs Str Json StrFacts.
Import GraphTypes IndexStructures Runtime StorageManager.
Import FileDefs MarkerFacts RunDefs RunFacts DecodeDefs DecodeFacts.
Import LoadDefs LoadFacts TimeDefs TimeFacts PathDefs PathFacts.
Import MigrateDefs MigrateFacts Samples.
Local Open Scope monad_scope.

(** The migration script turns a legacy file (no start marker, and no
    escape beyond the character model) whose records read as a graph into
    a file in the indexed format at the target path, on a disk that
    accepts writes: the target file has the start marker and reads back as
    that graph, every other file is as it was, and a storage manager
    constructed on the target path reads that graph back from it. *)
Theorem migrateFile_converts_legacy_file (env : Migrate.Env)
  (src dst d : jstring) (g : KnowledgeGraph) :
  lookup src (files (Migrate.fs env)) = Some d ->
  includes d INDEX_MARKER_START = false -> narrow_escapes d = true ->
  Migrate.parseLegacyFormat d = Some g ->
  writable (Migrate.fs env) = true ->
  exists env' d',
    Migrate.migrateFile src dst env = (Ok tt, env')
    /\ lookup dst (files (Migrate.fs env')) = Some d'
    /\ includes d' INDEX_MARKER_START = true
    /\ graph_of_file d' = Some g
    /\ (forall p, p <> dst ->
                  lookup p (files (Migrate.fs env'))
                  = lookup p (files (Migrate.fs env)))
    /\ writable (Migrate.fs env') = true
    /\ forall t, fst (loadFullGraph (manager_on dst env' t)) = Ok g.
Proof.
  intros Hs Hi _ Hg Hw. eexists.
  exists (fileContent (Migrate.buildIndexFromGraph g (Migrate.clock env)) g).
  split; [exact (migrateFile_legacy env src dst d g Hs Hi Hg Hw)|].
  cbn [Migrate.fs files writable].
  split; [apply lookup_store|].
  split; [apply start_marker_saved|].
  split; [apply graph_of_fileContent|].
  split; [intros p Hp; apply lookup_store_other; exact Hp|].
  split; [exact Hw|].
  intros t.
  apply (loadFullGraph_saved_file _
           (Migrate.buildIndexFromGraph g (Migrate.clock env)) g).
  unfold file_of, manager_on, constructor.
  cbn [this disk files memoryFilePath Migrate.fs]. apply lookup_store.
Qed.

Lemma migrateFile_converts_legacy_file_witness :
  exists env' d',
    Migrate.migrateFile path0 (js "memory.json.indexed")
      (legacy_env path0 (join [newline] (dataLines people)) (js "T1"))
    = (Ok tt, env')
    /\ lookup (js "memory.json.indexed") (files (Migrate.fs env')) = Some d'
    /\ includes d' INDEX_MARKER_START = true
    /\ graph_of_file d' = Some people
    /\ (forall p, p <> js "memory.json.indexed" ->
                  lookup p (files (Migrate.fs env'))
                  = lookup p
                      (files (Migrate.fs
                                (legacy_env path0
                                   (join [newline] (dataLines people))
                                   (js "T1")))))
    /\ writable (Migrate.fs env') = true
    /\ forall t,
         fst (loadFullGraph (manager_on (js "memory.json.indexed") env' t))
         = Ok people.
Proof.
  apply (migrateFile_converts_legacy_file
           (legacy_env path0 (join [newline] (dataLines people)) (js "T1"))
           path0 (js "memory.json.indexed")
           (join [newline] (dataLines people)) people).
  - vm_compute. reflexivity.
  - vm_compute. reflexivity.
  - vm_compute. reflexivity.
  - vm_compute. reflexivity.
  - reflexivity.
Defined.

(** The index that the migration script builds for a graph is the index
    that the storage manager builds for it at the same time, but for the
    version of the metadata: 2.0.0 in the script, 1.0.0 in the manager. *)
Theorem migrate_index_differs_in_version_only (g : KnowledgeGraph)
  (t : jstring) :
  entityIndices (Migrate.buildIndexFromGraph g t)
  = entityIndices (index_of_graph g t)
  /\ typeIndices (Migrate.buildIndexFromGraph g t)
     = typeIndices (index_of_graph g t)
  /\ relationIndices (Migrate.buildIndexFromGraph g t)
     = relationIndices (index_of_graph g t)
  /\ metadata (Migrate.buildIndexFromGraph g t)
     = {| version := js "2.0.0";
          entityCount := entityCount (metadata (index_of_graph g t));
          relationCount := relationCount (metadata (index_of_graph g t));
          lastUpdated := lastUpdated (metadata (index_of_graph g t));
          compressionEnabled :=
            compressionEnabled (metadata (index_of_graph g t)) |}
  /\ version (metadata (index_of_graph g t)) = js "1.0.0".
Proof.
  rewrite migrate_index, !metadata_index_of_graph.
  repeat split; reflexivity.
Qed.

(** A source file that is in the indexed format already is not
    converted: the script copies it to the target path when the two paths
    differ, on a disk that accepts writes, and does nothing when they are
    the same. *)
Theorem migrateFile_copies_indexed_file (env : Migrate.Env)
  (src dst d : jstring) :
  lookup src (files (Migrate.fs env)) = Some d ->
  includes d INDEX_MARKER_START = true ->
  (src = dst -> Migrate.migrateFile src dst env = (Ok tt, env))
  /\ (src <> dst -> writable (Migrate.fs env) = true ->
      exists env',
        Migrate.migrateFile src dst env = (Ok tt, env')
        /\ lookup dst (files (Migrate.fs env')) = Some d
        /\ Migrate.clock env' = Migrate.clock env).
Proof.
  intros Hs Hi. split.
  - intros E. unfold Migrate.migrateFile.
    unfold bind at 1. unfold Migrate.readFile at 1. rewrite Hs, Hi.
    apply eqb_eq in E. rewrite E. reflexivity.
  - intros E Hw. apply eqb_neq in E. unfold Migrate.migrateFile.
    unfold bind at 1. unfold Migrate.readFile at 1. rewrite Hs, Hi, E.
    cbn [negb]. unfold Migrate.copyFile. unfold bind at 1.
    unfold Migrate.readFile at 1. rewrite Hs. unfold Migrate.writeFile.
    rewrite Hw. eexists. split; [reflexivity|].
    cbn [Migrate.fs files Migrate.clock].
    split; [apply lookup_store|reflexivity].
Qed.

Lemma migrateFile_copies_indexed_file_witness :
  (path0 = js "copy.json" ->
   Migrate.migrateFile path0 (js "copy.json")
     (legacy_env path0 (fileContent (index_of_graph people (js "T1")) people)
        (js "T2"))
   = (Ok tt,
      legacy_env path0 (fileContent (index_of_graph people (js "T1")) people)
        (js "T2")))
  /\ (path0 <> js "copy.json" ->
      writable (Migrate.fs
                  (legacy_env path0
                     (fileContent (index_of_graph people (js "T1")) people)
                     (js "T2"))) = true ->
      exists env',
        Migrate.migrateFile path0 (js "copy.json")
          (legacy_env path0
             (fileContent (index_of_graph people (js "T1")) people)
             (js "T2"))
        = (Ok tt, env')
        /\ lookup (js "copy.json") (files (Migrate.fs env'))
           = Some (fileContent (index_of_graph people (js "T1")) people)
        /\ Migrate.clock env'
           = Migrate.clock
               (legacy_env path0
                  (fileContent (index_of_graph people (js "T1")) people)
                  (js "T2"))).
Proof.
  apply (migrateFile_copies_indexed_file
           (legacy_env path0
              (fileContent (index_of_graph people (js "T1")) people)
              (js "T2"))
           path0 (js "copy.json")
           (fileContent (index_of_graph people (js "T1")) people)).
  - vm_compute. reflexivity.
  - vm_compute. reflexivity.
Defined.

(** main of the migration script never throws, and it leaves the disk as
    it is when the source file does not exist, and when the target file
    exists and the answer to the overwrite question is neither y nor Y. *)
Theorem main_asks_before_overwriting (env : Migrate.Env)
  (sourcePath targetAnswer confirm : jstring) (e : error) :
  fst (Migrate.main sourcePath targetAnswer confirm env) <> Throw e
  /\ (lookup sourcePath (files (Migrate.fs env)) = None ->
      Migrate.main sourcePath targetAnswer confirm env = (Ok tt, env))
  /\ (forall d d',
        lookup sourcePath (files (Migrate.fs env)) = Some d ->
        lookup (match targetAnswer with
                | [] => sourcePath ++ js ".indexed"
                | _ :: _ => targetAnswer
                end) (files (Migrate.fs env)) = Some d' ->
        toLowerCase confirm <> js "y" ->
        Migrate.main sourcePath targetAnswer confirm env = (Ok tt, env)).
Proof.
  rewrite (main_cases env sourcePath targetAnswer confirm).
  destruct (lookup sourcePath (files (Migrate.fs env))) as [d|] eqn:Hs.
  - set (targetPath := match targetAnswer with
                       | [] => sourcePath ++ js ".indexed"
                       | _ :: _ => targetAnswer
                       end).
    destruct (lookup targetPath (files (Migrate.fs env))) as [d'|] eqn:Ht.
    + destruct (Str.eqb (toLowerCase confirm) (js "y")) eqn:Ec.
      * split; [|split].
        -- apply PathFacts.try_catch_total. intros e' w'.
           eexists. eexists. reflexivity.
        -- discriminate.
        -- intros ? ? _ _ Hn. apply eqb_eq in Ec. contradiction.
      * split; [discriminate|]. split; [discriminate|].
        intros; reflexivity.
    + split; [|split].
      * apply PathFacts.try_catch_total. intros e' w'.
        eexists. eexists. reflexivity.
      * discriminate.
      * intros ? ? _ Hd. discriminate Hd.
  - split; [discriminate|]. split; [reflexivity|].
    intros ? ? Hd. discriminate Hd.
Qed.
End MigrateProperties.

Module MoreFacts.
Import StrDefs Str StrFacts.
Import IndexStructures Runtime StorageManager KnowledgeGraphManager GraphTypes.
Import FileDefs RunDefs RunFacts IndexFacts GraphDefs GraphFacts BatchFacts.
Import DecodeDefs DecodeFacts LookupDefs LookupFacts SearchDefs SearchFacts.
Import StoreDefs StoreFacts PathDefs PathFacts BatchDefs.
Local Open Scope monad_scope.

Lemma missing_contents_In (e : Entity) (cs : list jstring) (c : jstring) :
  In c (missing_contents e cs) <-> In c cs /\ ~ In c (observations e).
Proof.
  unfold missing_contents. rewrite filter_In, negb_true_iff.
  split; intros [H1 H2]; (split; [exact H1|]).
  - intros Hin. apply array_includes_In in Hin. rewrite Hin in H2.
    discriminate H2.
  - destruct (array_includes (observations e) c) eqn:E; [|reflexivity].
    exfalso. apply H2. apply array_includes_In. exact E.
Qed.

Lemma NoDup_app_disjoint {A} (xs ys : list A) :
  NoDup xs -> NoDup ys -> (forall x, In x ys -> ~ In x xs) -> NoDup (xs ++ ys).
Proof.
  intros Hx Hy Hd. induction Hx as [|x xs Hn Hx IH]; [exact Hy|].
  cbn [app]. constructor.
  - intros Hin. apply in_app_or in Hin. destruct Hin as [Hin|Hin].
    + contradiction.
    + apply (Hd x Hin). left. reflexivity.
  - apply IH. intros y Hin Hin'. apply (Hd y Hin). right. exact Hin'.
Qed.

(** *** Removing lists of entities and relations *)

Lemma forEach_deleteEntity_loaded (ns : list jstring) :
  forall w g,
    loaded_on w g -> writable (disk w) = true ->
    exists w',
      forEach ns deleteEntity w = (Ok tt, w')
      /\ loaded_on w' (fold_left (fun g n => remove_entity n g) ns g)
      /\ writable (disk w') = true.
Proof.
  induction ns as [|n ns IH]; intros w g H Hw.
  - exists w. split; [reflexivity|split; assumption].
  - cbn [forEach fold_left].
    rewrite (bind_ok _ _ _ _ _ (deleteEntity_loaded n w g H Hw)).
    apply IH; [apply saved_loaded_on; exact (proj1 H)|exact Hw].
Qed.

Lemma forEach_deleteRelation_loaded (rs : list Relation) :
  forall w g,
    loaded_on w g -> writable (disk w) = true ->
    exists w',
      forEach rs deleteRelation w = (Ok tt, w')
      /\ loaded_on w' (fold_left (fun g r => remove_relation r g) rs g)
      /\ writable (disk w') = true.
Proof.
  induction rs as [|r rs IH]; intros w g H Hw.
  - exists w. split; [reflexivity|split; assumption].
  - cbn [forEach fold_left].
    rewrite (bind_ok _ _ _ _ _ (deleteRelation_loaded r w g H Hw)).
    apply IH; [apply saved_loaded_on; exact (proj1 H)|exact Hw].
Qed.

Lemma entities_remove_relations (rs : list Relation) :
  forall g,
    entities (fold_left (fun g r => remove_relation r g) rs g) = entities g.
Proof.
  induction rs as [|r rs IH]; intros g; [reflexivity|].
  cbn [fold_left]. rewrite IH. reflexivity.
Qed.

Lemma relations_remove_relations (rs : list Relation) (x : Relation) :
  forall g,
    In x (relations (fold_left (fun g r => remove_relation r g) rs g))
    <-> In x (relations g) /\ ~ In x rs.
Proof.
  induction rs as [|r rs IH]; intros g.
  - cbn. tauto.
  - cbn [fold_left]. rewrite IH. unfold remove_relation at 1.
    cbn [relations]. rewrite filter_In, negb_true_iff. cbn [In].
    split.
    + intros [[Hin Hs] Hn]. split; [exact Hin|]. intros [E|Hr]; [|contradiction].
      subst x. rewrite same_relation_refl in Hs. discriminate Hs.
    + intros [Hin Hn]. split; [split; [exact Hin|]|tauto].
      destruct (same_relation r x) eqn:E; [|reflexivity].
      apply same_relation_eq in E. exfalso. apply Hn. left. symmetry. exact E.
Qed.

Lemma entities_remove_entities (ns : list jstring) (e : Entity) :
  forall g,
    In e (entities (fold_left (fun g n => remove_entity n g) ns g))
    <-> In e (entities g) /\ ~ In (name e) ns.
Proof.
  induction ns as [|n ns IH]; intros g.
  - cbn. tauto.
  - cbn [fold_left]. rewrite IH. unfold remove_entity at 1.
    cbn [entities]. rewrite filter_In, negb_true_iff, eqb_neq. cbn [In].
    intuition congruence.
Qed.

Lemma relations_remove_entities (ns : list jstring) (r : Relation) :
  forall g,
    In r (relations (fold_left (fun g n => remove_entity n g) ns g))
    <-> In r (relations g) /\ ~ In (from r) ns /\ ~ In (to r) ns.
Proof.
  induction ns as [|n ns IH]; intros g.
  - cbn. tauto.
  - cbn [fold_left]. rewrite IH. unfold remove_entity at 1.
    cbn [relations].
    rewrite filter_In, andb_true_iff, !negb_true_iff, !eqb_neq. cbn [In].
    intuition congruence.
Qed.

(** *** A manager that has just been constructed *)

Lemma loadFullGraph_missing (w : World) :
  isIndexLoaded (this w) = false -> file_of w = None ->
  writable (disk w) = true ->
  loadFullGraph w = (Ok emptyGraph, created w).
Proof.
  intros Hl Hf Hw. unfold loadFullGraph. apply try_ok.
  rewrite (bind_ok _ _ _ _ _ (loadIndex_missing w Hl Hf Hw)).
  destruct (created_loaded_on w) as (_ & d & Hd & Hg).
  exact (read_data_section (created w) d emptyGraph Hd Hg).
Qed.

Lemma fold_put_new (es : list Entity) :
  forall g,
    NoDup (map name (entities g) ++ map name es) ->
    fold_left (fun g e => put_entity e g) es g
    = {| entities := entities g ++ es; relations := relations g |}.
Proof.
  induction es as [|e es IH]; intros g H.
  - cbn. rewrite app_nil_r. destruct g. reflexivity.
  - cbn [fold_left].
    assert (Hnew : has_entity (name e) g = false).
    { destruct (has_entity (name e) g) eqn:E; [|reflexivity].
      rewrite has_entity_names in E. apply existsb_exists in E.
      destruct E as (m & Hm & Em). apply eqb_eq in Em. subst m.
      cbn [map] in H. apply NoDup_remove_2 in H. exfalso. apply H.
      apply in_or_app. left. exact Hm. }
    assert (Hput : put_entity e g
                   = {| entities := entities g ++ [e];
                        relations := relations g |}).
    { unfold put_entity. cbv zeta.
      rewrite (proj1 (findIndex_existsb _ _)).
      unfold has_entity in Hnew. rewrite Hnew. reflexivity. }
    rewrite Hput, IH; cbn [entities relations].
    + rewrite <- app_assoc. reflexivity.
    + rewrite map_app. cbn [map]. rewrite <- app_assoc. exact H.
Qed.

(** *** Several terms *)




End MoreFacts.

Module MoreProperties.
Import StrDefs Str StrFacts.
Import IndexStructures Runtime StorageManager KnowledgeGraphManager GraphTypes.
Import FileDefs RunDefs RunFacts IndexFacts GraphDefs GraphFacts BatchFacts.
Import DecodeDefs DecodeFacts LookupDefs LookupFacts SearchDefs SearchFacts.
Import StoreDefs StoreFacts PathDefs PathFacts BatchDefs MoreFacts Samples.
Local Open Scope monad_scope.

(** addObservations of one item that names an entity of a loaded store
    that accepts writes and whose cached index describes the file: the
    call reports the contents that the entity does not have yet, in the
    order of the input. The entity read back under that name afterwards
    has the name and type it had, and its observations are those it had
    followed by the reported contents; when neither the observations it
    had nor the contents hold a string twice, its observations hold none
    twice. The graph read back has the entity names and the relations it
    had. *)
Theorem addObservations_appends_missing_contents (w : World)
  (g : KnowledgeGraph) (n : jstring) (cs : list jstring) (e : Entity) :
  loaded_on w g -> coherent w g -> writable (disk w) = true ->
  List.find (fun x => Str.eqb (name x) n) (entities g) = Some e ->
  exists w' e' g',
    addObservations [(n, cs)] w = (Ok [(n, missing_contents e cs)], w')
    /\ (forall c, In c (missing_contents e cs)
                  <-> In c cs /\ ~ In c (observations e))
    /\ getEntityByName n w' = (Ok (Some e'), w')
    /\ e' = {| name := name e; entityType := entityType e;
               observations := observations e ++ missing_contents e cs |}
    /\ (forall c, In c (observations e')
                  <-> In c (observations e) \/ In c cs)
    /\ (NoDup (observations e) -> NoDup cs -> NoDup (observations e'))
    /\ loadFullGraph w' = (Ok g', w')
    /\ map name (entities g') = map name (entities g)
    /\ relations g' = relations g.
Proof.
  intros H Hc Hw He.
  set (e1 := {| name := name e; entityType := entityType e;
                observations := observations e ++ missing_contents e cs |}).
  assert (Hin : forall c, In c (observations e1)
                          <-> In c (observations e) \/ In c cs).
  { intros c. unfold e1. cbn [observations]. rewrite in_app_iff. split.
    - intros [Ho|Hm]; [left; exact Ho|].
      right. apply missing_contents_In in Hm. exact (proj1 Hm).
    - intros [Ho|Hcs]; [left; exact Ho|].
      destruct (array_includes (observations e) c) eqn:Ea.
      + left. apply array_includes_In. exact Ea.
      + right. apply missing_contents_In. split; [exact Hcs|].
        intros Ho. apply array_includes_In in Ho. congruence. }
  assert (Hnd : NoDup (observations e) -> NoDup cs ->
                NoDup (observations e1)).
  { intros Ho Hcs. unfold e1. cbn [observations].
    apply NoDup_app_disjoint; [exact Ho| |].
    - unfold missing_contents. apply NoDup_filter. exact Hcs.
    - intros c Hm. apply missing_contents_In in Hm. exact (proj2 Hm). }
  unfold addObservations. cbn [addObservations_from].
  rewrite (bind_ok _ _ _ _ _ (getEntityByName_loaded n w g H Hc)).
  rewrite He. cbv zeta. fold (missing_contents e cs).
  destruct (0 <? length (missing_contents e cs)) eqn:El.
  - rewrite (bind_ok _ _ _ _ _ (updateEntity_loaded _ w g H Hw)).
    eexists. exists e1.
    exists (put_entity (push_observations e (missing_contents e cs)) g).
    split; [reflexivity|].
    split; [intros c; apply missing_contents_In|]. split.
    { rewrite (getEntityByName_loaded n _ _
                 (saved_loaded_on _ w (proj1 H)) (saved_coherent _ w)).
      pose proof (find_put_entity
                    (push_observations e (missing_contents e cs)) g) as Hf.
      cbn [push_observations name] in Hf. rewrite (find_name He) in Hf.
      rewrite Hf. reflexivity. }
    split; [reflexivity|]. split; [exact Hin|]. split; [exact Hnd|].
    split; [apply loadFullGraph_loaded, saved_loaded_on; exact (proj1 H)|].
    split; [|apply relations_put_entity].
    rewrite names_put_entity. cbn [push_observations name].
    replace (has_entity (name e) g) with true; [reflexivity|].
    symmetry. unfold has_entity. apply existsb_exists.
    exists e. split; [exact (proj1 (find_some _ _ He))|apply eqb_refl].
  - apply Nat.ltb_ge in El.
    assert (En : missing_contents e cs = [])
      by (apply length_zero_iff_nil; lia).
    exists w, e1, g. split; [rewrite En; reflexivity|].
    split; [intros c; apply missing_contents_In|]. split.
    { rewrite (getEntityByName_loaded n w g H Hc), He.
      unfold e1. rewrite En, app_nil_r. destruct e; reflexivity. }
    split; [reflexivity|]. split; [exact Hin|]. split; [exact Hnd|].
    split; [apply loadFullGraph_loaded; exact H|].
    split; reflexivity.
Qed.

Lemma addObservations_appends_missing_contents_witness :
  exists w' e' g',
    addObservations [(js "Alice", [js "likes tea"; js "reads"])]
      (stored path0 people (js "T1"))
    = (Ok [(js "Alice",
            missing_contents alice [js "likes tea"; js "reads"])], w')
    /\ (forall c, In c (missing_contents alice [js "likes tea"; js "reads"])
                  <-> In c [js "likes tea"; js "reads"]
                      /\ ~ In c (observations alice))
    /\ getEntityByName (js "Alice") w' = (Ok (Some e'), w')
    /\ e' = {| name := name alice; entityType := entityType alice;
               observations :=
                 observations alice
                 ++ missing_contents alice [js "likes tea"; js "reads"] |}
    /\ (forall c, In c (observations e')
                  <-> In c (observations alice)
                      \/ In c [js "likes tea"; js "reads"])
    /\ (NoDup (observations alice) -> NoDup [js "likes tea"; js "reads"] ->
        NoDup (observations e'))
    /\ loadFullGraph w' = (Ok g', w')
    /\ map name (entities g') = map name (entities people)
    /\ relations g' = relations people.
Proof.
  apply (addObservations_appends_missing_contents
           (stored path0 people (js "T1")) people (js "Alice")
           [js "likes tea"; js "reads"] alice).
  - split; [reflexivity|].
    exists (fileContent (index_of_graph people (js "T1")) people).
    split; vm_compute; reflexivity.
  - exists (js "T1"). reflexivity.
  - reflexivity.
  - reflexivity.
Defined.

(** deleteRelations on a loaded store that accepts writes leaves the
    entities as they are and removes the relations whose triple is
    listed, and no other. *)
Theorem deleteRelations_removes_listed_triples (w : World)
  (g : KnowledgeGraph) (rs : list Relation) :
  loaded_on w g -> writable (disk w) = true ->
  exists w' g',
    deleteRelations rs w = (Ok tt, w')
    /\ loadFullGraph w' = (Ok g', w')
    /\ entities g' = entities g
    /\ forall r, In r (relations g') <-> In r (relations g) /\ ~ In r rs.
Proof.
  intros H Hw.
  destruct (forEach_deleteRelation_loaded rs w g H Hw) as (w' & Hrun & H' & _).
  exists w', (fold_left (fun g r => remove_relation r g) rs g).
  split; [exact Hrun|]. split; [apply loadFullGraph_loaded; exact H'|].
  split; [apply entities_remove_relations|].
  intros r. apply relations_remove_relations.
Qed.

Lemma deleteRelations_removes_listed_triples_witness :
  exists w' g',
    deleteRelations [knows; haunts] (stored path0 people (js "T1"))
    = (Ok tt, w')
    /\ loadFullGraph w' = (Ok g', w')
    /\ entities g' = entities people
    /\ forall r, In r (relations g')
                 <-> In r (relations people) /\ ~ In r [knows; haunts].
Proof.
  apply (deleteRelations_removes_listed_triples
           (stored path0 people (js "T1")) people [knows; haunts]).
  - split; [reflexivity|].
    exists (fileContent (index_of_graph people (js "T1")) people).
    split; vm_compute; reflexivity.
  - reflexivity.
Defined.

(** deleteEntities on a loaded store that accepts writes removes the
    entities whose name is listed and the relations that have a listed
    name at one end, and nothing else. *)
Theorem deleteEntities_removes_listed_names (w : World)
  (g : KnowledgeGraph) (ns : list jstring) :
  loaded_on w g -> writable (disk w) = true ->
  exists w' g',
    deleteEntities ns w = (Ok tt, w')
    /\ loadFullGraph w' = (Ok g', w')
    /\ (forall e, In e (entities g')
                  <-> In e (entities g) /\ ~ In (name e) ns)
    /\ (forall r, In r (relations g')
                  <-> In r (relations g)
                      /\ ~ In (from r) ns /\ ~ In (to r) ns).
Proof.
  intros H Hw.
  destruct (forEach_deleteEntity_loaded ns w g H Hw) as (w' & Hrun & H' & _).
  exists w', (fold_left (fun g n => remove_entity n g) ns g).
  split; [exact Hrun|]. split; [apply loadFullGraph_loaded; exact H'|].
  split; [intros e; apply entities_remove_entities|].
  intros r. apply relations_remove_entities.
Qed.

Lemma deleteEntities_removes_listed_names_witness :
  exists w' g',
    deleteEntities [js "Bob"; js "Ghost"] (stored path0 people (js "T1"))
    = (Ok tt, w')
    /\ loadFullGraph w' = (Ok g', w')
    /\ (forall e, In e (entities g')
                  <-> In e (entities people)
                      /\ ~ In (name e) [js "Bob"; js "Ghost"])
    /\ (forall r, In r (relations g')
                  <-> In r (relations people)
                      /\ ~ In (from r) [js "Bob"; js "Ghost"]
                      /\ ~ In (to r) [js "Bob"; js "Ghost"]).
Proof.
  apply (deleteEntities_removes_listed_names
           (stored path0 people (js "T1")) people [js "Bob"; js "Ghost"]).
  - split; [reflexivity|].
    exists (fileContent (index_of_graph people (js "T1")) people).
    split; vm_compute; reflexivity.
  - reflexivity.
Defined.

(** createEntities on a manager that has just been constructed, when the
    memory file does not exist and the disk accepts writes: the file is
    created, every entity of the input is reported as new, and the graph
    read back holds the entities put one after the other; when no two of
    them share a name, it holds exactly the input, in its order. *)
Theorem createEntities_on_new_store (w : World) (es : list Entity) :
  isIndexLoaded (this w) = false -> file_of w = None ->
  writable (disk w) = true ->
  exists w',
    createEntities es w = (Ok es, w')
    /\ loadFullGraph w'
       = (Ok (fold_left (fun g e => put_entity e g) es emptyGraph), w')
    /\ (NoDup (map name es) ->
        fold_left (fun g e => put_entity e g) es emptyGraph
        = {| entities := es; relations := [] |}).
Proof.
  intros Hl Hf Hw. unfold createEntities.
  rewrite (bind_ok _ _ _ _ _ (loadFullGraph_missing w Hl Hf Hw)).
  cbv zeta. cbn [entities emptyGraph existsb negb].
  assert (Hall : filter (fun _ : Entity => true) es = es).
  { clear. induction es as [|e es IH]; [reflexivity|].
    cbn [filter]. rewrite IH. reflexivity. }
  rewrite Hall.
  destruct (forEach_updateEntity_loaded es (created w) emptyGraph
              (created_loaded_on w) Hw) as (w' & Hrun & H' & _).
  exists w'. rewrite (bind_ok _ _ _ _ _ Hrun).
  split; [reflexivity|]. split; [apply loadFullGraph_loaded; exact H'|].
  intros Hn. apply (fold_put_new es emptyGraph). exact Hn.
Qed.

Lemma createEntities_on_new_store_witness :
  exists w',
    createEntities [alice; bob]
      {| this := constructor path0 (js "T1");
         disk := {| files := []; writable := true |};
         now := js "T1" |}
    = (Ok [alice; bob], w')
    /\ loadFullGraph w'
       = (Ok (fold_left (fun g e => put_entity e g) [alice; bob] emptyGraph),
          w')
    /\ (NoDup (map name [alice; bob]) ->
        fold_left (fun g e => put_entity e g) [alice; bob] emptyGraph
        = {| entities := [alice; bob]; relations := [] |}).
Proof.
  apply (createEntities_on_new_store
           {| this := constructor path0 (js "T1");
              disk := {| files := []; writable := true |};
              now := js "T1" |} [alice; bob]).
  - reflexivity.
  - reflexivity.
  - reflexivity.
Defined.


End MoreProperties.

Module Concrete.
Import Str IndexStructures Runtime StorageManager KnowledgeGraphManager GraphTypes Samples.
Local Open Scope monad_scope.

(** C3 (divergence): on the stored graph of Alice and Bob, both of type
    person, the one-term query person is a substring of the type of Alice,
    and the search over name, type and observations that legacySearchNodes
    runs returns the whole graph; searchNodes looks the term up among the
    entity names only and returns the empty graph. *)
Theorem searchNodes_single_term_matches_names_only :
  matches_term (toLowerCase (js "person")) alice = true
  /\ fst (legacySearchNodes (js "person") (stored path0 people (js "T1")))
     = Ok people
  /\ fst (searchNodes (js "person") (stored path0 people (js "T1")))
     = Ok emptyGraph.
Proof. repeat split; vm_compute; reflexivity. Qed.

(** C4 (divergence): on the same graph the type index resolves person to
    Alice and Bob, but the query that begins with type and names person is
    taken by the relation-first branch, which filters the relations by
    their relation type: searchNodes returns the empty graph. *)
Theorem searchNodes_type_prefix_is_shadowed :
  fst (getEntitiesByType (js "person") (stored path0 people (js "T1")))
    = Ok [alice; bob]
  /\ startsWith (toLowerCase (js "type person")) (js "type ") = true
  /\ fst (searchNodes (js "type person") (stored path0 people (js "T1")))
     = Ok emptyGraph.
Proof. repeat split; vm_compute; reflexivity. Qed.

(** C6 (divergence): updateEntity of Alice on a stored empty graph whose
    disk rejects the write throws the I/O error and leaves the file as it
    was, yet the cached index counts one entity and has an entry for Alice:
    loadIndex serves it, while getEntityByName finds no such entity in the
    file. *)
Theorem updateEntity_failed_write_keeps_unwritten_index :
  let w := read_only (stored path0 emptyGraph (js "T1")) in
  let w' := snd (updateEntity alice w) in
  fst (updateEntity alice w) = Throw IOError
  /\ fst (loadFullGraph w') = Ok emptyGraph
  /\ option_map (fun i => entityCount (metadata i))
       (match fst (loadIndex w') with Ok i => Some i | _ => None end) = Some 1
  /\ fst (getEntityByName (js "Alice") w') = Ok None
  /\ map_has (js "Alice") (entityIndices (indexStructure (this w'))) = true.
Proof. repeat split; vm_compute; reflexivity. Qed.

(** C8 (divergence): addObservations of the contents b, b to Bob, who has
    no observation, reports both as added and stores both: the observation
    list of Bob holds b twice. *)
Theorem addObservations_repeated_content_stored_twice :
  fst (addObservations [(js "Bob", [js "b"; js "b"])]
         (stored path0 people (js "T1")))
  = Ok [(js "Bob", [js "b"; js "b"])]
  /\ fst ((addObservations [(js "Bob", [js "b"; js "b"])] ;;
           getEntityByName (js "Bob")) (stored path0 people (js "T1")))
     = Ok (Some {| name := js "Bob"; entityType := js "person";
                   observations := [js "b"; js "b"] |}).
Proof. split; vm_compute; reflexivity. Qed.

(** C5 (counterexample): no entity of the stored graph is named Ghost; the
    relation from Ghost to Alice is created and read back, and after
    deleteEntities of Ghost it is no longer among the relations. *)
Theorem deleteEntities_unknown_name_drops_dangling_relation :
  exists g,
    fst ((createRelations [haunts] ;; deleteEntities [js "Ghost"] ;; readGraph)
           (stored path0 people (js "T1"))) = Ok g
    /\ existsb (fun e => Str.eqb (name e) (js "Ghost")) (entities people)
       = false
    /\ fst ((createRelations [haunts] ;; readGraph)
              (stored path0 people (js "T1")))
       = Ok {| entities := entities people; relations := [knows; haunts] |}
    /\ ~ In haunts (relations g).
Proof.
  eexists. split; [vm_compute; reflexivity|].
  split; [vm_compute; reflexivity|].
  split; [vm_compute; reflexivity|].
  simpl. intros [H|[]]. discriminate H.
Qed.

(** C9 (counterexample): a file saved at T1 and read at T2 by a manager
    that has just been constructed: loadIndex and rebuildIndex both return
    an index, and the two differ. *)
Theorem loadIndex_keeps_save_time :
  exists i1 i2,
    fst (loadIndex (reopened (stored path0 people (js "T1")) (js "T2"))) = Ok i1
    /\ fst (rebuildIndex (reopened (stored path0 people (js "T1")) (js "T2")))
       = Ok i2
    /\ lastUpdated (metadata i1) = js "T1"
    /\ lastUpdated (metadata i2) = js "T2"
    /\ i1 <> i2.
Proof.
  eexists. eexists. split; [vm_compute; reflexivity|].
  split; [vm_compute; reflexivity|].
  split; [reflexivity|]. split; [reflexivity|].
  intro H. discriminate H.
Qed.
End Concrete.
